(** * The AST explorer of vscode-hylo: node store, variant accessors,
      tree projection and the webview/host message protocol.

    The development embeds [src/webview/types.ts], the webview script (the
    [ASTExplorerView] class and its [render*] functions), the message
    declarations and the host-side view provider.

    Conventions of the embedding.
    - A JavaScript [number] that the interchange format uses as an index
      of an array is an integer of type [Z].  A line or column number is a
      [number]: an IEEE 754 binary64 value, with the Standard Library's
      specification of its arithmetic.
    - A value that may be [undefined] or [null] at run time has type
      [Maybe A].  An optional record field ([label?:]) has type [option].
    - A computation that may throw has type [Result A].  The run-time
      errors that occur are [TypeError] (property access on [undefined] or
      [null], the [in] operator and [Object.keys] applied to them),
      [SyntaxError] (thrown by [JSON.parse]), [RangeError] (call stack
      exhausted by unbounded recursion) and the plain [Error] objects that
      the code creates itself.
    - [JSON.parse] and [JSON.stringify] are platform functions; they are
      parameters of the development (record [JSONApi]). *)

From Stdlib Require Import String Ascii ZArith List Bool Arith Lia SpecFloat.
Import ListNotations.

Local Open Scope string_scope.
Local Open Scope list_scope.

Set Implicit Arguments.

(* ================================================================== *)
(** * JavaScript values and exceptions *)
(* ================================================================== *)

Inductive JsError : Type :=
| TypeError
| SyntaxError
| RangeError
| Error (message : string).

Inductive Result (A : Type) : Type :=
| Ok (a : A)
| Throw (e : JsError).

Arguments Ok {A} a.
Arguments Throw {A} e.

Definition bind {A B : Type} (m : Result A) (k : A -> Result B) : Result B :=
  match m with
  | Ok a => k a
  | Throw e => Throw e
  end.

Declare Scope js_scope.
Delimit Scope js_scope with js.
Notation "x <- m ;; k" := (bind m (fun x => k))
  (at level 61, m at next level, right associativity) : js_scope.
Local Open Scope js_scope.

(** [T | null | undefined]. *)
Inductive Maybe (A : Type) : Type :=
| undefined
| null
| some (a : A).

Arguments undefined {A}.
Arguments null {A}.
Arguments some {A} a.

(** Reading a property of [v]: a [TypeError] when [v] is [undefined] or
    [null].  This is what a non-null assertion [v!] followed by a property
    access does at run time. *)
Definition deref {A : Type} (v : Maybe A) : Result A :=
  match v with
  | some a => Ok a
  | undefined | null => Throw TypeError
  end.

(** [arr[i]] for an array and a number: the element when [i] is an index
    of the array, [undefined] otherwise (also for negative [i]). *)
Definition index {A : Type} (arr : list A) (i : Z) : Maybe A :=
  if (i <? 0)%Z then undefined
  else match nth_error arr (Z.to_nat i) with
       | Some a => some a
       | None => undefined
       end.

(** [arr.map(f)] when [f] may throw: elements are visited in order and the
    first exception ends the traversal. *)
Fixpoint mapM {A B : Type} (f : A -> Result B) (arr : list A) : Result (list B) :=
  match arr with
  | [] => Ok []
  | a :: rest =>
      b <- f a ;;
      bs <- mapM f rest ;;
      Ok (b :: bs)
  end.

(** [s.split(sep)] for a one-character separator: the pieces between the
    occurrences of [sep]; never empty. *)
Fixpoint split (sep : ascii) (s : string) : list string :=
  match s with
  | EmptyString => [EmptyString]
  | String c rest =>
      if Ascii.eqb c sep then EmptyString :: split sep rest
      else match split sep rest with
           | [] => [String c EmptyString]
           | piece :: pieces => String c piece :: pieces
           end
  end.

(** [arr.pop()]: the last element, [undefined] on an empty array. *)
Fixpoint pop {A : Type} (arr : list A) : Maybe A :=
  match arr with
  | [] => undefined
  | [a] => some a
  | _ :: rest => pop rest
  end.

(* ================================================================== *)
(** * Numbers *)
(* ================================================================== *)

(** A JavaScript number is an IEEE 754 binary64 value.  [spec_float] is
    the Standard Library's specification of these values and [SFsub] the
    one of their subtraction, which rounds to the nearest number, ties to
    the even mantissa; binary64 has 53 bits of precision and the exponent
    bound 1024. *)
Definition number : Type := spec_float.

Definition prec : Z := 53.
Definition emax : Z := 1024.

(** The number that the integer literal [z] denotes: the number nearest to
    [z]. *)
Definition ofZ (z : Z) : number := binary_normalize prec emax z 0 false.

(** [x - y] *)
Definition minus (x y : number) : number := SFsub prec emax x y.

(** The integer that a number is, when it is one. *)
Definition integerValue (x : number) : option Z :=
  match x with
  | S754_zero _ => Some 0%Z
  | S754_finite s m e =>
      if (0 <=? e)%Z then Some (cond_Zopp s (Zpos m * 2 ^ e))
      else if (Zpos m mod 2 ^ (- e) =? 0)%Z
           then Some (cond_Zopp s (Zpos m / 2 ^ (- e)))
           else None
  | S754_infinity _ | S754_nan => None
  end.

(** [Number.MAX_SAFE_INTEGER + 1]: every integer from [- exactBound] to
    [exactBound] is a number, and [exactBound + 1] is none. *)
Definition exactBound : Z := 9007199254740992.

(** An integer [z] such that [z] and [z - 1] are numbers. *)
Definition Safe (z : Z) : Prop := (- exactBound < z <= exactBound)%Z.

(** [a * 2^k] *)
Definition shiftp (k : nat) (a : positive) : positive := Nat.iter k xO a.

(** The number of the integer [a], or of [- a] when [s] holds, for [a]
    below [exactBound]: a mantissa of 53 bits and the exponent that goes
    with it. *)
Definition canon (s : bool) (a : positive) : number :=
  S754_finite s
    (shiftp (Z.to_nat (53 - Zpos (digits2_pos a))) a)
    (Zpos (digits2_pos a) - 53).

(* ================================================================== *)
(** * [types.ts]: the data model *)
(* ================================================================== *)

Record NodeID : Type := mkNodeID {
  base : Z;
  offset : Z
}.

Record SourcePosition : Type := mkSourcePosition {
  line : number;
  column : number
}.

Record SourceRange : Type := mkSourceRange {
  start : SourcePosition;
  end_ : SourcePosition;
  fileUrl : string
}.

Module FunctionDecl.
Record t : Type := mk {
  name : string;
  site : SourceRange;
  parameters : list NodeID
}.
End FunctionDecl.

Module ModuleDecl.
Record t : Type := mk {
  baseName : string;
  canAccessBuiltins : bool;
  site : SourceRange;
  sources : list NodeID
}.
End ModuleDecl.

Module TranslationUnit.
Record t : Type := mk {
  decls : list NodeID;
  site : SourceRange
}.
End TranslationUnit.

Module ProductTypeDecl.
Record t : Type := mk {
  name : string;
  site : SourceRange;
  identifierSite : SourceRange
}.
End ProductTypeDecl.

Module ParameterDecl.
Record t : Type := mk {
  site : SourceRange;
  label : option string;
  identifier : string
}.
End ParameterDecl.

(** The keys of the six variants of the union [ASTNode]. *)
Definition knownKinds : list string :=
  ["missing"; "FunctionDecl"; "TranslationUnit"; "ModuleDecl";
   "ProductTypeDecl"; "ParameterDecl"].

Definition isKnownKind (kind : string) : bool :=
  existsb (String.eqb kind) knownKinds.

(** A node is an object with one key.  The six variants of the union are
    the first six constructors.  [N_other kind _] is an object whose key is
    none of the six: a node of a kind that the union does not list, as a
    producer with a newer schema may emit. *)
Inductive ASTNode : Type :=
| N_missing
| N_FunctionDecl (d : FunctionDecl.t)
| N_TranslationUnit (d : TranslationUnit.t)
| N_ModuleDecl (d : ModuleDecl.t)
| N_ProductTypeDecl (d : ProductTypeDecl.t)
| N_ParameterDecl (d : ParameterDecl.t)
| N_other (kind : string) (fresh : isKnownKind kind = false).

Record AST : Type := mkAST {
  modulesIds : list NodeID;
  nodes : list (list ASTNode)
}.

(** [from.nodes[id.base][id.offset]].  When [id.base] is no index of
    [from.nodes] the first lookup gives [undefined] and the second one
    throws; when [id.offset] is no index of the group the result is
    [undefined]. *)
Definition node (from : AST) (id : NodeID) : Result (Maybe ASTNode) :=
  group <- deref (index (nodes from) (base id)) ;;
  Ok (index group (offset id)).

(** The only own key of the node object. *)
Definition ownKey (n : ASTNode) : string :=
  match n with
  | N_missing => "missing"
  | N_FunctionDecl _ => "FunctionDecl"
  | N_TranslationUnit _ => "TranslationUnit"
  | N_ModuleDecl _ => "ModuleDecl"
  | N_ProductTypeDecl _ => "ProductTypeDecl"
  | N_ParameterDecl _ => "ParameterDecl"
  | N_other kind _ => kind
  end.

(** [key in node]; the operator throws on a value that is no object. *)
Definition hasKey (key : string) (n : Maybe ASTNode) : Result bool :=
  obj <- deref n ;;
  Ok (String.eqb key (ownKey obj)).

(** A payload type [K] of the union, its key, and the property read
    [(node as any)[key]] for a node that has the key. *)
Class Variant (K : Type) : Type := {
  variantKey : string;
  payload : ASTNode -> option K
}.

#[export] Instance FunctionDecl_variant : Variant FunctionDecl.t := {|
  variantKey := "FunctionDecl";
  payload n := match n with N_FunctionDecl d => Some d | _ => None end
|}.

#[export] Instance ModuleDecl_variant : Variant ModuleDecl.t := {|
  variantKey := "ModuleDecl";
  payload n := match n with N_ModuleDecl d => Some d | _ => None end
|}.

#[export] Instance TranslationUnit_variant : Variant TranslationUnit.t := {|
  variantKey := "TranslationUnit";
  payload n := match n with N_TranslationUnit d => Some d | _ => None end
|}.

#[export] Instance ProductTypeDecl_variant : Variant ProductTypeDecl.t := {|
  variantKey := "ProductTypeDecl";
  payload n := match n with N_ProductTypeDecl d => Some d | _ => None end
|}.

#[export] Instance ParameterDecl_variant : Variant ParameterDecl.t := {|
  variantKey := "ParameterDecl";
  payload n := match n with N_ParameterDecl d => Some d | _ => None end
|}.

(** Reading a field of [node.<key>], as in [n.TranslationUnit.site]: a
    [TypeError] when [node.<key>] is [undefined]. *)
Definition payloadOf (K : Type) `{Variant K} (n : Maybe ASTNode) : Result K :=
  obj <- deref n ;;
  match payload obj with
  | Some d => Ok d
  | None => Throw TypeError
  end.

Arguments payloadOf K {_} n.

(** [asX(node, key)]: the payload when [key in node], the error
    [Expected <key>] otherwise.  A node that has the key has the payload
    (lemma [payload_has_key]), so the result is read without failure. *)
Definition asX (K : Type) `{Variant K} (n : Maybe ASTNode) : Result K :=
  present <- hasKey variantKey n ;;
  if present then payloadOf K n
  else Throw (Error ("Expected " ++ variantKey)).

Arguments asX K {_} n.

Definition asFunctionDecl := asX FunctionDecl.t.
Definition asModuleDecl := asX ModuleDecl.t.
Definition asTranslationUnit := asX TranslationUnit.t.
Definition asProductTypeDecl := asX ProductTypeDecl.t.
Definition asParameterDecl := asX ParameterDecl.t.

Definition isX (n : Maybe ASTNode) (key : string) : Result bool :=
  hasKey key n.

Definition isFunctionDecl (n : Maybe ASTNode) := isX n "FunctionDecl".
Definition isModuleDecl (n : Maybe ASTNode) := isX n "ModuleDecl".
Definition isTranslationUnit (n : Maybe ASTNode) := isX n "TranslationUnit".
Definition isProductTypeDecl (n : Maybe ASTNode) := isX n "ProductTypeDecl".

(** [Object.keys(node)[0]]; [Object.keys] throws on [undefined] and
    [null]. *)
Definition nodeKind (n : Maybe ASTNode) : Result string :=
  obj <- deref n ;;
  Ok (ownKey obj).

(** The [switch] of [siteOf] has no [default]: for a kind that no [case]
    names, control leaves the [switch] and the function returns
    [undefined]. *)
Definition siteOf (n : Maybe ASTNode) : Result (Maybe SourceRange) :=
  kind <- nodeKind n ;;
  if kind =? "FunctionDecl" then
    d <- asFunctionDecl n ;; Ok (some (FunctionDecl.site d))
  else if kind =? "ModuleDecl" then
    Ok null
  else if kind =? "TranslationUnit" then
    d <- asTranslationUnit n ;; Ok (some (TranslationUnit.site d))
  else if kind =? "ProductTypeDecl" then
    d <- asProductTypeDecl n ;; Ok (some (ProductTypeDecl.site d))
  else if kind =? "ParameterDecl" then
    d <- asParameterDecl n ;; Ok (some (ParameterDecl.site d))
  else if kind =? "missing" then
    Ok null
  else Ok undefined.

(* ================================================================== *)
(** * [messages.ts]: the messages sent by the webview *)
(* ================================================================== *)

Inductive MessageFromFrontend : Type :=
| OpenFileMessage (fileUrl : string)
  (** [{ type: 'openSourceFile', fileUrl }] *)
| HighlightFullDeclarationMessage (range : SourceRange)
  (** [{ type: 'highlightFullDeclaration', range }] *).

(* ================================================================== *)
(** * The tree widget's items *)
(* ================================================================== *)

Record TreeItemIconConfig : Type := mkIcons {
  branch : string;
  leaf : string;
  open : string
}.

Module TreeItemDecoration.
Record t : Type := mk {
  content : string;
  color : string;
  appearance : string
}.
End TreeItemDecoration.

Module TreeItemAction.
Record t : Type := mk {
  actionId : string;
  icon : string;
  tooltip : string
}.
End TreeItemAction.

(** An entry of [subItems] may be [undefined]: that is what
    [renderAnyDecl] returns for a kind that its [switch] does not name. *)
#[warnings="-register-all"]
Inductive TreeItem : Type := mkTreeItem {
  icons : TreeItemIconConfig;
  label : string;
  value : string;
  tooltip : option string;
  subItems : list (Maybe TreeItem);
  decorations : option (list TreeItemDecoration.t);
  actions : option (list TreeItemAction.t)
}.

Definition uniformIcon (iconName : string) : TreeItemIconConfig :=
  {| branch := iconName; leaf := iconName; open := iconName |}.

(** The action that four of the renderers attach to their item. *)
Definition highlightAction : TreeItemAction.t :=
  {| TreeItemAction.actionId := "highlightFullDeclaration";
     TreeItemAction.icon := "open-preview";
     TreeItemAction.tooltip := "Highligh Declaration" |}.

Definition kindDecoration (content color : string) : TreeItemDecoration.t :=
  {| TreeItemDecoration.content := content;
     TreeItemDecoration.color := color;
     TreeItemDecoration.appearance := "text" |}.

(** [url.split('/').pop()!]: the piece after the last slash.  [split]
    never returns an empty array, so [pop] never returns [undefined]
    here. *)
Definition fileName (url : string) : string :=
  match pop (split "/"%char url) with
  | some piece => piece
  | undefined | null => EmptyString
  end.

(* ================================================================== *)
(** * The platform's JSON functions *)
(* ================================================================== *)

(** [JSON.parse(text) as AST], [JSON.parse(text) as NodeID | null] and
    [JSON.stringify(id)].  A parse returns the value the text denotes
    ([null] for the text of the literal null) or throws. *)
Record JSONApi : Type := mkJSON {
  parseAST : string -> Result (Maybe AST);
  parseNodeID : string -> Result (Maybe NodeID);
  stringify : NodeID -> string
}.

(* ================================================================== *)
(** * The webview script: tree projection *)
(* ================================================================== *)

Section Projection.

Variable JSON : JSONApi.

Definition renderMissing (ast : AST) (nodeId : NodeID) : Result TreeItem :=
  n <- node ast nodeId ;;
  kind <- nodeKind n ;;
  Ok {| icons := uniformIcon "question";
        label := "Unknown";
        value := stringify JSON nodeId;
        tooltip := None;
        subItems := [];
        decorations :=
          Some [kindDecoration kind "var(--vscode-errorForeground)"];
        actions := None |}.

Definition renderProductTypeDecl (ast : AST) (productTypeDeclId : NodeID)
  : Result TreeItem :=
  resolved <- node ast productTypeDeclId ;;
  n <- asProductTypeDecl resolved ;;
  Ok {| icons := uniformIcon "symbol-class";
        label := ProductTypeDecl.name n;
        value := stringify JSON productTypeDeclId;
        tooltip := None;
        subItems := [];
        decorations :=
          Some [kindDecoration "ProductTypeDecl"
                  "var(--vscode-textLink-foreground)"];
        actions := Some [highlightAction] |}.

Definition renderParameterDecl (ast : AST) (parameterDeclId : NodeID)
  : Result TreeItem :=
  resolved <- node ast parameterDeclId ;;
  n <- asParameterDecl resolved ;;
  Ok {| icons := uniformIcon "symbol-parameter";
        label :=
          ParameterDecl.identifier n
          ++ (" (label: "
              ++ match ParameterDecl.label n with
                 | Some l => l
                 | None => "<none>"
                 end
              ++ ")");
        value := stringify JSON parameterDeclId;
        tooltip := None;
        subItems := [];
        decorations :=
          Some [kindDecoration "ParameterDecl"
                  "var(--vscode-textLink-foreground)"];
        actions := Some [highlightAction] |}.

Definition renderFunctionDecl (ast : AST) (functionDeclId : NodeID)
  : Result TreeItem :=
  resolved <- node ast functionDeclId ;;
  n <- asFunctionDecl resolved ;;
  params <- mapM (renderParameterDecl ast) (FunctionDecl.parameters n) ;;
  Ok {| icons := uniformIcon "symbol-function";
        label := FunctionDecl.name n;
        value := stringify JSON functionDeclId;
        tooltip := None;
        subItems :=
          [some {| icons := uniformIcon "symbol-property";
                   label := "parameters";
                   value := "n";
                   tooltip := None;
                   subItems := map some params;
                   decorations := None;
                   actions := None |}];
        decorations :=
          Some [kindDecoration "FunctionDecl"
                  "var(--vscode-textLink-foreground)"];
        actions := Some [highlightAction] |}.

(** [renderModuleDecl], [renderTranslationUnitDecl] and [renderAnyDecl]
    call each other without a bound on the depth.  [stack] is the number
    of nested calls of these three that the call stack still admits; a
    call made when none is left is the engine's [RangeError]. *)
Fixpoint renderModuleDecl (stack : nat) (ast : AST) (moduleId : NodeID)
  {struct stack} : Result TreeItem :=
  match stack with
  | O => Throw RangeError
  | S stack' =>
      resolved <- node ast moduleId ;;
      moduleDecl <- asModuleDecl resolved ;;
      units <- mapM (renderTranslationUnitDecl stack' ast)
                 (ModuleDecl.sources moduleDecl) ;;
      Ok {| icons := uniformIcon "file-submodule";
            label := ModuleDecl.baseName moduleDecl;
            value := stringify JSON moduleId;
            tooltip := None;
            subItems := map some units;
            decorations := None;
            actions := None |}
  end

with renderTranslationUnitDecl (stack : nat) (ast : AST)
       (translationUnitId : NodeID) {struct stack} : Result TreeItem :=
  match stack with
  | O => Throw RangeError
  | S stack' =>
      resolved <- node ast translationUnitId ;;
      translationUnit <- asTranslationUnit resolved ;;
      items <- mapM (renderAnyDecl stack' ast)
                 (TranslationUnit.decls translationUnit) ;;
      Ok {| icons := uniformIcon "file";
            label := fileName (fileUrl (TranslationUnit.site translationUnit));
            value := stringify JSON translationUnitId;
            tooltip := Some (fileUrl (TranslationUnit.site translationUnit));
            subItems := items;
            decorations := None;
            actions := Some [highlightAction] |}
  end

(** The [switch] has no [default]: for a kind that no [case] names the
    function returns [undefined]. *)
with renderAnyDecl (stack : nat) (ast : AST) (nodeId : NodeID)
       {struct stack} : Result (Maybe TreeItem) :=
  match stack with
  | O => Throw RangeError
  | S stack' =>
      n <- node ast nodeId ;;
      kind <- nodeKind n ;;
      if kind =? "ModuleDecl" then
        item <- renderModuleDecl stack' ast nodeId ;; Ok (some item)
      else if kind =? "FunctionDecl" then
        item <- renderFunctionDecl ast nodeId ;; Ok (some item)
      else if kind =? "TranslationUnit" then
        item <- renderTranslationUnitDecl stack' ast nodeId ;; Ok (some item)
      else if kind =? "missing" then
        item <- renderMissing ast nodeId ;; Ok (some item)
      else if kind =? "ProductTypeDecl" then
        item <- renderProductTypeDecl ast nodeId ;; Ok (some item)
      else if kind =? "ParameterDecl" then
        item <- renderParameterDecl ast nodeId ;; Ok (some item)
      else Ok undefined
  end.

End Projection.

(* ================================================================== *)
(** * The webview script: [ASTExplorerView] and its listeners *)
(* ================================================================== *)

(** What a listener can read and change: the field [ast] of the view, the
    [data] of the tree widget, the messages handed to [vscode.postMessage]
    and the lines written with [console.log] (both oldest first). *)
Record World : Type := mkWorld {
  this_ast : Maybe AST;
  astTreeView_data : list (Maybe TreeItem);
  posted : list MessageFromFrontend;
  console : list (list string)
}.

(** The state of a freshly constructed view: [private ast: AST | null = null]. *)
Definition initialWorld : World :=
  {| this_ast := null; astTreeView_data := []; posted := []; console := [] |}.

(** A listener run: how it ended and the world it left. *)
Definition Listener (A : Type) : Type := World -> Result A * World.

Definition ret {A : Type} (a : A) : Listener A := fun w => (Ok a, w).

Definition andThen {A B : Type} (m : Listener A) (k : A -> Listener B)
  : Listener B :=
  fun w =>
    match m w with
    | (Ok a, w') => k a w'
    | (Throw e, w') => (Throw e, w')
    end.

Definition lift {A : Type} (r : Result A) : Listener A := fun w => (r, w).

Declare Scope listener_scope.
Delimit Scope listener_scope with listener.
Notation "x <~ m ;; k" := (andThen m (fun x => k))
  (at level 61, m at next level, right associativity) : listener_scope.
Notation "m ;;; k" := (andThen m (fun _ => k))
  (at level 61, right associativity) : listener_scope.

Definition postMessage (message : MessageFromFrontend) : Listener unit :=
  fun w =>
    (Ok tt,
     {| this_ast := this_ast w;
        astTreeView_data := astTreeView_data w;
        posted := posted w ++ [message];
        console := console w |}).

Definition console_log (args : list string) : Listener unit :=
  fun w =>
    (Ok tt,
     {| this_ast := this_ast w;
        astTreeView_data := astTreeView_data w;
        posted := posted w;
        console := console w ++ [args] |}).

Definition set_ast (ast : Maybe AST) : Listener unit :=
  fun w =>
    (Ok tt,
     {| this_ast := ast;
        astTreeView_data := astTreeView_data w;
        posted := posted w;
        console := console w |}).

Definition set_data (data : list (Maybe TreeItem)) : Listener unit :=
  fun w =>
    (Ok tt,
     {| this_ast := this_ast w;
        astTreeView_data := data;
        posted := posted w;
        console := console w |}).

Definition get_ast : Listener (Maybe AST) := fun w => (Ok (this_ast w), w).

(** [try { body } catch (e) { handler }]. *)
Definition tryCatch {A : Type} (body : Listener A) (handler : JsError -> Listener A)
  : Listener A :=
  fun w =>
    match body w with
    | (Ok a, w') => (Ok a, w')
    | (Throw e, w') => handler e w'
    end.

Section View.

Variable JSON : JSONApi.

(** The number of nested render calls that the call stack admits. *)
Variable stackDepth : nat.

Local Open Scope listener_scope.

(** [updateAst(ast)].  The argument is whatever [JSON.parse] returned;
    the cast [as AST] checks nothing. *)
Definition updateAst (ast : Maybe AST) : Listener unit :=
  set_ast ast ;;;
  items <~ lift (a <- deref ast ;;
                 mapM (renderModuleDecl JSON stackDepth a) (modulesIds a)) ;;
  set_data (map some items).

(** The listener of the text field's [input] event; [text] is
    [this.astInput.value].  The [catch] block empties the tree and
    returns from the listener. *)
Definition onInput (text : string) : Listener unit :=
  parsed <~ tryCatch
              (ast <~ lift (parseAST JSON text) ;; ret (Some ast))
              (fun _ => set_data [] ;;; ret None) ;;
  match parsed with
  | Some ast => updateAst ast
  | None => ret tt
  end.

(** The listener of the tree's [vsc-run-action] event; [itemValue] is
    [e.detail.item.value]. *)
Definition onRunAction (actionId itemValue : string) : Listener unit :=
  if (actionId =? "openSourceFile")%string then
    translationUnitId <~ lift (parseNodeID JSON itemValue) ;;
    ast <~ get_ast ;;
    translationUnit <~ lift (from <- deref ast ;;
                             id <- deref translationUnitId ;;
                             n <- node from id ;;
                             asTranslationUnit n) ;;
    postMessage (OpenFileMessage (fileUrl (TranslationUnit.site translationUnit)))
  else if (actionId =? "highlightFullDeclaration")%string then
    console_log ["highlightFullDeclaration"] ;;;
    nodeId <~ lift (parseNodeID JSON itemValue) ;;
    ast <~ get_ast ;;
    n <~ lift (from <- deref ast ;; id <- deref nodeId ;; node from id) ;;
    site <~ lift (siteOf n) ;;
    match site with (* if (site) *)
    | some range => postMessage (HighlightFullDeclarationMessage range)
    | undefined | null => ret tt
    end
  else ret tt.

(** The listener of the tree's [vsc-select] event; [value] is
    [e.detail.value]. *)
Definition onSelect (value : string) : Listener unit :=
  parsed <~ tryCatch
              (nodeId <~ lift (parseNodeID JSON value) ;;
               match nodeId with
               | null => lift (Throw (Error "nodeId is null"))
               | _ => ret (Some nodeId)
               end)
              (fun _ =>
                 console_log ["error parsing nodeId "; value] ;;; ret None) ;;
  match parsed with
  | None => ret tt
  | Some nodeId =>
      ast <~ get_ast ;;
      n <~ lift (from <- deref ast ;; id <- deref nodeId ;; node from id) ;;
      isUnit <~ lift (isTranslationUnit n) ;;
      if isUnit then
        translationUnit <~ lift (payloadOf TranslationUnit.t n) ;;
        postMessage
          (OpenFileMessage (fileUrl (TranslationUnit.site translationUnit)))
      else ret tt
  end.

End View.

(* ================================================================== *)
(** * The host side: [ASTExplorerViewProvider] *)
(* ================================================================== *)

Module vscode.

(** The arguments given to [new vscode.Range(startLine, startCharacter,
    endLine, endCharacter)]. *)
Record Range : Type := mkRange {
  startLine : number;
  startCharacter : number;
  endLine : number;
  endCharacter : number
}.

(** The argument given to [vscode.Uri.parse]. *)
Inductive Uri : Type := Uri_parse (value : string).

Record TextDocumentShowOptions : Type := mkOptions {
  preserveFocus : option bool;
  selection : option Range
}.

(** A call of [vscode.window.showTextDocument]. *)
Inductive WindowCall : Type :=
| showTextDocument (uri : Uri) (options : TextDocumentShowOptions).

End vscode.

Definition toVscodeRange (range : SourceRange) : vscode.Range :=
  vscode.mkRange
    (minus (line (start range)) (ofZ 1))
    (minus (column (start range)) (ofZ 1))
    (minus (line (end_ range)) (ofZ 1))
    (minus (column (end_ range)) (ofZ 1)).

(** The coordinates of [range] are the integers [l1], [c1], [l2] and
    [c2], and each of them is safe. *)
Definition IntegerSite (range : SourceRange) (l1 c1 l2 c2 : Z) : Prop :=
  (line (start range) = ofZ l1 /\ column (start range) = ofZ c1 /\
   line (end_ range) = ofZ l2 /\ column (end_ range) = ofZ c2) /\
  Safe l1 /\ Safe c1 /\ Safe l2 /\ Safe c2.

(** The callback given to [webview.onDidReceiveMessage]: the editor call it
    makes for a message. *)
Definition onDidReceiveMessage (data : MessageFromFrontend) : vscode.WindowCall :=
  match data with
  | OpenFileMessage fileUrl =>
      vscode.showTextDocument (vscode.Uri_parse fileUrl)
        {| vscode.preserveFocus := Some true; vscode.selection := None |}
  | HighlightFullDeclarationMessage range =>
      vscode.showTextDocument (vscode.Uri_parse (fileUrl range))
        {| vscode.preserveFocus := None;
           vscode.selection := Some (toVscodeRange range) |}
  end.

(* ================================================================== *)
(** * Predicates used by the statements *)
(* ================================================================== *)

(** [id.base] is an index of [ast.nodes]. *)
Definition GroupInBounds (ast : AST) (id : NodeID) : Prop :=
  (0 <= base id < Z.of_nat (length (nodes ast)))%Z.

(** [id] addresses a node of the snapshot: [id.base] is an index of
    [ast.nodes] and [id.offset] an index of that group. *)
Definition InBounds (ast : AST) (id : NodeID) : Prop :=
  GroupInBounds ast id /\
  (0 <= offset id
   < Z.of_nat (length (nth (Z.to_nat (base id)) (nodes ast) [])))%Z.

(** A node of one of the six variants of the union [ASTNode]. *)
Definition WellFormedNode (n : ASTNode) : Prop :=
  isKnownKind (ownKey n) = true.

(** The position in which projection reaches a node: an entry of
    [modulesIds], of a module's [sources], of a translation unit's [decls]
    or of a function's [parameters]. *)
Inductive Role : Type := AsModule | AsUnit | AsDecl | AsParameter.

(** The accessor applied to a node reached in a given position accepts
    it.  A declaration is dispatched on its own kind, so every node is
    accepted there. *)
Definition accepts (role : Role) (n : ASTNode) : Prop :=
  match role with
  | AsModule => exists d, n = N_ModuleDecl d
  | AsUnit => exists d, n = N_TranslationUnit d
  | AsDecl => True
  | AsParameter => exists d, n = N_ParameterDecl d
  end.

(** The references that projection follows out of a node. *)
Inductive Refers (ast : AST) : Role -> NodeID -> Role -> NodeID -> Prop :=
| refers_source role m d s :
    role = AsModule \/ role = AsDecl ->
    node ast m = Ok (some (N_ModuleDecl d)) ->
    In s (ModuleDecl.sources d) ->
    Refers ast role m AsUnit s
| refers_decl role u d c :
    role = AsUnit \/ role = AsDecl ->
    node ast u = Ok (some (N_TranslationUnit d)) ->
    In c (TranslationUnit.decls d) ->
    Refers ast role u AsDecl c
| refers_parameter f d p :
    node ast f = Ok (some (N_FunctionDecl d)) ->
    In p (FunctionDecl.parameters d) ->
    Refers ast AsDecl f AsParameter p.

(** The identifiers that projection of [ast] references, with the position
    in which it reaches them. *)
Inductive Visited (ast : AST) : Role -> NodeID -> Prop :=
| visited_root id :
    In id (modulesIds ast) -> Visited ast AsModule id
| visited_step role id role' id' :
    Visited ast role id -> Refers ast role id role' id' ->
    Visited ast role' id'.

(** Every identifier referenced during traversal is in bounds. *)
Definition TraversalInBounds (ast : AST) : Prop :=
  forall role id, Visited ast role id -> InBounds ast id.

(** Every node reached during traversal has the kind that its position
    asks for. *)
Definition TraversalWellKinded (ast : AST) : Prop :=
  forall role id n,
    Visited ast role id -> node ast id = Ok (some n) -> accepts role n.

(** The references followed during traversal go down along [rank]: the
    reachable part of the snapshot has no cycle. *)
Definition Descending (ast : AST) (rank : NodeID -> nat) : Prop :=
  forall role id role' id',
    Visited ast role id -> Refers ast role id role' id' ->
    rank id' < rank id.

Definition maxRank (rank : NodeID -> nat) (ids : list NodeID) : nat :=
  fold_right Nat.max 0 (map rank ids).

(** [id] resolves to a node that is no [ModuleDecl]. *)
Definition NotAModule (ast : AST) (id : NodeID) : Prop :=
  exists n, node ast id = Ok (some n) /\ forall d, n <> N_ModuleDecl d.

(** [id] resolves to a node that is no [TranslationUnit]. *)
Definition NotAUnit (ast : AST) (id : NodeID) : Prop :=
  exists n, node ast id = Ok (some n) /\ forall d, n <> N_TranslationUnit d.

(** The entry [id] of [modulesIds] breaks the shape that projection
    expects at the top two levels: it is no module, or it is a module one
    of whose [sources] is no translation unit. *)
Definition BreaksTopLevels (ast : AST) (id : NodeID) : Prop :=
  NotAModule ast id \/
  exists d source,
    node ast id = Ok (some (N_ModuleDecl d)) /\
    In source (ModuleDecl.sources d) /\
    NotAUnit ast source.

(* ================================================================== *)
(** * Sample snapshots and texts *)
(* ================================================================== *)

Definition pos (l c : Z) : SourcePosition :=
  {| line := ofZ l; column := ofZ c |}.

Definition siteA : SourceRange :=
  {| start := pos 1 1; end_ := pos 4 2; fileUrl := "file:///a.src" |}.

Definition siteP : SourceRange :=
  {| start := pos 8 8; end_ := pos 8 18; fileUrl := "file:///b.src" |}.

Definition enumDecl : ASTNode := N_other "EnumDecl" eq_refl.

(** One group.  Offset 0: the function [main] with the parameter at offset
    1; 2: the translation unit [a.src] declaring the nodes at 0, 4, 5 and
    6; 3: the module [M]; 4: a node of a kind outside the union; 5: a
    missing node; 6: a product type. *)
Definition sampleNodes : list ASTNode :=
  [ N_FunctionDecl
      {| FunctionDecl.name := "main"; FunctionDecl.site := siteA;
         FunctionDecl.parameters := [mkNodeID 0 1] |};
    N_ParameterDecl
      {| ParameterDecl.site := siteP; ParameterDecl.label := None;
         ParameterDecl.identifier := "argc" |};
    N_TranslationUnit
      {| TranslationUnit.decls :=
           [mkNodeID 0 0; mkNodeID 0 4; mkNodeID 0 5; mkNodeID 0 6];
         TranslationUnit.site := siteA |};
    N_ModuleDecl
      {| ModuleDecl.baseName := "M"; ModuleDecl.canAccessBuiltins := false;
         ModuleDecl.site := siteA; ModuleDecl.sources := [mkNodeID 0 2] |};
    enumDecl;
    N_missing;
    N_ProductTypeDecl
      {| ProductTypeDecl.name := "T"; ProductTypeDecl.site := siteA;
         ProductTypeDecl.identifierSite := siteA |} ].

Definition sampleAst : AST :=
  {| modulesIds := [mkNodeID 0 3]; nodes := [sampleNodes] |}.

(** One module [M] with one translation unit [file:///a.src] that
    declares one function [main] without parameters. *)
Definition scenarioAst : AST :=
  {| modulesIds := [mkNodeID 0 2];
     nodes :=
       [[ N_FunctionDecl
            {| FunctionDecl.name := "main"; FunctionDecl.site := siteA;
               FunctionDecl.parameters := [] |};
          N_TranslationUnit
            {| TranslationUnit.decls := [mkNodeID 0 0];
               TranslationUnit.site := siteA |};
          N_ModuleDecl
            {| ModuleDecl.baseName := "M";
               ModuleDecl.canAccessBuiltins := false;
               ModuleDecl.site := siteA;
               ModuleDecl.sources := [mkNodeID 0 1] |} ]] |}.

(** The item reached from [item] by taking, at each level, the entry of
    [subItems] at the given position. *)
Fixpoint descend (path : list nat) (item : Maybe TreeItem) : Maybe TreeItem :=
  match path, item with
  | [], _ => item
  | i :: rest, some t => descend rest (nth i (subItems t) undefined)
  | _ :: _, _ => undefined
  end.

Definition labelOf (item : Maybe TreeItem) : Maybe string :=
  match item with
  | some t => some (label t)
  | undefined => undefined
  | null => null
  end.

(** A snapshot whose translation unit lists itself among its
    declarations. *)
Definition cyclicAst : AST :=
  {| modulesIds := [mkNodeID 0 1];
     nodes :=
       [[ N_TranslationUnit
            {| TranslationUnit.decls := [mkNodeID 0 0];
               TranslationUnit.site := siteA |};
          N_ModuleDecl
            {| ModuleDecl.baseName := "M";
               ModuleDecl.canAccessBuiltins := false;
               ModuleDecl.site := siteA;
               ModuleDecl.sources := [mkNodeID 0 0] |} ]] |}.

(** A snapshot whose only root is a missing node. *)
Definition missingRootAst : AST :=
  {| modulesIds := [mkNodeID 0 0]; nodes := [[N_missing]] |}.

(** A snapshot with two roots: the module at offset 3, whose function at
    offset 0 lists the missing node at offset 1 as its parameter, and the
    missing node at offset 1 itself. *)
Definition badParameterAst : AST :=
  {| modulesIds := [mkNodeID 0 3; mkNodeID 0 1];
     nodes :=
       [[ N_FunctionDecl
            {| FunctionDecl.name := "f"; FunctionDecl.site := siteA;
               FunctionDecl.parameters := [mkNodeID 0 1] |};
          N_missing;
          N_TranslationUnit
            {| TranslationUnit.decls := [mkNodeID 0 0];
               TranslationUnit.site := siteA |};
          N_ModuleDecl
            {| ModuleDecl.baseName := "M";
               ModuleDecl.canAccessBuiltins := false;
               ModuleDecl.site := siteA;
               ModuleDecl.sources := [mkNodeID 0 2] |} ]] |}.

Definition sampleRank (id : NodeID) : nat :=
  match offset id with
  | 3%Z => 3
  | 2%Z => 2
  | 0%Z => 1
  | _ => 0
  end.

Definition quote : string := String (ascii_of_nat 34) EmptyString.

(** [{"base":b,"offset":o}] for one-digit [b] and [o]. *)
Definition idText (b o : string) : string :=
  "{" ++ quote ++ "base" ++ quote ++ ":" ++ b ++ ","
      ++ quote ++ "offset" ++ quote ++ ":" ++ o ++ "}".

Definition digit (z : Z) : string :=
  String (ascii_of_nat (48 + Z.to_nat z)) EmptyString.

(** The platform functions on the texts used below: the literal [null],
    the serialized identifiers with one-digit fields, and texts that are
    no JSON. *)
Definition sampleJSON : JSONApi :=
  {| parseAST text :=
       if text =? "null" then Ok null else Throw SyntaxError;
     parseNodeID text :=
       if text =? "null" then Ok null
       else if text =? idText "0" "0" then Ok (some (mkNodeID 0 0))
       else if text =? idText "0" "1" then Ok (some (mkNodeID 0 1))
       else if text =? idText "0" "2" then Ok (some (mkNodeID 0 2))
       else if text =? idText "0" "3" then Ok (some (mkNodeID 0 3))
       else if text =? idText "0" "9" then Ok (some (mkNodeID 0 9))
       else if text =? idText "7" "0" then Ok (some (mkNodeID 7 0))
       else Throw SyntaxError;
     stringify id := idText (digit (base id)) (digit (offset id)) |}.

(** The view after [updateAst(sampleAst)] with an empty tree. *)
Definition sampleWorld : World :=
  {| this_ast := some sampleAst; astTreeView_data := [];
     posted := []; console := [] |}.

(** The view after the text of [sampleAst] was entered, given a call
    stack that admits five nested render calls. *)
Definition loadedWorld : World :=
  snd (updateAst sampleJSON 5 (some sampleAst) initialWorld).

(* ================================================================== *)
(** * Further definitions *)
(* ================================================================== *)

(** What a listener run may change: nothing but the two logs, each by at
    most one entry at its end. *)
Definition OnlyAppends (w w' : World) : Prop :=
  this_ast w' = this_ast w /\
  astTreeView_data w' = astTreeView_data w /\
  (exists messages,
     posted w' = posted w ++ messages /\ length messages <= 1) /\
  (exists lines,
     console w' = console w ++ lines /\ length lines <= 1).

(** A chain of one or more references that projection follows. *)
Inductive RefersPath (ast : AST) : Role -> NodeID -> Role -> NodeID -> Prop :=
| path_one role id role' id' :
    Refers ast role id role' id' -> RefersPath ast role id role' id'
| path_more role id role1 id1 role' id' :
    Refers ast role id role1 id1 ->
    RefersPath ast role1 id1 role' id' ->
    RefersPath ast role id role' id'.

(** The render call that projection makes for a node reached in a given
    position returns, on a call stack that admits [stack] nested calls. *)
Definition Renders (JSON : JSONApi) (stack : nat) (ast : AST) (role : Role)
    (id : NodeID) : Prop :=
  match role with
  | AsModule => exists item, renderModuleDecl JSON stack ast id = Ok item
  | AsUnit =>
      exists item, renderTranslationUnitDecl JSON stack ast id = Ok item
  | AsDecl => exists entry, renderAnyDecl JSON stack ast id = Ok entry
  | AsParameter => exists item, renderParameterDecl JSON ast id = Ok item
  end.

(** The exceptions of projection that are no [TypeError]: the exhausted
    call stack and the kind mismatches of the three accessors that are
    applied without a look at the kind. *)
Definition ProjectionError (e : JsError) : Prop :=
  e = RangeError \/
  e = Error "Expected ModuleDecl" \/
  e = Error "Expected TranslationUnit" \/
  e = Error "Expected ParameterDecl".

(** The editor calls that the host makes for the messages of the webview,
    in the order in which they were posted. *)
Definition hostCalls (w : World) : list vscode.WindowCall :=
  map onDidReceiveMessage (posted w).

(** ** [getNonce] of the view provider *)

(** [s.charAt(i)]: the one-character string at index [i], the empty string
    when [i] is no index of [s]. *)
Definition charAt (s : string) (i : Z) : string :=
  if (i <? 0)%Z then EmptyString
  else match String.get (Z.to_nat i) s with
       | Some c => String c EmptyString
       | None => EmptyString
       end.

Definition possible : string :=
  "ABCDEFGHIJKLMNOPQRSTUVWXYZabcdefghijklmnopqrstuvwxyz0123456789".

(** The loop of [getNonce] from iteration [i] on, with [count] iterations
    left.  [draws i] is the value that
    [Math.floor(Math.random() * possible.length)] has in iteration [i]. *)
Fixpoint nonceLoop (draws : nat -> Z) (count i : nat) (text : string)
  : string :=
  match count with
  | O => text
  | S count' =>
      nonceLoop draws count' (S i) (text ++ charAt possible (draws i))
  end.

Definition getNonce (draws : nat -> Z) : string :=
  nonceLoop draws 32 0 EmptyString.

(** A letter or a digit of ASCII. *)
Definition alphanumeric (c : ascii) : bool :=
  let n := nat_of_ascii c in
  (Nat.leb 48 n && Nat.leb n 57) || (Nat.leb 65 n && Nat.leb n 90)
  || (Nat.leb 97 n && Nat.leb n 122).

(** ** [util/shared.ts] *)






(** The characters of a string. *)
Fixpoint chars (s : string) : list ascii :=
  match s with
  | EmptyString => []
  | String c rest => c :: chars rest
  end.

(** [pieces.join(sep)] for a one-character separator. *)
Fixpoint join (sep : ascii) (pieces : list string) : string :=
  match pieces with
  | [] => EmptyString
  | [piece] => piece
  | piece :: rest => piece ++ String sep (join sep rest)
  end.

(** ** [findHyloFiles] of the extension and of the debug adapter *)

(** What [fs.statSync] reports for an entry of a directory, and what
    [fs.readdirSync] reports for a directory: the names in the order in
    which it returns them, or the message of the error it throws. *)
Inductive FsEntry : Type :=
| RegularFile
| StatFails (message : string)
| Folder (contents : FsFolder)
with FsFolder : Type :=
| Unreadable (message : string)
| Listing (entries : list (string * FsEntry)).

(** [s.toLowerCase()] on the letters of ASCII; the comparison with
    [".hylo"] that uses it succeeds on no string with another letter. *)
Definition lowerChar (c : ascii) : ascii :=
  let n := nat_of_ascii c in
  if Nat.leb 65 n && Nat.leb n 90 then ascii_of_nat (n + 32) else c.

Fixpoint toLowerCase (s : string) : string :=
  match s with
  | EmptyString => EmptyString
  | String c rest => String (lowerChar c) (toLowerCase rest)
  end.

(** How a call of the extension's [findHyloFiles] ends: with the array it
    returns or with the error it throws. *)
Inductive Found : Type :=
| Returned (hyloFiles : list string)
| Failed (message : string).

(** The array that a call returns; none when it throws. *)
Definition foundFiles (result : Found) : list string :=
  match result with
  | Returned hyloFiles => hyloFiles
  | Failed _ => []
  end.

(** An [OutputEvent] of the debug adapter. *)
Record OutputEvent : Type := mkOutputEvent {
  output : string;
  category : string
}.

Definition newline : string := String (ascii_of_nat 10) EmptyString.

Section FindHyloFiles.

(** [path.join] and [path.extname] of the platform. *)
Variable path_join : string -> string -> string.
Variable path_extname : string -> string.

(** [path.extname(file).toLowerCase() === '.hylo'] *)
Definition isHyloFile (file : string) : bool :=
  toLowerCase (path_extname file) =? ".hylo".

Definition errorLine (message : string) : string :=
  "Error reading directory: " ++ message.

(** The [for] loop of the extension's [findHyloFiles] over the names that
    [readdirSync] returned, from the state [hyloFiles]; [recur] is the
    recursive call.  The second component holds the lines appended to the
    output channel during the loop.  A [Failed] result is an exception on
    its way to the [catch] block. *)
Definition scanFiles (recur : string -> FsFolder -> Found * list string)
    (directoryPath : string)
  : list (string * FsEntry) -> list string -> Found * list string :=
  fix loop (files : list (string * FsEntry)) (hyloFiles : list string)
    {struct files} : Found * list string :=
    match files with
    | [] => (Returned hyloFiles, [])
    | (file, entry) :: rest =>
        let filePath := path_join directoryPath file in
        match entry with
        | StatFails message => (Failed message, [])
        | Folder contents =>
            match recur filePath contents with
            | (Returned subDirFiles, lines) =>
                let (result, lines') := loop rest (hyloFiles ++ subDirFiles) in
                (result, lines ++ lines')
            | (Failed message, lines) => (Failed message, lines)
            end
        | RegularFile =>
            if isHyloFile file then loop rest (hyloFiles ++ [filePath])
            else loop rest hyloFiles
        end
    end.

(** The extension's [findHyloFiles]: the [catch] block appends one line
    to the output channel and throws the error again. *)
Fixpoint findHyloFiles (directoryPath : string) (folder : FsFolder)
  {struct folder} : Found * list string :=
  let attempt :=
    match folder with
    | Unreadable message => (Failed message, [])
    | Listing entries =>
        scanFiles (fun filePath contents => findHyloFiles filePath contents)
          directoryPath entries []
    end in
  match attempt with
  | (Returned hyloFiles, lines) => (Returned hyloFiles, lines)
  | (Failed message, lines) => (Failed message, lines ++ [errorLine message])
  end.

(** The event that the [catch] block of the debug adapter sends. *)
Definition errorEvent (message : string) : OutputEvent :=
  mkOutputEvent (errorLine message ++ newline) "stderr".

(** The loop of the debug adapter's [findHyloFiles] inside its [try]
    block.  The result holds the array [hyloFiles] at the time control
    leaves the block, the message of the exception when one leaves it, and
    the events that the recursive calls have sent.  [statSync] may throw,
    and so may the recursive call that is awaited. *)
Definition scanFilesDebug
    (recur : string -> FsFolder -> Found * list OutputEvent)
    (directoryPath : string)
  : list (string * FsEntry) -> list string ->
    list string * option string * list OutputEvent :=
  fix loop (files : list (string * FsEntry)) (hyloFiles : list string)
    {struct files} : list string * option string * list OutputEvent :=
    match files with
    | [] => (hyloFiles, None, [])
    | (file, entry) :: rest =>
        let filePath := path_join directoryPath file in
        match entry with
        | StatFails message => (hyloFiles, Some message, [])
        | Folder contents =>
            match recur filePath contents with
            | (Returned subDirFiles, events) =>
                match loop rest (hyloFiles ++ subDirFiles) with
                | (result, thrown, events') =>
                    (result, thrown, events ++ events')
                end
            | (Failed message, events) => (hyloFiles, Some message, events)
            end
        | RegularFile =>
            if isHyloFile file then loop rest (hyloFiles ++ [filePath])
            else loop rest hyloFiles
        end
    end.

(** The debug adapter's [findHyloFiles], with the events it sends: the
    [catch] block sends one event and does not throw the error again, and
    the [return] after the [try] statement returns [hyloFiles] as it is
    then. *)
Fixpoint findHyloFilesDebug (directoryPath : string) (folder : FsFolder)
  {struct folder} : Found * list OutputEvent :=
  let attempt :=
    match folder with
    | Unreadable message => ([], Some message, [])
    | Listing entries =>
        scanFilesDebug
          (fun filePath contents => findHyloFilesDebug filePath contents)
          directoryPath entries []
    end in
  match attempt with
  | (hyloFiles, None, events) => (Returned hyloFiles, events)
  | (hyloFiles, Some message, events) =>
      (Returned hyloFiles, events ++ [errorEvent message])
  end.

(** [path] is the path that the search builds for a regular file below
    [directoryPath] whose extension is [.hylo] in any case of letters. *)
Inductive HyloFileAt : string -> FsFolder -> string -> Prop :=
| hylo_file_here directoryPath entries file :
    In (file, RegularFile) entries ->
    isHyloFile file = true ->
    HyloFileAt directoryPath (Listing entries) (path_join directoryPath file)
| hylo_file_below directoryPath entries name contents path :
    In (name, Folder contents) entries ->
    HyloFileAt (path_join directoryPath name) contents path ->
    HyloFileAt directoryPath (Listing entries) path.

(** The Hylo files of a listing: those among its entries and those of its
    subdirectories. *)
Definition InListing (directoryPath : string)
    (entries : list (string * FsEntry)) (path : string) : Prop :=
  (exists file,
     In (file, RegularFile) entries /\
     isHyloFile file = true /\
     path = path_join directoryPath file) \/
  (exists name contents,
     In (name, Folder contents) entries /\
     HyloFileAt (path_join directoryPath name) contents path).

End FindHyloFiles.

(** No call of [readdirSync] or [statSync] below the directory throws. *)
Inductive Healthy : FsFolder -> Prop :=
| healthy_listing entries :
    (forall name entry, In (name, entry) entries -> HealthyEntry entry) ->
    Healthy (Listing entries)
with HealthyEntry : FsEntry -> Prop :=
| healthy_file : HealthyEntry RegularFile
| healthy_folder contents : Healthy contents -> HealthyEntry (Folder contents).

(** The call that throws first below a directory, in the order in which
    the search makes the calls: [message] is the message of its error and
    [depth] the number of directories from the one searched down to the
    one whose listing, or whose entry, cannot be read. *)
Inductive FirstFailure : FsFolder -> string -> nat -> Prop :=
| fails_readdir message : FirstFailure (Unreadable message) message 1
| fails_stat before name message after :
    (forall n e, In (n, e) before -> HealthyEntry e) ->
    FirstFailure (Listing (before ++ (name, StatFails message) :: after))
      message 1
| fails_below before name contents after message depth :
    (forall n e, In (n, e) before -> HealthyEntry e) ->
    FirstFailure contents message depth ->
    FirstFailure (Listing (before ++ (name, Folder contents) :: after))
      message (S depth).

(** [path.join] and [path.extname] on the names of the example below:
    one directory and one name without a separator; a name with a
    non-empty stem. *)
Definition sampleJoin (directoryPath name : string) : string :=
  directoryPath ++ "/" ++ name.

Definition sampleExtname (name : string) : string :=
  match split "."%char name with
  | [] | [_] => EmptyString
  | pieces =>
      match pop pieces with
      | some extension => "." ++ extension
      | undefined | null => EmptyString
      end
  end.

(** A directory with three Hylo files, a text file and a subdirectory
    that holds one Hylo file and a directory that cannot be read. *)
Definition sampleFolder : FsFolder :=
  Listing
    [ ("a.hylo", RegularFile);
      ("B.HYLO", RegularFile);
      ("notes.txt", RegularFile);
      ("sub",
       Folder
         (Listing
            [ ("c.Hylo", RegularFile);
              ("locked", Folder (Unreadable "EACCES")) ]));
      ("z.hylo", RegularFile) ].

(** A directory in which every call succeeds. *)
Definition quietFolder : FsFolder :=
  Listing
    [ ("a.hylo", RegularFile);
      ("sub", Folder (Listing [ ("c.Hylo", RegularFile) ]));
      ("notes.txt", RegularFile) ].

(** The item [t] is shown in the tree with the top-level entries
    [entries], at any depth. *)
Inductive Occurs (t : TreeItem) : list (Maybe TreeItem) -> Prop :=
| occurs_here entries : In (some t) entries -> Occurs t entries
| occurs_below parent entries :
    In (some parent) entries -> Occurs t (subItems parent) ->
    Occurs t entries.

(** An item as projection of [ast] makes them: the group "parameters",
    whose value is the text [n] and which offers no action, or an item
    whose value is the serialized identifier of a node of [ast] and which
    offers no action or, if the node has a site, the one action
    "highlight declaration". *)
Definition Genuine (JSON : JSONApi) (ast : AST) (t : TreeItem) : Prop :=
  (value t = "n" /\ actions t = None) \/
  exists id n,
    value t = stringify JSON id /\
    node ast id = Ok (some n) /\
    (actions t = None \/
     (actions t = Some [highlightAction] /\
      exists range, siteOf (some n) = Ok (some range))).

(** The item that projection of [scenarioAst] makes for the function
    [main], as [sampleJSON] serializes its identifier. *)
Definition scenarioFunctionItem : TreeItem :=
  {| icons := uniformIcon "symbol-function";
     label := "main";
     value := idText "0" "0";
     tooltip := None;
     subItems :=
       [some {| icons := uniformIcon "symbol-property";
                label := "parameters";
                value := "n";
                tooltip := None;
                subItems := [];
                decorations := None;
                actions := None |}];
     decorations :=
       Some [kindDecoration "FunctionDecl"
               "var(--vscode-textLink-foreground)"];
     actions := Some [highlightAction] |}.

(** Two sites beyond the safe integers, in lines 9007199254740996 and
    9007199254740998. *)
Definition farSite : SourceRange :=
  {| start := pos 9007199254740996 1; end_ := pos 9007199254740996 2;
     fileUrl := "file:///a.src" |}.

Definition farSite' : SourceRange :=
  {| start := pos 9007199254740998 1; end_ := pos 9007199254740998 2;
     fileUrl := "file:///a.src" |}.

(* ================================================================== *)
(** * The node store *)
(* ================================================================== *)

Section NodeStore.

Context {A : Type}.

Lemma index_inside (arr : list A) (i : Z) :
  (0 <= i < Z.of_nat (length arr))%Z ->
  exists a, index arr i = some a /\ nth_error arr (Z.to_nat i) = Some a.
Proof.
  intros [Hlo Hhi]. unfold index.
  destruct (Z.ltb_spec i 0) as [Hneg | _]; [lia |].
  destruct (nth_error arr (Z.to_nat i)) as [a |] eqn:Hnth.
  - now exists a.
  - apply nth_error_None in Hnth. lia.
Qed.

Lemma index_outside (arr : list A) (i : Z) :
  ~ (0 <= i < Z.of_nat (length arr))%Z -> index arr i = undefined.
Proof.
  intros Hout. unfold index.
  destruct (Z.ltb_spec i 0) as [Hneg | Hpos]; [reflexivity |].
  destruct (nth_error arr (Z.to_nat i)) as [a |] eqn:Hnth; [| reflexivity].
  exfalso. apply Hout. split; [assumption |].
  assert (Z.to_nat i < length arr)%nat
    by (apply nth_error_Some; congruence).
  lia.
Qed.

Lemma index_some (arr : list A) (i : Z) (a : A) :
  index arr i = some a ->
  (0 <= i < Z.of_nat (length arr))%Z /\ nth_error arr (Z.to_nat i) = Some a.
Proof.
  unfold index. intros H.
  destruct (Z.ltb_spec i 0) as [Hneg | Hpos]; [discriminate |].
  destruct (nth_error arr (Z.to_nat i)) as [a' |] eqn:Hnth; [| discriminate].
  injection H as ->. split; [| reflexivity].
  assert (Z.to_nat i < length arr)%nat
    by (apply nth_error_Some; congruence).
  lia.
Qed.

Lemma index_not_null (arr : list A) (i : Z) : index arr i <> null.
Proof.
  unfold index. destruct (i <? 0)%Z; [discriminate |].
  destruct (nth_error arr (Z.to_nat i)); discriminate.
Qed.

End NodeStore.

Lemma node_resolves (ast : AST) (id : NodeID) (n : ASTNode) :
  node ast id = Ok (some n) -> InBounds ast id.
Proof.
  unfold node, InBounds, GroupInBounds. intros H.
  destruct (index (nodes ast) (base id)) as [| | group] eqn:Hgroup;
    simpl in H; try discriminate.
  apply index_some in Hgroup as [Hbase Hnth].
  injection H as H. apply index_some in H as [Hoff _].
  split; [assumption |].
  now rewrite (nth_error_nth _ _ [] Hnth).
Qed.

Lemma node_in_bounds (ast : AST) (id : NodeID) :
  InBounds ast id -> exists n, node ast id = Ok (some n).
Proof.
  unfold node, InBounds, GroupInBounds. intros [Hbase Hoff].
  destruct (index_inside (nodes ast) Hbase) as (group & -> & Hnth).
  rewrite (nth_error_nth _ _ [] Hnth) in Hoff.
  destruct (index_inside group Hoff) as (n & Hn & _).
  exists n. simpl. now rewrite Hn.
Qed.

Lemma node_group_outside (ast : AST) (id : NodeID) :
  ~ GroupInBounds ast id -> node ast id = Throw TypeError.
Proof.
  unfold node, GroupInBounds. intros Hout.
  now rewrite (index_outside _ Hout).
Qed.

Lemma node_offset_outside (ast : AST) (id : NodeID) :
  GroupInBounds ast id -> ~ InBounds ast id -> node ast id = Ok undefined.
Proof.
  unfold node, InBounds. intros Hbase Hout.
  destruct (index_inside (nodes ast) Hbase) as (group & -> & Hnth).
  simpl. f_equal. apply index_outside.
  intros Hoff. apply Hout. split; [assumption |].
  now rewrite (nth_error_nth _ _ [] Hnth).
Qed.

(** What [node] does for an identifier that addresses no node; used by the
    statements about stale references. *)
Lemma node_unresolvable (ast : AST) (id : NodeID) :
  ~ InBounds ast id ->
  node ast id = Throw TypeError \/ node ast id = Ok undefined.
Proof.
  intros Hout.
  destruct (Z_le_dec 0 (base id)) as [Hlo |];
    [destruct (Z_lt_dec (base id) (Z.of_nat (length (nodes ast)))) as [Hhi |] |].
  - right. apply node_offset_outside; [split |]; assumption.
  - left. apply node_group_outside. unfold GroupInBounds. lia.
  - left. apply node_group_outside. unfold GroupInBounds. lia.
Qed.

(** C1, as the code has it: for an identifier that is out of bounds,
    [node] never returns a node, so an out-of-range lookup is never taken
    for a [missing] node; but no distinct out-of-range error exists.  When
    the group is out of bounds the lookup throws the engine's generic
    [TypeError]; when the group is in bounds and the offset is not, the
    lookup does not fail at all and returns [undefined]. *)
Theorem node_out_of_bounds (ast : AST) (id : NodeID) :
  ~ InBounds ast id ->
  (forall n, node ast id <> Ok (some n)) /\
  (~ GroupInBounds ast id -> node ast id = Throw TypeError) /\
  (GroupInBounds ast id -> node ast id = Ok undefined).
Proof.
  intros Hout. repeat split.
  - intros n Hn. apply Hout. exact (node_resolves _ _ Hn).
  - apply node_group_outside.
  - intros Hbase. now apply node_offset_outside.
Qed.

Lemma node_out_of_bounds_witness :
  ~ InBounds sampleAst (mkNodeID 0 9) /\
  (forall n, node sampleAst (mkNodeID 0 9) <> Ok (some n)) /\
  (~ GroupInBounds sampleAst (mkNodeID 0 9) ->
   node sampleAst (mkNodeID 0 9) = Throw TypeError) /\
  (GroupInBounds sampleAst (mkNodeID 0 9) ->
   node sampleAst (mkNodeID 0 9) = Ok undefined).
Proof.
  assert (Hout : ~ InBounds sampleAst (mkNodeID 0 9))
    by (unfold InBounds; simpl; lia).
  split; [exact Hout | exact (node_out_of_bounds Hout)].
Defined.

(** C1 fails as stated: the offset 9 is outside the only group of
    [sampleAst], and the lookup returns [undefined] instead of failing. *)
Lemma node_offset_out_of_range_returns :
  ~ InBounds sampleAst (mkNodeID 0 9) /\
  node sampleAst (mkNodeID 0 9) = Ok undefined /\
  (forall e, node sampleAst (mkNodeID 0 9) <> Throw e).
Proof.
  split; [unfold InBounds; simpl; lia |].
  split; [reflexivity | discriminate].
Qed.

(* ================================================================== *)
(** * The variant accessors and [siteOf] *)
(* ================================================================== *)

(** The key of a node outside the union differs from the six known keys. *)
Lemma fresh_kind (kind : string) :
  isKnownKind kind = false ->
  (kind =? "missing") = false /\
  (kind =? "FunctionDecl") = false /\
  (kind =? "TranslationUnit") = false /\
  (kind =? "ModuleDecl") = false /\
  (kind =? "ProductTypeDecl") = false /\
  (kind =? "ParameterDecl") = false.
Proof.
  unfold isKnownKind, knownKinds. cbn [existsb]. intros H.
  repeat match type of H with
         | (_ || _)%bool = false => apply orb_false_elim in H as [? H]
         end.
  repeat split; assumption.
Qed.

Ltac fresh_keys H :=
  let Hk := fresh "Hkeys" in
  pose proof (fresh_kind _ H) as Hk;
  destruct Hk as (?Hmissing & ?Hfunction & ?Hunit & ?Hmodule & ?Hproduct
                  & ?Hparameter).

(** [asK(node)] succeeds exactly when [isK(node)] holds, and fails with
    the error [Expected K] on every other node. *)
Lemma asX_isX (K : Type) `{Variant K} (n : ASTNode) :
  (forall m, payload m <> None <-> ownKey m = variantKey) ->
  (isX (some n) variantKey = Ok true /\ exists d, asX K (some n) = Ok d) \/
  (isX (some n) variantKey = Ok false /\
   asX K (some n) = Throw (Error ("Expected " ++ variantKey))).
Proof.
  intros Hpayload. unfold isX, asX, payloadOf, hasKey. simpl.
  destruct (String.eqb_spec variantKey (ownKey n)) as [Hkey | Hkey].
  - left. split; [reflexivity |].
    destruct (payload n) as [d |] eqn:Hd; [now exists d |].
    exfalso. symmetry in Hkey. apply Hpayload in Hkey. contradiction.
  - right. split; reflexivity.
Qed.

(** For each of the five payload types, a node has the payload exactly
    when its key is the key of the type. *)
Lemma payload_has_key (n : ASTNode) :
  (@payload FunctionDecl.t _ n <> None <-> ownKey n = "FunctionDecl") /\
  (@payload ModuleDecl.t _ n <> None <-> ownKey n = "ModuleDecl") /\
  (@payload TranslationUnit.t _ n <> None <-> ownKey n = "TranslationUnit") /\
  (@payload ProductTypeDecl.t _ n <> None <-> ownKey n = "ProductTypeDecl") /\
  (@payload ParameterDecl.t _ n <> None <-> ownKey n = "ParameterDecl").
Proof.
  destruct n as [| d | d | d | d | d | kind Hfresh]; cbn;
    try (repeat split; solve [discriminate | congruence]).
  fresh_keys Hfresh.
  repeat split; try congruence; intros ->; discriminate.
Qed.

Lemma asModuleDecl_mismatch (n : ASTNode) :
  (forall d, n <> N_ModuleDecl d) ->
  asModuleDecl (some n) = Throw (Error "Expected ModuleDecl").
Proof.
  intros Hkind.
  destruct n as [| d | d | d | d | d | kind Hfresh]; try reflexivity.
  - now contradiction (Hkind d).
  - fresh_keys Hfresh. unfold asModuleDecl, asX, hasKey. cbn -[String.eqb].
    rewrite String.eqb_sym. now rewrite Hmodule.
Qed.

Lemma asTranslationUnit_mismatch (n : ASTNode) :
  (forall d, n <> N_TranslationUnit d) ->
  asTranslationUnit (some n) = Throw (Error "Expected TranslationUnit").
Proof.
  intros Hkind.
  destruct n as [| d | d | d | d | d | kind Hfresh]; try reflexivity.
  - now contradiction (Hkind d).
  - fresh_keys Hfresh. unfold asTranslationUnit, asX, hasKey. cbn -[String.eqb].
    rewrite String.eqb_sym. now rewrite Hunit.
Qed.

Lemma isTranslationUnit_other (n : ASTNode) :
  (forall d, n <> N_TranslationUnit d) ->
  isTranslationUnit (some n) = Ok false.
Proof.
  intros Hkind.
  destruct n as [| d | d | d | d | d | kind Hfresh]; try reflexivity.
  - now contradiction (Hkind d).
  - fresh_keys Hfresh. unfold isTranslationUnit, isX, hasKey. cbn -[String.eqb].
    rewrite String.eqb_sym. now rewrite Hunit.
Qed.

Lemma siteOf_other (kind : string) (Hfresh : isKnownKind kind = false) :
  siteOf (some (N_other kind Hfresh)) = Ok undefined.
Proof.
  fresh_keys Hfresh. unfold siteOf. cbn -[String.eqb].
  now rewrite Hfunction, Hmodule, Hunit, Hproduct, Hparameter, Hmissing.
Qed.

(** [siteOf] does not throw on a node. *)
Lemma siteOf_total (n : ASTNode) : exists r, siteOf (some n) = Ok r.
Proof.
  destruct n as [| d | d | d | d | d | kind Hfresh];
    try (eexists; reflexivity).
  exists undefined. apply siteOf_other.
Qed.

(** C6: on a node of one of the six variants, [siteOf] returns [null]
    exactly when the kind is [ModuleDecl] or [missing], and on a
    [FunctionDecl], [TranslationUnit], [ProductTypeDecl] or [ParameterDecl]
    it returns the [site] of that node. *)
Theorem siteOf_well_formed (n : ASTNode) :
  WellFormedNode n ->
  exists r,
    siteOf (some n) = Ok r /\
    (r = null <-> ownKey n = "ModuleDecl" \/ ownKey n = "missing") /\
    r <> undefined /\
    (forall d, n = N_FunctionDecl d -> r = some (FunctionDecl.site d)) /\
    (forall d, n = N_TranslationUnit d -> r = some (TranslationUnit.site d)) /\
    (forall d, n = N_ProductTypeDecl d -> r = some (ProductTypeDecl.site d)) /\
    (forall d, n = N_ParameterDecl d -> r = some (ParameterDecl.site d)).
Proof.
  unfold WellFormedNode. intros Hwf.
  destruct n as [| d | d | d | d | d | kind Hfresh]; simpl in Hwf;
    try congruence;
    (eexists; split; [reflexivity |]);
    (split; [split; [intros Hr | intros [Hk | Hk]];
             solve [discriminate | reflexivity | now right | now left] |]);
    (split; [discriminate |]);
    repeat split; intros d' Hd'; solve [discriminate | now injection Hd' as ->].
Qed.

Lemma siteOf_well_formed_witness :
  WellFormedNode (N_ParameterDecl
                    {| ParameterDecl.site := siteP;
                       ParameterDecl.label := None;
                       ParameterDecl.identifier := "argc" |}) /\
  exists r,
    siteOf (some (N_ParameterDecl
                    {| ParameterDecl.site := siteP;
                       ParameterDecl.label := None;
                       ParameterDecl.identifier := "argc" |})) = Ok r /\
    r = some siteP.
Proof.
  split; [reflexivity |].
  destruct (siteOf_well_formed
              (n := N_ParameterDecl
                      {| ParameterDecl.site := siteP;
                         ParameterDecl.label := None;
                         ParameterDecl.identifier := "argc" |})
              eq_refl)
    as (r & Hr & _ & _ & _ & _ & _ & Hparameter).
  exists r. split; [exact Hr | exact (Hparameter _ eq_refl)].
Defined.

(* ================================================================== *)
(** * The listeners of the webview *)
(* ================================================================== *)

Ltac run_listener :=
  unfold andThen, tryCatch, lift, ret, get_ast, postMessage, console_log,
    set_data, set_ast; cbn [fst snd bind deref].

Section Listeners.

Variable JSON : JSONApi.
Variable stackDepth : nat.

(** The [input] listener on a text that [JSON.parse] rejects. *)
Lemma onInput_rejected (text : string) (e : JsError) (w : World) :
  parseAST JSON text = Throw e ->
  onInput JSON stackDepth text w
  = (Ok tt,
     {| this_ast := this_ast w; astTreeView_data := [];
        posted := posted w; console := console w |}).
Proof.
  intros Hparse. unfold onInput. run_listener. now rewrite Hparse.
Qed.

(** The [input] listener on the text of the literal [null]. *)
Lemma onInput_null (text : string) (w : World) :
  parseAST JSON text = Ok null ->
  onInput JSON stackDepth text w
  = (Throw TypeError,
     {| this_ast := null; astTreeView_data := astTreeView_data w;
        posted := posted w; console := console w |}).
Proof.
  intros Hparse. unfold onInput, updateAst. run_listener. now rewrite Hparse.
Qed.

(** The [vsc-select] listener on a value that is no serialized
    identifier: one line on the console and nothing else. *)
Lemma onSelect_rejected (value : string) (w : World) :
  (exists e, parseNodeID JSON value = Throw e) \/
  parseNodeID JSON value = Ok null ->
  onSelect JSON value w
  = (Ok tt,
     {| this_ast := this_ast w; astTreeView_data := astTreeView_data w;
        posted := posted w;
        console := console w ++ [["error parsing nodeId "; value]] |}).
Proof.
  intros [[e Hparse] | Hparse]; unfold onSelect; run_listener;
    now rewrite Hparse.
Qed.

Lemma onSelect_resolved (value : string) (w : World) (ast : AST)
    (id : NodeID) (n : Maybe ASTNode) :
  this_ast w = some ast ->
  parseNodeID JSON value = Ok (some id) ->
  node ast id = Ok n ->
  onSelect JSON value w
  = match isTranslationUnit n with
    | Ok true =>
        match payloadOf TranslationUnit.t n with
        | Ok d =>
            postMessage
              (OpenFileMessage (fileUrl (TranslationUnit.site d))) w
        | Throw e => (Throw e, w)
        end
    | Ok false => (Ok tt, w)
    | Throw e => (Throw e, w)
    end.
Proof.
  intros Hast Hparse Hnode. destruct w; cbn in Hast; subst.
  unfold onSelect. run_listener.
  rewrite Hparse. cbn [bind deref this_ast]. rewrite Hnode.
  destruct (isTranslationUnit n) as [[|] | e]; reflexivity.
Qed.

Lemma onSelect_stale (value : string) (w : World) (ast : AST) (id : NodeID) :
  this_ast w = some ast ->
  parseNodeID JSON value = Ok (some id) ->
  ~ InBounds ast id ->
  onSelect JSON value w = (Throw TypeError, w).
Proof.
  intros Hast Hparse Hout.
  destruct (node_unresolvable Hout) as [Hnode | Hnode].
  - destruct w; cbn in Hast; subst. unfold onSelect. run_listener.
    rewrite Hparse. cbn [bind deref this_ast]. now rewrite Hnode.
  - now rewrite (onSelect_resolved _ _ Hast Hparse Hnode).
Qed.

Lemma openSourceFile_stale (value : string) (w : World) (ast : AST)
    (id : NodeID) :
  this_ast w = some ast ->
  parseNodeID JSON value = Ok (some id) ->
  ~ InBounds ast id ->
  onRunAction JSON "openSourceFile" value w = (Throw TypeError, w).
Proof.
  intros Hast Hparse Hout. destruct w; cbn in Hast; subst.
  unfold onRunAction. cbn [String.eqb Ascii.eqb Bool.eqb].
  run_listener. rewrite Hparse. cbn [bind deref this_ast].
  destruct (node_unresolvable Hout) as [-> | ->]; reflexivity.
Qed.

Lemma highlight_run (value : string) (w : World) (ast : AST) (id : NodeID)
    (n : Maybe ASTNode) :
  this_ast w = some ast ->
  parseNodeID JSON value = Ok (some id) ->
  node ast id = Ok n ->
  onRunAction JSON "highlightFullDeclaration" value w
  = let logged :=
      {| this_ast := this_ast w; astTreeView_data := astTreeView_data w;
         posted := posted w;
         console := console w ++ [["highlightFullDeclaration"]] |} in
    match siteOf n with
    | Ok (some range) =>
        postMessage (HighlightFullDeclarationMessage range) logged
    | Ok _ => (Ok tt, logged)
    | Throw e => (Throw e, logged)
    end.
Proof.
  intros Hast Hparse Hnode. destruct w; cbn in Hast; subst.
  unfold onRunAction. cbn [String.eqb Ascii.eqb Bool.eqb]. run_listener.
  rewrite Hparse. cbn [bind deref this_ast]. rewrite Hnode.
  destruct (siteOf n) as [[| | range] | e]; reflexivity.
Qed.

Lemma highlight_stale (value : string) (w : World) (ast : AST) (id : NodeID) :
  this_ast w = some ast ->
  parseNodeID JSON value = Ok (some id) ->
  ~ InBounds ast id ->
  onRunAction JSON "highlightFullDeclaration" value w
  = (Throw TypeError,
     {| this_ast := this_ast w; astTreeView_data := astTreeView_data w;
        posted := posted w;
        console := console w ++ [["highlightFullDeclaration"]] |}).
Proof.
  intros Hast Hparse Hout.
  destruct (node_unresolvable Hout) as [Hnode | Hnode].
  - destruct w; cbn in Hast; subst.
    unfold onRunAction. cbn [String.eqb Ascii.eqb Bool.eqb]. run_listener.
    rewrite Hparse. cbn [bind deref this_ast]. now rewrite Hnode.
  - now rewrite (highlight_run _ _ Hast Hparse Hnode).
Qed.

End Listeners.

(** C3, as the code has it: for every input text that [JSON.parse]
    rejects, the [input] listener returns normally and leaves the empty
    sequence as the tree.  (A text that parses is handed to [updateAst]
    without any check of its shape.) *)
Theorem input_not_json_gives_empty_tree (JSON : JSONApi) (stackDepth : nat)
    (text : string) (w : World) :
  (exists e, parseAST JSON text = Throw e) ->
  exists w',
    onInput JSON stackDepth text w = (Ok tt, w') /\
    astTreeView_data w' = [] /\
    posted w' = posted w.
Proof.
  intros [e Hparse]. rewrite (onInput_rejected JSON stackDepth text w Hparse).
  eexists. split; [reflexivity |]. split; reflexivity.
Qed.

Lemma input_not_json_gives_empty_tree_witness :
  (exists e, parseAST sampleJSON "{not json" = Throw e) /\
  exists w',
    onInput sampleJSON 5 "{not json" loadedWorld = (Ok tt, w') /\
    astTreeView_data w' = [] /\
    posted w' = posted loadedWorld.
Proof.
  assert (Hparse : exists e, parseAST sampleJSON "{not json" = Throw e)
    by (exists SyntaxError; reflexivity).
  split; [exact Hparse |].
  exact (@input_not_json_gives_empty_tree sampleJSON 5 "{not json"
           loadedWorld Hparse).
Defined.

(** C3 fails as stated: the text [null] is valid JSON that does not have
    the shape of an AST; on it the [input] listener throws a [TypeError]
    and the tree shown before stays in place. *)
Lemma input_null_throws :
  parseAST sampleJSON "null" = Ok null /\
  fst (onInput sampleJSON 5 "null" loadedWorld) = Throw TypeError /\
  astTreeView_data (snd (onInput sampleJSON 5 "null" loadedWorld)) <> [].
Proof.
  split; [reflexivity |]. split; [reflexivity |].
  rewrite (onInput_null sampleJSON 5 "null" loadedWorld eq_refl).
  cbn [snd astTreeView_data]. vm_compute. discriminate.
Qed.

(** C5, as the code has it: for a selection or action event whose
    identifier is out of bounds in the current snapshot, the listener
    emits no message, and it does not end silently: it throws a
    [TypeError]. *)
Theorem stale_reference_throws (JSON : JSONApi) (w : World) (value : string)
    (ast : AST) (id : NodeID) :
  this_ast w = some ast ->
  parseNodeID JSON value = Ok (some id) ->
  ~ InBounds ast id ->
  onSelect JSON value w = (Throw TypeError, w) /\
  onRunAction JSON "openSourceFile" value w = (Throw TypeError, w) /\
  fst (onRunAction JSON "highlightFullDeclaration" value w) = Throw TypeError /\
  posted (snd (onRunAction JSON "highlightFullDeclaration" value w)) = posted w.
Proof.
  intros Hast Hparse Hout.
  split; [exact (onSelect_stale JSON value w Hast Hparse Hout) |].
  split; [exact (openSourceFile_stale JSON value w Hast Hparse Hout) |].
  rewrite (highlight_stale JSON value w Hast Hparse Hout). split; reflexivity.
Qed.

Lemma stale_reference_throws_witness :
  ~ InBounds sampleAst (mkNodeID 7 0) /\
  onSelect sampleJSON (idText "7" "0") sampleWorld
  = (Throw TypeError, sampleWorld).
Proof.
  assert (Hout : ~ InBounds sampleAst (mkNodeID 7 0))
    by (unfold InBounds, GroupInBounds; simpl; lia).
  split; [exact Hout |].
  exact (proj1 (@stale_reference_throws sampleJSON sampleWorld
                  (idText "7" "0") sampleAst (mkNodeID 7 0)
                  eq_refl eq_refl Hout)).
Defined.

(** C5 fails as stated: the identifier with offset 9 addresses no node of
    [sampleAst], and the [vsc-select] listener throws on it. *)
Lemma select_stale_offset_throws :
  parseNodeID sampleJSON (idText "0" "9") = Ok (some (mkNodeID 0 9)) /\
  ~ InBounds sampleAst (mkNodeID 0 9) /\
  fst (onSelect sampleJSON (idText "0" "9") sampleWorld) = Throw TypeError.
Proof.
  split; [reflexivity |].
  split; [unfold InBounds; simpl; lia | reflexivity].
Qed.

(** C7: when the "highlight declaration" action runs on an entry whose
    identifier resolves to a node, the listener returns normally and emits
    one [HighlightFullDeclaration] message carrying [siteOf(node)] when
    that is present, and no message at all when it is absent. *)
Theorem highlight_action_posts_site (JSON : JSONApi) (w : World)
    (value : string) (ast : AST) (id : NodeID) (n : ASTNode) :
  this_ast w = some ast ->
  parseNodeID JSON value = Ok (some id) ->
  node ast id = Ok (some n) ->
  exists site,
    siteOf (some n) = Ok site /\
    fst (onRunAction JSON "highlightFullDeclaration" value w) = Ok tt /\
    posted (snd (onRunAction JSON "highlightFullDeclaration" value w))
    = posted w ++ match site with
                  | some range => [HighlightFullDeclarationMessage range]
                  | undefined | null => []
                  end.
Proof.
  intros Hast Hparse Hnode.
  rewrite (highlight_run JSON value w Hast Hparse Hnode).
  destruct (siteOf_total n) as [site Hsite]. exists site.
  split; [exact Hsite |]. rewrite Hsite. cbv zeta.
  destruct site as [| | range]; cbn [fst snd posted postMessage];
    split; auto using app_nil_r.
Qed.

Lemma highlight_action_posts_site_witness :
  exists site,
    siteOf (some (N_ParameterDecl
                    {| ParameterDecl.site := siteP;
                       ParameterDecl.label := None;
                       ParameterDecl.identifier := "argc" |})) = Ok site /\
    fst (onRunAction sampleJSON "highlightFullDeclaration" (idText "0" "1")
           sampleWorld) = Ok tt /\
    posted (snd (onRunAction sampleJSON "highlightFullDeclaration"
                   (idText "0" "1") sampleWorld))
    = posted sampleWorld ++ match site with
                            | some range =>
                                [HighlightFullDeclarationMessage range]
                            | undefined | null => []
                            end.
Proof.
  exact (@highlight_action_posts_site sampleJSON sampleWorld
           (idText "0" "1") sampleAst (mkNodeID 0 1) _
           eq_refl eq_refl eq_refl).
Defined.

(** C8: when an entry whose identifier resolves to a node is selected, the
    listener returns normally; it emits an [OpenSourceFile] message with
    the [fileUrl] of the node's site when the node is a [TranslationUnit],
    and no message for a node of any other kind. *)
Theorem select_opens_translation_unit (JSON : JSONApi) (w : World)
    (value : string) (ast : AST) (id : NodeID) (n : ASTNode) :
  this_ast w = some ast ->
  parseNodeID JSON value = Ok (some id) ->
  node ast id = Ok (some n) ->
  fst (onSelect JSON value w) = Ok tt /\
  posted (snd (onSelect JSON value w))
  = posted w ++ match n with
                | N_TranslationUnit d =>
                    [OpenFileMessage (fileUrl (TranslationUnit.site d))]
                | _ => []
                end.
Proof.
  intros Hast Hparse Hnode.
  rewrite (onSelect_resolved JSON value w Hast Hparse Hnode).
  destruct n as [| d | d | d | d | d | kind Hfresh];
    try solve [cbn; split; auto using app_nil_r].
  rewrite isTranslationUnit_other by discriminate.
  cbn [fst snd]. split; auto using app_nil_r.
Qed.

Lemma select_opens_translation_unit_witness :
  fst (onSelect sampleJSON (idText "0" "2") sampleWorld) = Ok tt /\
  posted (snd (onSelect sampleJSON (idText "0" "2") sampleWorld))
  = [OpenFileMessage "file:///a.src"].
Proof.
  exact (@select_opens_translation_unit sampleJSON sampleWorld
           (idText "0" "2") sampleAst (mkNodeID 0 2) _
           eq_refl eq_refl eq_refl).
Defined.

(* ================================================================== *)
(** * Subtraction of numbers *)
(* ================================================================== *)

Section Iteration.

Context {A : Type} (f : A -> A).

Lemma iter_pos_nat (p : positive) (x : A) :
  iter_pos f p x = Nat.iter (Pos.to_nat p) f x.
Proof.
  revert x. induction p as [p IH | p IH |]; intros x; cbn [iter_pos].
  - rewrite !IH, Pos2Nat.inj_xI, <- Nat.iter_add, <- Nat.iter_succ_r.
    f_equal. lia.
  - rewrite !IH, Pos2Nat.inj_xO, <- Nat.iter_add. f_equal. lia.
  - reflexivity.
Qed.

End Iteration.

Lemma Pos_iter_shiftp (a p : positive) :
  Pos.iter xO a p = shiftp (Pos.to_nat p) a.
Proof. unfold shiftp. now rewrite Pos2Nat.inj_iter. Qed.

Lemma digits_shiftp (k : nat) (a : positive) :
  (Zpos (digits2_pos (shiftp k a)) = Zpos (digits2_pos a) + Z.of_nat k)%Z.
Proof.
  induction k as [| k IH].
  - cbn. lia.
  - unfold shiftp in *. rewrite Nat.iter_succ. cbn [digits2_pos].
    rewrite Pos2Z.inj_succ, IH. lia.
Qed.

Lemma Zpos_shiftp (k : nat) (a : positive) :
  (Zpos (shiftp k a) = Zpos a * 2 ^ Z.of_nat k)%Z.
Proof.
  induction k as [| k IH].
  - cbn. lia.
  - unfold shiftp in *. rewrite Nat.iter_succ.
    change (Zpos (Nat.iter k xO a)~0) with (2 * Zpos (Nat.iter k xO a))%Z.
    rewrite IH, Nat2Z.inj_succ, Z.pow_succ_r by lia. lia.
Qed.

(** Shifting out zeros is exact. *)
Lemma shr_shiftp (k j : nat) (a : positive) :
  Nat.iter k shr_1 {| shr_m := Zpos (shiftp (k + j) a);
                      shr_r := false; shr_s := false |}
  = {| shr_m := Zpos (shiftp j a); shr_r := false; shr_s := false |}.
Proof.
  induction k as [| k IH]; [reflexivity |].
  rewrite Nat.iter_succ_r.
  replace (S k + j)%nat with (S (k + j)) by lia.
  unfold shiftp at 1. rewrite Nat.iter_succ. cbn [shr_1 orb]. exact IH.
Qed.

Lemma digits_bounds (a : positive) :
  (2 ^ (Zpos (digits2_pos a) - 1) <= Zpos a < 2 ^ Zpos (digits2_pos a))%Z.
Proof.
  induction a as [a IH | a IH |]; cbn [digits2_pos].
  - rewrite Pos2Z.inj_succ, Pos2Z.inj_xI.
    replace (Z.succ (Zpos (digits2_pos a)) - 1)%Z
      with (Z.succ (Zpos (digits2_pos a) - 1)) by lia.
    rewrite !Z.pow_succ_r by lia.
    destruct IH as [IH1 IH2]. revert IH1 IH2.
    generalize (2 ^ (Zpos (digits2_pos a) - 1))%Z
               (2 ^ Zpos (digits2_pos a))%Z.
    lia.
  - rewrite Pos2Z.inj_succ. change (Zpos a~0) with (2 * Zpos a)%Z.
    replace (Z.succ (Zpos (digits2_pos a)) - 1)%Z
      with (Z.succ (Zpos (digits2_pos a) - 1)) by lia.
    rewrite !Z.pow_succ_r by lia.
    destruct IH as [IH1 IH2]. revert IH1 IH2.
    generalize (2 ^ (Zpos (digits2_pos a) - 1))%Z
               (2 ^ Zpos (digits2_pos a))%Z.
    lia.
  - cbn. lia.
Qed.

Lemma digits_le (a : positive) :
  (Zpos a < exactBound)%Z -> (Zpos (digits2_pos a) <= 53)%Z.
Proof.
  intros H. destruct (digits_bounds a) as [Hlo _].
  destruct (Z_le_gt_dec (Zpos (digits2_pos a)) 53) as [| Hgt];
    [assumption |].
  assert (2 ^ 53 <= 2 ^ (Zpos (digits2_pos a) - 1))%Z
    by (apply Z.pow_le_mono_r; lia).
  change (2 ^ 53)%Z with exactBound in *. lia.
Qed.

(** A mantissa of 53 bits needs no rounding. *)
Lemma round_canonical (s : bool) (m : positive) (e : Z) :
  Zpos (digits2_pos m) = 53%Z -> (-1074 <= e <= 971)%Z ->
  binary_round_aux prec emax s (Zpos m) e loc_Exact = S754_finite s m e.
Proof.
  intros Hd He. unfold binary_round_aux, shr_fexp, fexp, emin, prec, emax.
  cbn [Zdigits2 shr_record_of_loc]. rewrite Hd.
  replace (Z.max (53 + e - 53) (3 - 1024 - 53) - e)%Z with 0%Z by lia.
  cbn [shr shr_m loc_of_shr_record round_nearest_even Zdigits2
       shr_record_of_loc].
  rewrite Hd.
  replace (Z.max (53 + e - 53) (3 - 1024 - 53) - e)%Z with 0%Z by lia.
  cbn [shr shr_m].
  destruct (Z.leb_spec e (1024 - 53)); [reflexivity | lia].
Qed.

Lemma binary_round_integer (s : bool) (a : positive) :
  (Zpos a < exactBound)%Z -> binary_round prec emax s a 0 = canon s a.
Proof.
  intros Ha. pose proof (@digits_le a Ha) as Hd.
  unfold binary_round, shl_align, fexp, emin, prec, emax, canon.
  remember (Zpos (digits2_pos a)) as d eqn:Hdd.
  replace (Z.max (d + 0 - 53) (3 - 1024 - 53) - 0)%Z with (d - 53)%Z by lia.
  destruct (d - 53)%Z as [| p | p] eqn:Hp; try lia.
  - replace (53 - d)%Z with 0%Z by lia.
    cbn [Z.to_nat]. change (shiftp 0 a) with a.
    apply round_canonical; lia.
  - rewrite Pos_iter_shiftp.
    replace (Z.max (d + 0 - 53) (3 - 1024 - 53))%Z with (d - 53)%Z by lia.
    replace (Z.to_nat (53 - d)) with (Pos.to_nat p) by lia.
    rewrite round_canonical; [rewrite Hp; reflexivity | |].
    + rewrite digits_shiftp, <- Hdd. lia.
    + lia.
Qed.

(** The integer [a] written with 52 more bits rounds to the same number. *)
Lemma binary_round_scaled (s : bool) (a : positive) :
  (Zpos a < exactBound)%Z ->
  binary_round prec emax s (shiftp 52 a) (-52) = canon s a.
Proof.
  intros Ha. pose proof (@digits_le a Ha) as Hd.
  unfold binary_round, shl_align, fexp, emin, prec, emax, canon.
  rewrite digits_shiftp.
  remember (Zpos (digits2_pos a)) as d eqn:Hdd.
  assert (1 <= d)%Z by lia.
  replace (Z.max (d + Z.of_nat 52 + -52 - 53) (3 - 1024 - 53) - -52)%Z
    with (d - 1)%Z by lia.
  destruct (d - 1)%Z as [| p | p] eqn:Hp; try lia.
  - unfold binary_round_aux, shr_fexp, fexp, emin.
    cbn [Zdigits2 shr_record_of_loc]. rewrite digits_shiftp, <- Hdd.
    replace (Z.max (d + Z.of_nat 52 + -52 - 53) (3 - 1024 - 53) - -52)%Z
      with 0%Z by lia.
    cbn [shr shr_m loc_of_shr_record round_nearest_even Zdigits2
         shr_record_of_loc].
    rewrite digits_shiftp, <- Hdd.
    replace (Z.max (d + Z.of_nat 52 + -52 - 53) (3 - 1024 - 53) - -52)%Z
      with 0%Z by lia.
    cbn [shr shr_m].
    replace (Z.to_nat (53 - d)) with 52%nat by lia.
    replace (d - 53)%Z with (-52)%Z by lia. reflexivity.
  - unfold binary_round_aux, shr_fexp, fexp, emin.
    cbn [Zdigits2 shr_record_of_loc]. rewrite digits_shiftp, <- Hdd.
    replace (Z.max (d + Z.of_nat 52 + -52 - 53) (3 - 1024 - 53) - -52)%Z
      with (Zpos p) by lia.
    cbn [shr]. rewrite iter_pos_nat.
    replace 52%nat with (Pos.to_nat p + Z.to_nat (53 - d))%nat by lia.
    rewrite shr_shiftp.
    cbn [shr_m loc_of_shr_record round_nearest_even Zdigits2
         shr_record_of_loc].
    rewrite digits_shiftp, <- Hdd.
    replace (Z.max (d + Z.of_nat (Z.to_nat (53 - d)) + (-52 + Zpos p) - 53)
               (3 - 1024 - 53) - (-52 + Zpos p))%Z with 0%Z by lia.
    cbn [shr shr_m].
    replace (-52 + Zpos p)%Z with (d - 53)%Z by lia.
    destruct (Z.leb_spec (d - 53) (1024 - 53)); [reflexivity | lia].
Qed.

Lemma ofZ_pos (a : positive) :
  (Zpos a < exactBound)%Z -> ofZ (Zpos a) = canon false a.
Proof.
  intros Ha. unfold ofZ. cbn [binary_normalize].
  now apply binary_round_integer.
Qed.

Lemma ofZ_neg (a : positive) :
  (Zpos a < exactBound)%Z -> ofZ (Zneg a) = canon true a.
Proof.
  intros Ha. unfold ofZ. cbn [binary_normalize].
  now apply binary_round_integer.
Qed.

Lemma shl_align_canon (a : positive) :
  (Zpos a < exactBound)%Z ->
  fst (shl_align (shiftp (Z.to_nat (53 - Zpos (digits2_pos a))) a)
         (Zpos (digits2_pos a) - 53) (-52))
  = shiftp 52 a.
Proof.
  intros Ha. pose proof (@digits_le a Ha) as Hd.
  remember (Zpos (digits2_pos a)) as d eqn:Hdd.
  assert (1 <= d)%Z by lia.
  unfold shl_align.
  destruct (-52 - (d - 53))%Z as [| p | p] eqn:Hp; try lia; cbn [fst].
  - f_equal. lia.
  - rewrite Pos_iter_shiftp. unfold shiftp. rewrite <- Nat.iter_add.
    f_equal. lia.
Qed.

(** Subtracting one from a safe integer is exact. *)
Lemma minus_one_exact (n : Z) :
  Safe n -> minus (ofZ n) (ofZ 1) = ofZ (n - 1).
Proof.
  unfold Safe. intros [Hlo Hhi].
  assert (Hcases : n = exactBound \/ n = (1 - exactBound)%Z \/ n = 0%Z \/
                   (0 < n < exactBound)%Z \/
                   (1 - exactBound < n < 0)%Z) by lia.
  destruct Hcases as [-> | [-> | [-> | [Hpos | Hneg]]]];
    try (vm_compute; reflexivity).
  - destruct n as [| a | a]; try lia.
    rewrite (@ofZ_pos a) by lia.
    change (ofZ 1) with (S754_finite false (shiftp 52 1) (-52)).
    pose proof (@digits_le a (proj2 Hpos)) as Hd.
    unfold canon, minus, SFsub.
    replace (Z.min (Zpos (digits2_pos a) - 53) (-52)) with (-52)%Z by lia.
    rewrite (@shl_align_canon a) by lia.
    replace (fst (shl_align (shiftp 52 1) (-52) (-52))) with (shiftp 52 1)
      by reflexivity.
    cbn [cond_Zopp].
    assert (a = 1%positive \/ (1 < Zpos a)%Z) as [-> | Hbig] by lia;
      [reflexivity |].
    assert (Hdiff : (Zpos (shiftp 52 a) - Zpos (shiftp 52 1)
                     = Zpos (shiftp 52 (Pos.pred a)))%Z).
    { rewrite !Zpos_shiftp. rewrite Pos2Z.inj_pred by lia. lia. }
    rewrite Hdiff. cbn [binary_normalize].
    rewrite binary_round_scaled by (rewrite Pos2Z.inj_pred; lia).
    replace (Zpos a - 1)%Z with (Zpos (Pos.pred a))
      by (rewrite Pos2Z.inj_pred; lia).
    symmetry. apply ofZ_pos. rewrite Pos2Z.inj_pred; lia.
  - destruct n as [| a | a]; try lia.
    assert (Ha : (Zpos a < exactBound)%Z) by lia.
    rewrite (@ofZ_neg a Ha).
    change (ofZ 1) with (S754_finite false (shiftp 52 1) (-52)).
    pose proof (@digits_le a Ha) as Hd.
    unfold canon, minus, SFsub.
    replace (Z.min (Zpos (digits2_pos a) - 53) (-52)) with (-52)%Z by lia.
    rewrite (@shl_align_canon a Ha).
    replace (fst (shl_align (shiftp 52 1) (-52) (-52))) with (shiftp 52 1)
      by reflexivity.
    cbn [cond_Zopp].
    assert (Hdiff : (- Zpos (shiftp 52 a) - Zpos (shiftp 52 1)
                     = Zneg (shiftp 52 (Pos.succ a)))%Z).
    { rewrite <- Pos2Z.opp_pos, !Zpos_shiftp, Pos2Z.inj_succ. lia. }
    rewrite Hdiff. cbn [binary_normalize].
    rewrite binary_round_scaled by (rewrite Pos2Z.inj_succ; lia).
    replace (Zneg a - 1)%Z with (Zneg (Pos.succ a))
      by (rewrite <- !Pos2Z.opp_pos, Pos2Z.inj_succ; lia).
    symmetry. apply ofZ_neg. rewrite Pos2Z.inj_succ; lia.
Qed.

Lemma integerValue_canon (s : bool) (a : positive) :
  (Zpos a < exactBound)%Z ->
  integerValue (canon s a) = Some (cond_Zopp s (Zpos a)).
Proof.
  intros Ha. pose proof (@digits_le a Ha) as Hd.
  unfold canon, integerValue. rewrite Zpos_shiftp.
  remember (Zpos (digits2_pos a)) as d eqn:Hdd.
  assert (1 <= d)%Z by lia.
  rewrite Z2Nat.id by lia.
  destruct (Z.leb_spec 0 (d - 53)) as [Hzero | Hless].
  - replace (53 - d)%Z with 0%Z by lia. replace (d - 53)%Z with 0%Z by lia.
    do 2 f_equal. cbn. lia.
  - replace (- (d - 53))%Z with (53 - d)%Z by lia.
    rewrite Z.mod_mul by (apply Z.pow_nonzero; lia).
    cbn [Z.eqb]. rewrite Z.div_mul by (apply Z.pow_nonzero; lia).
    reflexivity.
Qed.

(** The numbers of the integers up to [exactBound] are these integers. *)
Lemma integerValue_ofZ (n : Z) :
  (- exactBound <= n <= exactBound)%Z -> integerValue (ofZ n) = Some n.
Proof.
  intros [Hlo Hhi].
  assert (Hcases : n = exactBound \/ n = (- exactBound)%Z \/
                   (- exactBound < n < exactBound)%Z) by lia.
  destruct Hcases as [-> | [-> | Hin]]; try (vm_compute; reflexivity).
  destruct n as [| a | a].
  - reflexivity.
  - rewrite ofZ_pos, integerValue_canon by lia. reflexivity.
  - rewrite ofZ_neg, integerValue_canon by lia. reflexivity.
Qed.

Lemma ofZ_injective (n m : Z) :
  (- exactBound <= n <= exactBound)%Z ->
  (- exactBound <= m <= exactBound)%Z ->
  ofZ n = ofZ m -> n = m.
Proof.
  intros Hn Hm Heq.
  pose proof (integerValue_ofZ Hn) as Hvalue.
  rewrite Heq, (integerValue_ofZ Hm) in Hvalue. congruence.
Qed.

(* ================================================================== *)
(** * The host side *)
(* ================================================================== *)

(** C9, as the code has it: for a [HighlightFullDeclaration] message the
    host opens the document at [range.fileUrl] with a selection whose four
    coordinates are those of [range] minus one in the arithmetic of
    numbers, which rounds.  When the coordinates of [range] are safe
    integers, the coordinates of the selection are these integers minus
    one, exactly; the range from line 8, column 8 to line 8, column 18
    selects line 7, columns 7 to 17. *)
Theorem highlight_selection_zero_based (range : SourceRange) :
  (exists sel,
     onDidReceiveMessage (HighlightFullDeclarationMessage range)
     = vscode.showTextDocument (vscode.Uri_parse (fileUrl range))
         {| vscode.preserveFocus := None; vscode.selection := Some sel |} /\
     vscode.startLine sel = minus (line (start range)) (ofZ 1) /\
     vscode.startCharacter sel = minus (column (start range)) (ofZ 1) /\
     vscode.endLine sel = minus (line (end_ range)) (ofZ 1) /\
     vscode.endCharacter sel = minus (column (end_ range)) (ofZ 1) /\
     forall l1 c1 l2 c2,
       IntegerSite range l1 c1 l2 c2 ->
       sel = vscode.mkRange (ofZ (l1 - 1)) (ofZ (c1 - 1))
               (ofZ (l2 - 1)) (ofZ (c2 - 1)) /\
       integerValue (vscode.startLine sel) = Some (l1 - 1)%Z /\
       integerValue (vscode.startCharacter sel) = Some (c1 - 1)%Z /\
       integerValue (vscode.endLine sel) = Some (l2 - 1)%Z /\
       integerValue (vscode.endCharacter sel) = Some (c2 - 1)%Z) /\
  toVscodeRange siteP = vscode.mkRange (ofZ 7) (ofZ 7) (ofZ 7) (ofZ 17).
Proof.
  split; [| reflexivity].
  exists (toVscodeRange range). do 5 (split; [reflexivity |]).
  intros l1 c1 l2 c2 [(Hl1 & Hc1 & Hl2 & Hc2) (Sl1 & Sc1 & Sl2 & Sc2)].
  unfold toVscodeRange. rewrite Hl1, Hc1, Hl2, Hc2.
  rewrite !minus_one_exact by assumption.
  cbn [vscode.startLine vscode.startCharacter vscode.endLine
       vscode.endCharacter].
  unfold Safe in *.
  split; [reflexivity |].
  repeat split; apply integerValue_ofZ; lia.
Qed.

Lemma highlight_selection_zero_based_witness :
  IntegerSite siteP 8 8 8 18 /\
  exists sel,
    onDidReceiveMessage (HighlightFullDeclarationMessage siteP)
    = vscode.showTextDocument (vscode.Uri_parse "file:///b.src")
        {| vscode.preserveFocus := None; vscode.selection := Some sel |} /\
    integerValue (vscode.startLine sel) = Some 7%Z /\
    integerValue (vscode.startCharacter sel) = Some 7%Z /\
    integerValue (vscode.endLine sel) = Some 7%Z /\
    integerValue (vscode.endCharacter sel) = Some 17%Z.
Proof.
  assert (Hsite : IntegerSite siteP 8 8 8 18).
  { split; [repeat split |]. unfold Safe, exactBound. lia. }
  split; [exact Hsite |].
  destruct (proj1 (highlight_selection_zero_based siteP))
    as (sel & Hcall & _ & _ & _ & _ & Hexact).
  exists sel. split; [exact Hcall |].
  exact (proj2 (Hexact 8 8 8 18 Hsite))%Z.
Defined.

(** C9 fails as stated: line 9007199254740996 is a number, and the line
    of the selection that the host makes for it is 9007199254740996 again,
    not 9007199254740995; the column, which is small, is one less. *)
Lemma highlight_selection_rounds :
  valid_binary prec emax (line (start farSite)) = true /\
  integerValue (line (start farSite)) = Some 9007199254740996%Z /\
  integerValue (column (start farSite)) = Some 1%Z /\
  exists sel,
    onDidReceiveMessage (HighlightFullDeclarationMessage farSite)
    = vscode.showTextDocument (vscode.Uri_parse (fileUrl farSite))
        {| vscode.preserveFocus := None; vscode.selection := Some sel |} /\
    integerValue (vscode.startLine sel) = Some 9007199254740996%Z /\
    integerValue (vscode.startCharacter sel) = Some 0%Z.
Proof.
  repeat split. eexists. repeat split.
Qed.

(* ================================================================== *)
(** * Tree projection *)
(* ================================================================== *)

Section MapM.

Context {A B : Type} (f : A -> Result B).

Lemma mapM_app (before after : list A) :
  mapM f (before ++ after)
  = (items <- mapM f before ;;
     rest <- mapM f after ;;
     Ok (items ++ rest)).
Proof.
  induction before as [| a before IH]; simpl.
  - now destruct (mapM f after).
  - destruct (f a) as [b | e]; simpl; [| reflexivity].
    rewrite IH. destruct (mapM f before) as [items | e]; simpl;
      [| reflexivity].
    now destruct (mapM f after).
Qed.

Lemma mapM_all_ok (arr : list A) :
  (forall a, In a arr -> exists b, f a = Ok b) ->
  exists items, mapM f arr = Ok items.
Proof.
  induction arr as [| a arr IH]; intros Hall; simpl.
  - now exists [].
  - destruct (Hall a (or_introl eq_refl)) as [b ->].
    destruct IH as [items ->]; [intros; apply Hall; now right |].
    now exists (b :: items).
Qed.

(** An element on which [f] throws makes the whole [map] throw. *)
Lemma mapM_throws (before after : list A) (a : A) (e : JsError) :
  f a = Throw e -> exists e', mapM f (before ++ a :: after) = Throw e'.
Proof.
  intros Ha. rewrite mapM_app. simpl. rewrite Ha.
  destruct (mapM f before); simpl; eauto.
Qed.

(** The exception is that of the first element on which [f] throws. *)
Lemma mapM_first_throw (before after : list A) (a : A) (e : JsError) :
  (exists items, mapM f before = Ok items) ->
  f a = Throw e ->
  mapM f (before ++ a :: after) = Throw e.
Proof.
  intros [items Hbefore] Ha. rewrite mapM_app, Hbefore. simpl.
  now rewrite Ha.
Qed.

End MapM.

Section Rendering.

Variable JSON : JSONApi.
Variable ast : AST.

Lemma renderModuleDecl_mismatch (stack : nat) (id : NodeID) (n : ASTNode) :
  node ast id = Ok (some n) ->
  (forall d, n <> N_ModuleDecl d) ->
  renderModuleDecl JSON (S stack) ast id
  = Throw (Error "Expected ModuleDecl").
Proof.
  intros Hnode Hkind. cbn [renderModuleDecl]. rewrite Hnode. cbn [bind].
  now rewrite (asModuleDecl_mismatch Hkind).
Qed.

Lemma renderTranslationUnitDecl_mismatch (stack : nat) (id : NodeID)
    (n : ASTNode) :
  node ast id = Ok (some n) ->
  (forall d, n <> N_TranslationUnit d) ->
  renderTranslationUnitDecl JSON (S stack) ast id
  = Throw (Error "Expected TranslationUnit").
Proof.
  intros Hnode Hkind. cbn [renderTranslationUnitDecl]. rewrite Hnode.
  cbn [bind]. now rewrite (asTranslationUnit_mismatch Hkind).
Qed.

Lemma renderModuleDecl_resolved (stack : nat) (id : NodeID)
    (d : ModuleDecl.t) :
  node ast id = Ok (some (N_ModuleDecl d)) ->
  renderModuleDecl JSON (S stack) ast id
  = (units <- mapM (renderTranslationUnitDecl JSON stack ast)
                (ModuleDecl.sources d) ;;
     Ok {| icons := uniformIcon "file-submodule";
           label := ModuleDecl.baseName d;
           value := stringify JSON id;
           tooltip := None;
           subItems := map some units;
           decorations := None;
           actions := None |}).
Proof.
  intros Hnode. cbn [renderModuleDecl]. now rewrite Hnode.
Qed.

Lemma renderTranslationUnitDecl_resolved (stack : nat) (id : NodeID)
    (d : TranslationUnit.t) :
  node ast id = Ok (some (N_TranslationUnit d)) ->
  renderTranslationUnitDecl JSON (S stack) ast id
  = (items <- mapM (renderAnyDecl JSON stack ast)
                (TranslationUnit.decls d) ;;
     Ok {| icons := uniformIcon "file";
           label := fileName (fileUrl (TranslationUnit.site d));
           value := stringify JSON id;
           tooltip := Some (fileUrl (TranslationUnit.site d));
           subItems := items;
           decorations := None;
           actions := Some [highlightAction] |}).
Proof.
  intros Hnode. cbn [renderTranslationUnitDecl]. now rewrite Hnode.
Qed.

Lemma renderAnyDecl_missing (stack : nat) (id : NodeID) :
  node ast id = Ok (some N_missing) ->
  renderAnyDecl JSON (S stack) ast id
  = Ok (some {| icons := uniformIcon "question";
                label := "Unknown";
                value := stringify JSON id;
                tooltip := None;
                subItems := [];
                decorations :=
                  Some [kindDecoration "missing"
                          "var(--vscode-errorForeground)"];
                actions := None |}).
Proof.
  intros Hnode. cbn [renderAnyDecl]. unfold renderMissing.
  now rewrite Hnode.
Qed.

Lemma renderAnyDecl_other (stack : nat) (id : NodeID) (kind : string)
    (Hfresh : isKnownKind kind = false) :
  node ast id = Ok (some (N_other kind Hfresh)) ->
  renderAnyDecl JSON (S stack) ast id = Ok undefined.
Proof.
  intros Hnode. fresh_keys Hfresh. cbn [renderAnyDecl]. rewrite Hnode.
  cbn -[String.eqb].
  now rewrite Hmodule, Hfunction, Hunit, Hmissing, Hproduct, Hparameter.
Qed.

Lemma renderAnyDecl_module (stack : nat) (id : NodeID) (d : ModuleDecl.t) :
  node ast id = Ok (some (N_ModuleDecl d)) ->
  renderAnyDecl JSON (S stack) ast id
  = (item <- renderModuleDecl JSON stack ast id ;; Ok (some item)).
Proof.
  intros Hnode. cbn [renderAnyDecl]. now rewrite Hnode.
Qed.

Lemma renderAnyDecl_unit (stack : nat) (id : NodeID) (d : TranslationUnit.t) :
  node ast id = Ok (some (N_TranslationUnit d)) ->
  renderAnyDecl JSON (S stack) ast id
  = (item <- renderTranslationUnitDecl JSON stack ast id ;; Ok (some item)).
Proof.
  intros Hnode. cbn [renderAnyDecl]. now rewrite Hnode.
Qed.

Lemma renderAnyDecl_function (stack : nat) (id : NodeID) (d : FunctionDecl.t) :
  node ast id = Ok (some (N_FunctionDecl d)) ->
  renderAnyDecl JSON (S stack) ast id
  = (item <- renderFunctionDecl JSON ast id ;; Ok (some item)).
Proof.
  intros Hnode. cbn [renderAnyDecl]. now rewrite Hnode.
Qed.

Lemma renderAnyDecl_product (stack : nat) (id : NodeID)
    (d : ProductTypeDecl.t) :
  node ast id = Ok (some (N_ProductTypeDecl d)) ->
  exists item, renderAnyDecl JSON (S stack) ast id = Ok (some item).
Proof.
  intros Hnode. cbn [renderAnyDecl]. unfold renderProductTypeDecl.
  rewrite Hnode. eexists. reflexivity.
Qed.

Lemma renderParameterDecl_resolved (id : NodeID) (d : ParameterDecl.t) :
  node ast id = Ok (some (N_ParameterDecl d)) ->
  exists item, renderParameterDecl JSON ast id = Ok item.
Proof.
  intros Hnode. unfold renderParameterDecl. rewrite Hnode.
  eexists. reflexivity.
Qed.

Lemma renderAnyDecl_parameter (stack : nat) (id : NodeID)
    (d : ParameterDecl.t) :
  node ast id = Ok (some (N_ParameterDecl d)) ->
  exists item, renderAnyDecl JSON (S stack) ast id = Ok (some item).
Proof.
  intros Hnode. cbn [renderAnyDecl]. unfold renderParameterDecl.
  rewrite Hnode. eexists. reflexivity.
Qed.

End Rendering.

(** C4, as the code has it: a declaration whose kind is [missing] is
    rendered with the label "Unknown" and one decoration whose content is
    the kind tag; a declaration whose kind is none of the six known ones
    gets no item at all ([renderAnyDecl] returns [undefined]); in both
    cases nothing is thrown, and in the list of declarations the entries of
    the siblings before and after are what they are without the node. *)
Theorem missing_or_unknown_declaration (JSON : JSONApi) (stack : nat)
    (ast : AST) (id : NodeID) (n : ASTNode) :
  node ast id = Ok (some n) ->
  n = N_missing \/ isKnownKind (ownKey n) = false ->
  exists entry,
    renderAnyDecl JSON (S stack) ast id = Ok entry /\
    (n = N_missing ->
     exists item,
       entry = some item /\
       label item = "Unknown" /\
       decorations item
       = Some [kindDecoration (ownKey n) "var(--vscode-errorForeground)"]) /\
    (isKnownKind (ownKey n) = false -> entry = undefined) /\
    (forall before after,
       mapM (renderAnyDecl JSON (S stack) ast) (before ++ id :: after)
       = (items <- mapM (renderAnyDecl JSON (S stack) ast) before ;;
          rest <- mapM (renderAnyDecl JSON (S stack) ast) after ;;
          Ok (items ++ entry :: rest))).
Proof.
  intros Hnode Hkind.
  assert (Hentry : exists entry,
             renderAnyDecl JSON (S stack) ast id = Ok entry /\
             (n = N_missing ->
              exists item,
                entry = some item /\
                label item = "Unknown" /\
                decorations item
                = Some [kindDecoration (ownKey n)
                          "var(--vscode-errorForeground)"]) /\
             (isKnownKind (ownKey n) = false -> entry = undefined)).
  { destruct n as [| d | d | d | d | d | kind Hfresh];
      try (destruct Hkind as [Hkind | Hkind]; discriminate).
    - eexists. split; [exact (renderAnyDecl_missing JSON ast stack id Hnode) |].
      split; [| discriminate]. intros _. eexists. repeat split.
    - exists undefined.
      split; [exact (renderAnyDecl_other JSON ast stack id Hnode) |].
      split; [discriminate | reflexivity]. }
  destruct Hentry as (entry & Hrender & Hmissing & Hother).
  exists entry. repeat split; try assumption.
  intros before after. rewrite mapM_app. cbn [mapM]. rewrite Hrender.
  destruct (mapM (renderAnyDecl JSON (S stack) ast) before) as [items | e];
    cbn [bind]; [| reflexivity].
  destruct (mapM (renderAnyDecl JSON (S stack) ast) after) as [rest | e];
    reflexivity.
Qed.

Lemma missing_or_unknown_declaration_witness :
  exists entry,
    renderAnyDecl sampleJSON 3 sampleAst (mkNodeID 0 5) = Ok entry /\
    (exists item, entry = some item /\ label item = "Unknown") /\
    mapM (renderAnyDecl sampleJSON 3 sampleAst)
      ([mkNodeID 0 0] ++ mkNodeID 0 5 :: [mkNodeID 0 6])
    = (items <- mapM (renderAnyDecl sampleJSON 3 sampleAst) [mkNodeID 0 0] ;;
       rest <- mapM (renderAnyDecl sampleJSON 3 sampleAst) [mkNodeID 0 6] ;;
       Ok (items ++ entry :: rest)).
Proof.
  destruct (@missing_or_unknown_declaration sampleJSON 2 sampleAst
              (mkNodeID 0 5) N_missing eq_refl (or_introl eq_refl))
    as (entry & Hrender & Hmissing & _ & Hsiblings).
  exists entry. split; [exact Hrender |].
  split.
  - destruct (Hmissing eq_refl) as (item & Hitem & Hlabel & _).
    exists item. split; assumption.
  - exact (Hsiblings [mkNodeID 0 0] [mkNodeID 0 6]).
Defined.

(** C4 fails as stated: the node at offset 4 of [sampleAst] has the kind
    [EnumDecl], which is none of the known ones; [renderAnyDecl] returns
    [undefined] for it, and the translation unit that declares it gets
    [undefined] in place of an item labelled "Unknown". *)
Lemma unknown_kind_renders_nothing :
  node sampleAst (mkNodeID 0 4) = Ok (some enumDecl) /\
  isKnownKind (ownKey enumDecl) = false /\
  renderAnyDecl sampleJSON 3 sampleAst (mkNodeID 0 4) = Ok undefined /\
  (exists unit,
     renderTranslationUnitDecl sampleJSON 3 sampleAst (mkNodeID 0 2) = Ok unit /\
     nth_error (subItems unit) 1 = Some undefined).
Proof.
  repeat split. eexists. split; reflexivity.
Qed.

(* ================================================================== *)
(** * Projection of a whole snapshot *)
(* ================================================================== *)

Lemma updateAst_run (JSON : JSONApi) (stackDepth : nat) (ast : AST)
    (w : World) :
  updateAst JSON stackDepth (some ast) w
  = match mapM (renderModuleDecl JSON stackDepth ast) (modulesIds ast) with
    | Ok items =>
        (Ok tt,
         {| this_ast := some ast; astTreeView_data := map some items;
            posted := posted w; console := console w |})
    | Throw e =>
        (Throw e,
         {| this_ast := some ast; astTreeView_data := astTreeView_data w;
            posted := posted w; console := console w |})
    end.
Proof.
  unfold updateAst. run_listener.
  destruct (mapM (renderModuleDecl JSON stackDepth ast) (modulesIds ast));
    reflexivity.
Qed.

Section KindMismatch.

Variable JSON : JSONApi.
Variable ast : AST.

Lemma not_a_module_throws (stack : nat) (id : NodeID) :
  NotAModule ast id ->
  exists e, renderModuleDecl JSON stack ast id = Throw e.
Proof.
  intros (n & Hnode & Hkind). destruct stack as [| stack].
  - now exists RangeError.
  - eexists. eapply renderModuleDecl_mismatch; eassumption.
Qed.

Lemma not_a_unit_throws (stack : nat) (id : NodeID) :
  NotAUnit ast id ->
  exists e, renderTranslationUnitDecl JSON stack ast id = Throw e.
Proof.
  intros (n & Hnode & Hkind). destruct stack as [| stack].
  - now exists RangeError.
  - eexists. eapply renderTranslationUnitDecl_mismatch; eassumption.
Qed.

Lemma breaks_top_levels_throws (stack : nat) (id : NodeID) :
  BreaksTopLevels ast id ->
  exists e, renderModuleDecl JSON stack ast id = Throw e.
Proof.
  intros [Hmodule | (d & source & Hnode & Hin & Hunit)].
  - now apply not_a_module_throws.
  - destruct stack as [| stack]; [now exists RangeError |].
    erewrite renderModuleDecl_resolved by eassumption.
    apply in_split in Hin as (before & after & ->).
    destruct (not_a_unit_throws stack Hunit) as [e He].
    destruct (mapM_throws (renderTranslationUnitDecl JSON stack ast)
                before after _ He) as [e' ->].
    now exists e'.
Qed.

Lemma module_with_bad_source (stack : nat) (id source : NodeID)
    (d : ModuleDecl.t) (unitsBefore unitsAfter : list NodeID) :
  node ast id = Ok (some (N_ModuleDecl d)) ->
  ModuleDecl.sources d = unitsBefore ++ source :: unitsAfter ->
  NotAUnit ast source ->
  (exists units,
     mapM (renderTranslationUnitDecl JSON (S stack) ast) unitsBefore
     = Ok units) ->
  renderModuleDecl JSON (S (S stack)) ast id
  = Throw (Error "Expected TranslationUnit").
Proof.
  intros Hnode Hsources (n & Hsource & Hkind) Hunits.
  erewrite renderModuleDecl_resolved by eassumption. rewrite Hsources.
  erewrite mapM_first_throw; [reflexivity | exact Hunits |].
  eapply renderTranslationUnitDecl_mismatch; eassumption.
Qed.

End KindMismatch.

(** C10, as the code has it: when an entry of [modulesIds] resolves to a
    node that is no module, or to a module one of whose [sources] resolves
    to a node that is no translation unit, projection never completes: it
    throws, and the node is not rendered as "Unknown".  The exception is
    the kind-mismatch error of [asModuleDecl], respectively of
    [asTranslationUnit], when the entries traversed before the offending
    one project without error; otherwise it is the exception of the
    earlier entry. *)
Theorem kind_mismatch_at_top_levels (JSON : JSONApi) (stack : nat)
    (ast : AST) (w : World) (before after : list NodeID) (id : NodeID) :
  modulesIds ast = before ++ id :: after ->
  BreaksTopLevels ast id ->
  (forall stackDepth,
     exists e, fst (updateAst JSON stackDepth (some ast) w) = Throw e) /\
  ((exists items,
      mapM (renderModuleDecl JSON (S (S stack)) ast) before = Ok items) ->
   (NotAModule ast id ->
    fst (updateAst JSON (S (S stack)) (some ast) w)
    = Throw (Error "Expected ModuleDecl")) /\
   (forall d unitsBefore source unitsAfter,
      node ast id = Ok (some (N_ModuleDecl d)) ->
      ModuleDecl.sources d = unitsBefore ++ source :: unitsAfter ->
      NotAUnit ast source ->
      (exists units,
         mapM (renderTranslationUnitDecl JSON (S stack) ast) unitsBefore
         = Ok units) ->
      fst (updateAst JSON (S (S stack)) (some ast) w)
      = Throw (Error "Expected TranslationUnit"))).
Proof.
  intros Hroots Hbreaks. split.
  - intros stackDepth. rewrite updateAst_run, Hroots.
    destruct (breaks_top_levels_throws JSON stackDepth Hbreaks) as [e He].
    destruct (mapM_throws (renderModuleDecl JSON stackDepth ast)
                before after _ He) as [e' ->].
    now exists e'.
  - intros Hbefore. split.
    + intros (n & Hnode & Hkind). rewrite updateAst_run, Hroots.
      erewrite mapM_first_throw; [reflexivity | exact Hbefore |].
      eapply renderModuleDecl_mismatch; eassumption.
    + intros d unitsBefore source unitsAfter Hnode Hsources Hunit Hunits.
      rewrite updateAst_run, Hroots.
      erewrite mapM_first_throw; [reflexivity | exact Hbefore |].
      eapply module_with_bad_source; eassumption.
Qed.

(* ================================================================== *)
(** * Traversal of the sample snapshots *)
(* ================================================================== *)

(** Evaluate the lookups of a concrete snapshot found in the context. *)
Ltac resolve_nodes :=
  repeat match goal with
         | H : node _ _ = Ok (some _) |- _ =>
             cbv in H; first [discriminate H | injection H as H]; subst
         end.

(** Split [In x [a; b; ...]] into its cases. *)
Ltac in_cases H :=
  cbn in H;
  repeat match type of H with
         | _ \/ _ => destruct H as [H | H]
         end;
  first [contradiction H | inversion H; clear H; subst].

Ltac refers_cases H :=
  inversion H; clear H; subst; resolve_nodes;
  match goal with
  | Hin : In _ _ |- _ => in_cases Hin
  end.

Lemma visited_sampleAst (role : Role) (id : NodeID) :
  Visited sampleAst role id ->
  In (role, id)
    [(AsModule, mkNodeID 0 3); (AsUnit, mkNodeID 0 2);
     (AsDecl, mkNodeID 0 0); (AsDecl, mkNodeID 0 4); (AsDecl, mkNodeID 0 5);
     (AsDecl, mkNodeID 0 6); (AsParameter, mkNodeID 0 1)].
Proof.
  induction 1 as [id Hroot | role id role' id' _ IH Hrefers].
  - in_cases Hroot. cbn. tauto.
  - in_cases IH; refers_cases Hrefers; cbn; tauto.
Qed.

Lemma visited_missingRootAst (role : Role) (id : NodeID) :
  Visited missingRootAst role id -> (role, id) = (AsModule, mkNodeID 0 0).
Proof.
  induction 1 as [id Hroot | role id role' id' _ IH Hrefers].
  - in_cases Hroot. reflexivity.
  - inversion IH; subst. inversion Hrefers; subst; resolve_nodes.
Qed.

Lemma visited_badParameterAst (role : Role) (id : NodeID) :
  Visited badParameterAst role id ->
  In (role, id)
    [(AsModule, mkNodeID 0 3); (AsModule, mkNodeID 0 1);
     (AsUnit, mkNodeID 0 2); (AsDecl, mkNodeID 0 0);
     (AsParameter, mkNodeID 0 1)].
Proof.
  induction 1 as [id Hroot | role id role' id' _ IH Hrefers].
  - in_cases Hroot; cbn; tauto.
  - in_cases IH; refers_cases Hrefers; cbn; tauto.
Qed.

Lemma sampleAst_in_bounds : TraversalInBounds sampleAst.
Proof.
  intros role id Hvisited. apply visited_sampleAst in Hvisited.
  in_cases Hvisited; unfold InBounds, GroupInBounds; cbn; lia.
Qed.

Lemma sampleAst_well_kinded : TraversalWellKinded sampleAst.
Proof.
  intros role id n Hvisited Hnode. apply visited_sampleAst in Hvisited.
  in_cases Hvisited; resolve_nodes; cbn; eauto.
Qed.

Lemma sampleAst_descending : Descending sampleAst sampleRank.
Proof.
  intros role id role' id' Hvisited Hrefers.
  apply visited_sampleAst in Hvisited.
  in_cases Hvisited; refers_cases Hrefers; cbn; lia.
Qed.

Lemma missingRootAst_in_bounds : TraversalInBounds missingRootAst.
Proof.
  intros role id Hvisited. apply visited_missingRootAst in Hvisited.
  inversion Hvisited; subst. unfold InBounds, GroupInBounds; cbn; lia.
Qed.

Lemma badParameterAst_in_bounds : TraversalInBounds badParameterAst.
Proof.
  intros role id Hvisited. apply visited_badParameterAst in Hvisited.
  in_cases Hvisited; unfold InBounds, GroupInBounds; cbn; lia.
Qed.

Lemma kind_mismatch_at_top_levels_witness :
  modulesIds missingRootAst = [] ++ mkNodeID 0 0 :: [] /\
  BreaksTopLevels missingRootAst (mkNodeID 0 0) /\
  fst (updateAst sampleJSON 2 (some missingRootAst) initialWorld)
  = Throw (Error "Expected ModuleDecl").
Proof.
  assert (Hmissing : NotAModule missingRootAst (mkNodeID 0 0)).
  { exists N_missing. split; [reflexivity | discriminate]. }
  split; [reflexivity |]. split; [left; exact Hmissing |].
  exact (proj1 (proj2 (@kind_mismatch_at_top_levels sampleJSON 0
                         missingRootAst initialWorld [] [] (mkNodeID 0 0)
                         eq_refl (or_introl Hmissing))
                  (ex_intro _ [] eq_refl))
           Hmissing).
Defined.

(** C10 fails as stated: every identifier of [badParameterAst] is in
    bounds and its second root is a missing node, yet the exception that
    projection throws is the kind-mismatch error of [asParameterDecl],
    raised while the first root is projected. *)
Lemma kind_mismatch_preempted :
  TraversalInBounds badParameterAst /\
  modulesIds badParameterAst = [mkNodeID 0 3] ++ mkNodeID 0 1 :: [] /\
  NotAModule badParameterAst (mkNodeID 0 1) /\
  fst (updateAst sampleJSON 5 (some badParameterAst) initialWorld)
  = Throw (Error "Expected ParameterDecl").
Proof.
  split; [exact badParameterAst_in_bounds |].
  split; [reflexivity |]. split; [| reflexivity].
  exists N_missing. split; [reflexivity | discriminate].
Qed.

(** C2 fails as stated: the only identifier that projection of
    [missingRootAst] references is in bounds, and projection throws. *)
Lemma in_bounds_projection_throws :
  TraversalInBounds missingRootAst /\
  fst (updateAst sampleJSON 5 (some missingRootAst) initialWorld)
  = Throw (Error "Expected ModuleDecl").
Proof.
  split; [exact missingRootAst_in_bounds | reflexivity].
Qed.

Section Totality.

Variable JSON : JSONApi.
Variable ast : AST.
Variable rank : NodeID -> nat.

Hypothesis Hbounds : TraversalInBounds ast.
Hypothesis Hkinds : TraversalWellKinded ast.
Hypothesis Hrank : Descending ast rank.

Lemma visited_resolves (role : Role) (id : NodeID) :
  Visited ast role id ->
  exists n, node ast id = Ok (some n) /\ accepts role n.
Proof.
  intros Hvisited.
  destruct (node_in_bounds (Hbounds Hvisited)) as [n Hnode].
  exists n. split; [exact Hnode |]. exact (Hkinds Hvisited Hnode).
Qed.

Lemma renderFunctionDecl_ok (id : NodeID) (d : FunctionDecl.t) :
  Visited ast AsDecl id ->
  node ast id = Ok (some (N_FunctionDecl d)) ->
  exists item, renderFunctionDecl JSON ast id = Ok item.
Proof.
  intros Hvisited Hnode. unfold renderFunctionDecl. rewrite Hnode.
  cbn [bind].
  change (asFunctionDecl (some (N_FunctionDecl d))) with (Ok d).
  cbn [bind].
  destruct (mapM_all_ok (renderParameterDecl JSON ast)
              (FunctionDecl.parameters d)) as [params ->].
  - intros p Hp.
    assert (Hparameter : Visited ast AsParameter p)
      by (eapply visited_step; [exact Hvisited |];
          eapply refers_parameter; eassumption).
    destruct (visited_resolves Hparameter) as (n & Hn & d' & ->).
    eapply renderParameterDecl_resolved; eassumption.
  - eexists. reflexivity.
Qed.

Lemma module_step (stack : nat) (id : NodeID) (d : ModuleDecl.t) :
  node ast id = Ok (some (N_ModuleDecl d)) ->
  (forall source, In source (ModuleDecl.sources d) ->
     exists item, renderTranslationUnitDecl JSON stack ast source = Ok item) ->
  exists item, renderModuleDecl JSON (S stack) ast id = Ok item.
Proof.
  intros Hnode Hsources.
  erewrite renderModuleDecl_resolved by eassumption.
  destruct (mapM_all_ok _ _ Hsources) as [units ->].
  eexists. reflexivity.
Qed.

Lemma unit_step (stack : nat) (id : NodeID) (d : TranslationUnit.t) :
  node ast id = Ok (some (N_TranslationUnit d)) ->
  (forall decl, In decl (TranslationUnit.decls d) ->
     exists entry, renderAnyDecl JSON stack ast decl = Ok entry) ->
  exists item, renderTranslationUnitDecl JSON (S stack) ast id = Ok item.
Proof.
  intros Hnode Hdecls.
  erewrite renderTranslationUnitDecl_resolved by eassumption.
  destruct (mapM_all_ok _ _ Hdecls) as [items ->].
  eexists. reflexivity.
Qed.

Lemma any_step (stack : nat) (id : NodeID) :
  Visited ast AsDecl id ->
  (forall d, node ast id = Ok (some (N_ModuleDecl d)) ->
     exists item, renderModuleDecl JSON stack ast id = Ok item) ->
  (forall d, node ast id = Ok (some (N_TranslationUnit d)) ->
     exists item, renderTranslationUnitDecl JSON stack ast id = Ok item) ->
  exists entry, renderAnyDecl JSON (S stack) ast id = Ok entry.
Proof.
  intros Hvisited Hmodule Hunit.
  destruct (visited_resolves Hvisited) as (n & Hnode & _).
  destruct n as [| d | d | d | d | d | kind Hfresh].
  - eexists. eapply renderAnyDecl_missing; eassumption.
  - erewrite renderAnyDecl_function by eassumption.
    destruct (renderFunctionDecl_ok Hvisited Hnode) as [item ->].
    eexists. reflexivity.
  - erewrite renderAnyDecl_unit by eassumption.
    destruct (Hunit d Hnode) as [item ->]. eexists. reflexivity.
  - erewrite renderAnyDecl_module by eassumption.
    destruct (Hmodule d Hnode) as [item ->]. eexists. reflexivity.
  - destruct (renderAnyDecl_product JSON ast stack id Hnode) as [item ->].
    eexists. reflexivity.
  - destruct (renderAnyDecl_parameter JSON ast stack id Hnode) as [item ->].
    eexists. reflexivity.
  - eexists. eapply renderAnyDecl_other; eassumption.
Qed.

(** With a call stack that admits [2 * r + 1] nested render calls, every
    module and translation unit of rank at most [r] is rendered; with one
    more, every declaration of that rank is. *)
Lemma render_by_rank (r : nat) :
  (forall id role d stack,
     rank id <= r -> Visited ast role id ->
     role = AsModule \/ role = AsDecl ->
     node ast id = Ok (some (N_ModuleDecl d)) ->
     2 * r + 1 <= stack ->
     exists item, renderModuleDecl JSON stack ast id = Ok item) /\
  (forall id role d stack,
     rank id <= r -> Visited ast role id ->
     role = AsUnit \/ role = AsDecl ->
     node ast id = Ok (some (N_TranslationUnit d)) ->
     2 * r + 1 <= stack ->
     exists item, renderTranslationUnitDecl JSON stack ast id = Ok item) /\
  (forall id stack,
     rank id <= r -> Visited ast AsDecl id ->
     2 * r + 2 <= stack ->
     exists entry, renderAnyDecl JSON stack ast id = Ok entry).
Proof.
  induction r as [r IH] using lt_wf_ind.
  assert (Hmodule : forall id role d stack,
             rank id <= r -> Visited ast role id ->
             role = AsModule \/ role = AsDecl ->
             node ast id = Ok (some (N_ModuleDecl d)) ->
             2 * r + 1 <= stack ->
             exists item, renderModuleDecl JSON stack ast id = Ok item).
  { intros id role d stack Hr Hvisited Hrole Hnode Hstack.
    destruct stack as [| stack]; [lia |].
    eapply module_step; [exact Hnode |]. intros source Hsource.
    assert (Hrefers : Refers ast role id AsUnit source)
      by (eapply refers_source; eassumption).
    pose proof (Hrank Hvisited Hrefers) as Hlt.
    assert (Hunit : Visited ast AsUnit source)
      by (eapply visited_step; eassumption).
    destruct (visited_resolves Hunit) as (n & Hn & d' & ->).
    destruct (IH (r - 1)) as (_ & IHunit & _); [lia |].
    apply (IHunit source AsUnit d'); auto; lia. }
  assert (Hunit : forall id role d stack,
             rank id <= r -> Visited ast role id ->
             role = AsUnit \/ role = AsDecl ->
             node ast id = Ok (some (N_TranslationUnit d)) ->
             2 * r + 1 <= stack ->
             exists item,
               renderTranslationUnitDecl JSON stack ast id = Ok item).
  { intros id role d stack Hr Hvisited Hrole Hnode Hstack.
    destruct stack as [| stack]; [lia |].
    eapply unit_step; [exact Hnode |]. intros decl Hdecl.
    assert (Hrefers : Refers ast role id AsDecl decl)
      by (eapply refers_decl; eassumption).
    pose proof (Hrank Hvisited Hrefers) as Hlt.
    assert (Hvisited' : Visited ast AsDecl decl)
      by (eapply visited_step; eassumption).
    destruct (IH (r - 1)) as (_ & _ & IHany); [lia |].
    apply IHany; auto; lia. }
  repeat split; try assumption.
  intros id stack Hr Hvisited Hstack.
  destruct stack as [| stack]; [lia |].
  apply any_step; [assumption | |].
  - intros d Hnode. apply (Hmodule id AsDecl d); auto; lia.
  - intros d Hnode. apply (Hunit id AsDecl d); auto; lia.
Qed.

Lemma rank_le_maxRank (ids : list NodeID) (id : NodeID) :
  In id ids -> rank id <= maxRank rank ids.
Proof.
  unfold maxRank. induction ids as [| id' ids IH]; [contradiction |].
  intros [-> | Hin]; cbn [map fold_right]; [lia |].
  specialize (IH Hin). lia.
Qed.

Lemma roots_render (stack : nat) :
  2 * maxRank rank (modulesIds ast) + 1 <= stack ->
  exists items,
    mapM (renderModuleDecl JSON stack ast) (modulesIds ast) = Ok items.
Proof.
  intros Hstack. apply mapM_all_ok. intros id Hroot.
  assert (Hvisited : Visited ast AsModule id) by now apply visited_root.
  destruct (visited_resolves Hvisited) as (n & Hnode & d & ->).
  destruct (render_by_rank (maxRank rank (modulesIds ast)))
    as (Hmodule & _ & _).
  apply (Hmodule id AsModule d); auto using rank_le_maxRank.
Qed.

End Totality.

(** C2, as the code has it: when every identifier referenced during
    traversal is in bounds, every node reached has the kind that its
    position asks for (a module for an entry of [modulesIds], a translation
    unit for a source, a parameter for a parameter; any kind, known or not,
    for a declaration) and the references followed have no cycle, then
    projection returns normally on every call stack that admits the depth
    of the snapshot, and the tree has one entry for each entry of
    [modulesIds]. *)
Theorem projection_completes (JSON : JSONApi) (ast : AST)
    (rank : NodeID -> nat) :
  TraversalInBounds ast ->
  TraversalWellKinded ast ->
  Descending ast rank ->
  exists bound,
    forall stackDepth w,
      bound <= stackDepth ->
      exists items,
        updateAst JSON stackDepth (some ast) w
        = (Ok tt,
           {| this_ast := some ast; astTreeView_data := items;
              posted := posted w; console := console w |}) /\
        length items = length (modulesIds ast).
Proof.
  intros Hbounds Hkinds Hrank.
  exists (2 * maxRank rank (modulesIds ast) + 1).
  intros stackDepth w Hstack.
  destruct (roots_render JSON Hbounds Hkinds Hrank Hstack)
    as [items Hitems].
  exists (map some items). rewrite updateAst_run, Hitems.
  split; [reflexivity |].
  rewrite length_map. clear - Hitems.
  revert items Hitems.
  induction (modulesIds ast) as [| id ids IH]; intros items Hitems;
    cbn in Hitems.
  - now injection Hitems as <-.
  - destruct (renderModuleDecl JSON stackDepth ast id); [| discriminate].
    cbn in Hitems.
    destruct (mapM (renderModuleDecl JSON stackDepth ast) ids) as [rest |];
      [| discriminate].
    injection Hitems as <-. cbn. f_equal. now apply IH.
Qed.

Lemma projection_completes_witness :
  TraversalInBounds sampleAst /\
  TraversalWellKinded sampleAst /\
  Descending sampleAst sampleRank /\
  exists bound,
    forall stackDepth w,
      bound <= stackDepth ->
      exists items,
        updateAst sampleJSON stackDepth (some sampleAst) w
        = (Ok tt,
           {| this_ast := some sampleAst; astTreeView_data := items;
              posted := posted w; console := console w |}) /\
        length items = length (modulesIds sampleAst).
Proof.
  split; [exact sampleAst_in_bounds |].
  split; [exact sampleAst_well_kinded |].
  split; [exact sampleAst_descending |].
  exact (@projection_completes sampleJSON sampleAst sampleRank
           sampleAst_in_bounds sampleAst_well_kinded sampleAst_descending).
Defined.

(* ================================================================== *)
(** * Scenarios *)
(* ================================================================== *)

(** One module, one translation unit, one function without parameters:
    the tree is [M], [a.src], [main], [parameters], and the last has no
    entries. *)
Example scenario_tree :
  let w := snd (updateAst sampleJSON 3 (some scenarioAst) initialWorld) in
  let root := nth 0 (astTreeView_data w) undefined in
  length (astTreeView_data w) = 1 /\
  map (fun path => labelOf (descend path root))
    [[]; [0]; [0; 0]; [0; 0; 0]]
  = [some "M"; some "a.src"; some "main"; some "parameters"] /\
  descend [0; 0; 0; 0] root = undefined.
Proof. repeat split. Qed.

(** Selecting the translation unit of that tree opens its file. *)
Example scenario_select :
  let w := snd (updateAst sampleJSON 3 (some scenarioAst) initialWorld) in
  posted (snd (onSelect sampleJSON (idText "0" "1") w))
  = [OpenFileMessage "file:///a.src"].
Proof. reflexivity. Qed.

(** The file name is the piece of the URL after the last slash. *)
Example fileName_pieces :
  split "/"%char "file:///a.src"
  = ["file:"; EmptyString; EmptyString; "a.src"] /\
  fileName "file:///a.src" = "a.src" /\
  fileName "a.src" = "a.src" /\
  fileName "dir/" = EmptyString.
Proof. repeat split. Qed.

Lemma split_not_empty (sep : ascii) (s : string) : split sep s <> [].
Proof.
  induction s as [| c s IH]; cbn; [discriminate |].
  destruct (Ascii.eqb c sep); [discriminate |].
  destruct (split sep s); [contradiction | discriminate].
Qed.

(** [pop] returns [undefined] on the empty array only, so the
    [fileName] of a URL is always a piece of it. *)
Lemma pop_some {A : Type} (arr : list A) :
  arr <> [] -> exists a, pop arr = some a.
Proof.
  induction arr as [| a arr IH]; [contradiction |]. intros _.
  destruct arr as [| b arr]; [now exists a |].
  destruct IH as [last Hlast]; [discriminate |].
  exists last. exact Hlast.
Qed.

(** [sampleAst] needs three nested render calls; on a call stack that
    admits two, projection ends with the engine's [RangeError]. *)
Example stack_exhausted :
  fst (updateAst sampleJSON 2 (some sampleAst) initialWorld) = Throw RangeError /\
  fst (updateAst sampleJSON 3 (some sampleAst) initialWorld) = Ok tt.
Proof. split; reflexivity. Qed.

(** On a snapshot with a cycle no call stack is deep enough. *)
Lemma cyclic_unit_overflows (JSON : JSONApi) (stack : nat) :
  renderTranslationUnitDecl JSON stack cyclicAst (mkNodeID 0 0)
  = Throw RangeError /\
  renderAnyDecl JSON stack cyclicAst (mkNodeID 0 0) = Throw RangeError.
Proof.
  induction stack as [| stack [IHunit IHany]]; [split; reflexivity |].
  split.
  - erewrite renderTranslationUnitDecl_resolved by reflexivity.
    cbn [TranslationUnit.decls mapM]. now rewrite IHany.
  - erewrite renderAnyDecl_unit by reflexivity. now rewrite IHunit.
Qed.

Lemma cyclic_snapshot_overflows (JSON : JSONApi) (stackDepth : nat) (w : World) :
  fst (updateAst JSON stackDepth (some cyclicAst) w) = Throw RangeError.
Proof.
  rewrite updateAst_run. cbn [modulesIds cyclicAst mapM].
  destruct stackDepth as [| stack]; [reflexivity |].
  erewrite renderModuleDecl_resolved by reflexivity.
  cbn [ModuleDecl.sources mapM].
  now rewrite (proj1 (cyclic_unit_overflows JSON stack)).
Qed.

(* ================================================================== *)
(** * More about the node store and the accessors *)
(* ================================================================== *)

(** X1: [node] returns a node exactly when the identifier is a pair of
    non-negative indices into [nodes], and then it is the node stored
    there; it never returns [null]. *)
Theorem node_lookup (ast : AST) (id : NodeID) (n : ASTNode) :
  (node ast id = Ok (some n) <->
   (0 <= base id)%Z /\ (0 <= offset id)%Z /\
   exists group,
     nth_error (nodes ast) (Z.to_nat (base id)) = Some group /\
     nth_error group (Z.to_nat (offset id)) = Some n) /\
  node ast id <> Ok null.
Proof.
  unfold node. split; [split |].
  - intros H.
    destruct (index (nodes ast) (base id)) as [| | group] eqn:Hgroup;
      cbn in H; try discriminate.
    injection H as H.
    apply index_some in Hgroup as [Hbase Hnth].
    apply index_some in H as [Hoff Hn].
    repeat split; try lia. now exists group.
  - intros (Hbase & Hoff & group & Hgroup & Hn).
    assert (Hlen : (Z.to_nat (base id) < length (nodes ast))%nat)
      by (apply nth_error_Some; congruence).
    destruct (index_inside (nodes ast) (i := base id)) as (g & -> & Hg);
      [lia |].
    assert (g = group) by congruence. subst g. cbn.
    assert (Hlen' : (Z.to_nat (offset id) < length group)%nat)
      by (apply nth_error_Some; congruence).
    destruct (index_inside group (i := offset id)) as (m & -> & Hm); [lia |].
    congruence.
  - destruct (index (nodes ast) (base id)) as [| | group]; cbn;
      try discriminate.
    intros H. injection H as H. exact (index_not_null _ _ H).
Qed.

(** X2: for each variant with a predicate, [asK(node)] returns the
    payload when [isK(node)] is true and throws [Expected K] when it is
    false; [asParameterDecl], which has no predicate, returns the payload
    of a parameter and throws [Expected ParameterDecl] on every other
    node.  No accessor coerces a node of another kind. *)
Theorem accessors_agree_with_predicates (n : ASTNode) :
  ((isFunctionDecl (some n) = Ok true /\
    exists d, n = N_FunctionDecl d /\ asFunctionDecl (some n) = Ok d) \/
   (isFunctionDecl (some n) = Ok false /\
    asFunctionDecl (some n) = Throw (Error "Expected FunctionDecl"))) /\
  ((isModuleDecl (some n) = Ok true /\
    exists d, n = N_ModuleDecl d /\ asModuleDecl (some n) = Ok d) \/
   (isModuleDecl (some n) = Ok false /\
    asModuleDecl (some n) = Throw (Error "Expected ModuleDecl"))) /\
  ((isTranslationUnit (some n) = Ok true /\
    exists d, n = N_TranslationUnit d /\ asTranslationUnit (some n) = Ok d) \/
   (isTranslationUnit (some n) = Ok false /\
    asTranslationUnit (some n) = Throw (Error "Expected TranslationUnit"))) /\
  ((isProductTypeDecl (some n) = Ok true /\
    exists d, n = N_ProductTypeDecl d /\ asProductTypeDecl (some n) = Ok d) \/
   (isProductTypeDecl (some n) = Ok false /\
    asProductTypeDecl (some n) = Throw (Error "Expected ProductTypeDecl"))) /\
  ((exists d, n = N_ParameterDecl d /\ asParameterDecl (some n) = Ok d) \/
   ((forall d, n <> N_ParameterDecl d) /\
    asParameterDecl (some n) = Throw (Error "Expected ParameterDecl"))).
Proof.
  destruct n as [| d | d | d | d | d | kind Hfresh];
    try (repeat split;
         solve [ left; split; [reflexivity | eexists; split; reflexivity]
               | left; eexists; split; reflexivity
               | right; split; [reflexivity | reflexivity]
               | right; split; [discriminate | reflexivity] ]).
  fresh_keys Hfresh.
  unfold isFunctionDecl, isModuleDecl, isTranslationUnit, isProductTypeDecl,
    asFunctionDecl, asModuleDecl, asTranslationUnit, asProductTypeDecl,
    asParameterDecl, isX, asX, hasKey.
  cbn -[String.eqb].
  rewrite (String.eqb_sym "FunctionDecl"), (String.eqb_sym "ModuleDecl"),
    (String.eqb_sym "TranslationUnit"), (String.eqb_sym "ProductTypeDecl"),
    (String.eqb_sym "ParameterDecl").
  rewrite Hfunction, Hmodule, Hunit, Hproduct, Hparameter.
  repeat split; right; split; solve [reflexivity | discriminate].
Qed.

(** X3: [siteOf] throws on no node, whatever its kind, and it returns
    [undefined] (rather than a range or [null]) exactly for a node whose
    kind is none of the six known ones. *)
Theorem siteOf_undefined_iff_unknown (n : ASTNode) :
  exists r,
    siteOf (some n) = Ok r /\
    (r = undefined <-> isKnownKind (ownKey n) = false).
Proof.
  destruct n as [| d | d | d | d | d | kind Hfresh];
    try (eexists; split; [reflexivity |]; split; discriminate).
  exists undefined. split; [apply siteOf_other |].
  split; [intros _; exact Hfresh | reflexivity].
Qed.

(* ================================================================== *)
(** * More about tree projection *)
(* ================================================================== *)

Section MapMResults.

Context {A B : Type} (f : A -> Result B).

Lemma mapM_length (arr : list A) (items : list B) :
  mapM f arr = Ok items -> length items = length arr.
Proof.
  revert items. induction arr as [| a arr IH]; intros items H; cbn in H.
  - now injection H as <-.
  - destruct (f a) as [b | e]; [| discriminate]. cbn in H.
    destruct (mapM f arr) as [rest | e]; [| discriminate].
    injection H as <-. cbn. f_equal. now apply IH.
Qed.

Lemma mapM_ok_each (arr : list A) (items : list B) :
  mapM f arr = Ok items ->
  forall a, In a arr -> exists b, f a = Ok b /\ In b items.
Proof.
  revert items. induction arr as [| a arr IH]; intros items H x Hx;
    [contradiction |].
  cbn in H. destruct (f a) as [b | e] eqn:Ha; [| discriminate]. cbn in H.
  destruct (mapM f arr) as [rest | e]; [| discriminate].
  injection H as <-. destruct Hx as [<- | Hx].
  - exists b. split; [assumption | now left].
  - destruct (IH rest eq_refl x Hx) as (y & Hy & Hin).
    exists y. split; [assumption | now right].
Qed.

Lemma mapM_ext_in (g : A -> Result B) (arr : list A) :
  (forall a, In a arr -> f a = g a) -> mapM f arr = mapM g arr.
Proof.
  induction arr as [| a arr IH]; intros Hext; [reflexivity |].
  cbn. rewrite (Hext a (or_introl eq_refl)).
  rewrite IH; [reflexivity |]. intros; apply Hext; now right.
Qed.

(** When [map] throws, the exception is that of one of the elements. *)
Lemma mapM_throw_from (arr : list A) (e : JsError) :
  mapM f arr = Throw e -> exists a, In a arr /\ f a = Throw e.
Proof.
  induction arr as [| a arr IH]; intros H; cbn in H; [discriminate |].
  destruct (f a) as [b | e'] eqn:Ha; cbn in H.
  - destruct (mapM f arr) as [rest | e'']; [discriminate |].
    injection H as ->. destruct (IH eq_refl) as (x & Hx & Hthrow).
    exists x. split; [now right | assumption].
  - injection H as ->. exists a. split; [now left | assumption].
Qed.

End MapMResults.

Section RenderingInversion.

Variable JSON : JSONApi.
Variable ast : AST.

Lemma renderModuleDecl_ok (stack : nat) (id : NodeID) (item : TreeItem) :
  renderModuleDecl JSON stack ast id = Ok item ->
  exists stack' d units,
    stack = S stack' /\
    node ast id = Ok (some (N_ModuleDecl d)) /\
    mapM (renderTranslationUnitDecl JSON stack' ast) (ModuleDecl.sources d)
    = Ok units /\
    item = {| icons := uniformIcon "file-submodule";
              label := ModuleDecl.baseName d;
              value := stringify JSON id;
              tooltip := None;
              subItems := map some units;
              decorations := None;
              actions := None |}.
Proof.
  destruct stack as [| stack']; [discriminate |]. intros H.
  destruct (node ast id) as [[| | n] | e] eqn:Hnode;
    try (cbn [renderModuleDecl] in H; rewrite Hnode in H; discriminate).
  destruct n as [| d | d | d | d | d | kind Hfresh];
    try (rewrite (renderModuleDecl_mismatch JSON ast stack' id Hnode) in H
           by discriminate; discriminate).
  rewrite (renderModuleDecl_resolved JSON ast stack' id Hnode) in H.
  destruct (mapM (renderTranslationUnitDecl JSON stack' ast)
              (ModuleDecl.sources d)) as [units | e] eqn:Hunits;
    [| discriminate].
  injection H as <-. now exists stack', d, units.
Qed.

Lemma renderTranslationUnitDecl_ok (stack : nat) (id : NodeID)
    (item : TreeItem) :
  renderTranslationUnitDecl JSON stack ast id = Ok item ->
  exists stack' d items,
    stack = S stack' /\
    node ast id = Ok (some (N_TranslationUnit d)) /\
    mapM (renderAnyDecl JSON stack' ast) (TranslationUnit.decls d)
    = Ok items /\
    item = {| icons := uniformIcon "file";
              label := fileName (fileUrl (TranslationUnit.site d));
              value := stringify JSON id;
              tooltip := Some (fileUrl (TranslationUnit.site d));
              subItems := items;
              decorations := None;
              actions := Some [highlightAction] |}.
Proof.
  destruct stack as [| stack']; [discriminate |]. intros H.
  destruct (node ast id) as [[| | n] | e] eqn:Hnode;
    try (cbn [renderTranslationUnitDecl] in H; rewrite Hnode in H;
         discriminate).
  destruct n as [| d | d | d | d | d | kind Hfresh];
    try (rewrite (renderTranslationUnitDecl_mismatch JSON ast stack' id Hnode)
           in H by discriminate; discriminate).
  rewrite (renderTranslationUnitDecl_resolved JSON ast stack' id Hnode) in H.
  destruct (mapM (renderAnyDecl JSON stack' ast) (TranslationUnit.decls d))
    as [items | e] eqn:Hitems; [| discriminate].
  injection H as <-. now exists stack', d, items.
Qed.

Lemma renderFunctionDecl_resolved (id : NodeID) (d : FunctionDecl.t) :
  node ast id = Ok (some (N_FunctionDecl d)) ->
  renderFunctionDecl JSON ast id
  = (params <- mapM (renderParameterDecl JSON ast)
                 (FunctionDecl.parameters d) ;;
     Ok {| icons := uniformIcon "symbol-function";
           label := FunctionDecl.name d;
           value := stringify JSON id;
           tooltip := None;
           subItems :=
             [some {| icons := uniformIcon "symbol-property";
                      label := "parameters";
                      value := "n";
                      tooltip := None;
                      subItems := map some params;
                      decorations := None;
                      actions := None |}];
           decorations :=
             Some [kindDecoration "FunctionDecl"
                     "var(--vscode-textLink-foreground)"];
           actions := Some [highlightAction] |}).
Proof.
  intros Hnode. unfold renderFunctionDecl. now rewrite Hnode.
Qed.

(** A render call that returns has resolved its identifier. *)
Lemma renderAnyDecl_ok (stack : nat) (id : NodeID) (entry : Maybe TreeItem) :
  renderAnyDecl JSON stack ast id = Ok entry ->
  exists stack' n, stack = S stack' /\ node ast id = Ok (some n).
Proof.
  destruct stack as [| stack']; [discriminate |]. intros H.
  cbn [renderAnyDecl] in H.
  destruct (node ast id) as [[| | n] | e]; try discriminate.
  now exists stack', n.
Qed.

End RenderingInversion.

(** Decide the facts about one concrete entry of [renderAnyDecl]. *)
Ltac entry_facts :=
  split;
  [ split; intros ?Hx;
    solve [ discriminate | reflexivity | assumption
          | match goal with Hx : _ |- _ => cbn in Hx; discriminate Hx end ]
  | split;
    [ discriminate
    | let item' := fresh "item" in
      let Hitem' := fresh "Hitem" in
      intros item' Hitem';
      first [ discriminate Hitem'
            | injection Hitem' as <-;
              split; [reflexivity |];
              split; (split; intros ?Hx);
              solve [ reflexivity | discriminate
                    | eexists; reflexivity
                    | match goal with
                      | Hx : exists _, _ |- _ =>
                          destruct Hx as [? Hx]; cbv in Hx; discriminate Hx
                      | Hx : _ = Ok _ |- _ => cbv in Hx; discriminate Hx
                      end ] ] ] ].

Lemma renderAnyDecl_entry (JSON : JSONApi) (stack : nat) (ast : AST)
    (id : NodeID) (n : ASTNode) (entry : Maybe TreeItem) :
  node ast id = Ok (some n) ->
  renderAnyDecl JSON stack ast id = Ok entry ->
  (entry = undefined <-> isKnownKind (ownKey n) = false) /\
  entry <> null /\
  (forall item,
     entry = some item ->
     value item = stringify JSON id /\
     (actions item = Some [highlightAction] <->
      exists range, siteOf (some n) = Ok (some range)) /\
     (actions item = None <-> siteOf (some n) = Ok null)).
Proof.
  intros Hnode H.
  destruct stack as [| stack]; [discriminate |].
  destruct n as [| d | d | d | d | d | kind Hfresh].
  - rewrite (renderAnyDecl_missing JSON ast stack id Hnode) in H.
    injection H as <-. entry_facts.
  - rewrite (renderAnyDecl_function JSON ast stack id Hnode) in H.
    rewrite (renderFunctionDecl_resolved JSON ast id Hnode) in H.
    destruct (mapM (renderParameterDecl JSON ast)
                (FunctionDecl.parameters d)); [| discriminate].
    injection H as <-. entry_facts.
  - rewrite (renderAnyDecl_unit JSON ast stack id Hnode) in H.
    destruct (renderTranslationUnitDecl JSON stack ast id) as [item | e]
      eqn:Hitem; [| discriminate].
    apply renderTranslationUnitDecl_ok in Hitem
      as (stack' & d' & items & -> & Hnode' & _ & ->).
    injection H as <-. entry_facts.
  - rewrite (renderAnyDecl_module JSON ast stack id Hnode) in H.
    destruct (renderModuleDecl JSON stack ast id) as [item | e]
      eqn:Hitem; [| discriminate].
    apply renderModuleDecl_ok in Hitem
      as (stack' & d' & units & -> & Hnode' & _ & ->).
    injection H as <-. entry_facts.
  - cbn [renderAnyDecl] in H. unfold renderProductTypeDecl in H.
    rewrite Hnode in H. injection H as <-. entry_facts.
  - cbn [renderAnyDecl] in H. unfold renderParameterDecl in H.
    rewrite Hnode in H. injection H as <-. entry_facts.
  - rewrite (renderAnyDecl_other JSON ast stack id Hnode) in H.
    injection H as <-. entry_facts.
Qed.

(** X4: what [renderAnyDecl] returns for a resolved declaration.  The
    result is [undefined] exactly when the kind is none of the six known
    ones and never [null]; an item carries the serialized identifier of
    its node as [value]; and it offers the "highlight declaration" action
    exactly when [siteOf] has a range for the node, and no action exactly
    when [siteOf] is [null]. *)
Theorem declaration_entry (JSON : JSONApi) (stack : nat) (ast : AST)
    (id : NodeID) (n : ASTNode) (entry : Maybe TreeItem) :
  node ast id = Ok (some n) ->
  renderAnyDecl JSON stack ast id = Ok entry ->
  (entry = undefined <-> isKnownKind (ownKey n) = false) /\
  entry <> null /\
  (forall item,
     entry = some item ->
     value item = stringify JSON id /\
     (actions item = Some [highlightAction] <->
      exists range, siteOf (some n) = Ok (some range)) /\
     (actions item = None <-> siteOf (some n) = Ok null)).
Proof.
  intros Hnode H.
  destruct stack as [| stack]; [discriminate |].
  destruct n as [| d | d | d | d | d | kind Hfresh].
  - rewrite (renderAnyDecl_missing JSON ast stack id Hnode) in H.
    injection H as <-. entry_facts.
  - rewrite (renderAnyDecl_function JSON ast stack id Hnode) in H.
    rewrite (renderFunctionDecl_resolved JSON ast id Hnode) in H.
    destruct (mapM (renderParameterDecl JSON ast)
                (FunctionDecl.parameters d)); [| discriminate].
    injection H as <-. entry_facts.
  - rewrite (renderAnyDecl_unit JSON ast stack id Hnode) in H.
    destruct (renderTranslationUnitDecl JSON stack ast id) as [item | e]
      eqn:Hitem; [| discriminate].
    apply renderTranslationUnitDecl_ok in Hitem
      as (stack' & d' & items & -> & Hnode' & _ & ->).
    injection H as <-. entry_facts.
  - rewrite (renderAnyDecl_module JSON ast stack id Hnode) in H.
    destruct (renderModuleDecl JSON stack ast id) as [item | e]
      eqn:Hitem; [| discriminate].
    apply renderModuleDecl_ok in Hitem
      as (stack' & d' & units & -> & Hnode' & _ & ->).
    injection H as <-. entry_facts.
  - cbn [renderAnyDecl] in H. unfold renderProductTypeDecl in H.
    rewrite Hnode in H. injection H as <-. entry_facts.
  - cbn [renderAnyDecl] in H. unfold renderParameterDecl in H.
    rewrite Hnode in H. injection H as <-. entry_facts.
  - rewrite (renderAnyDecl_other JSON ast stack id Hnode) in H.
    injection H as <-. entry_facts.
Qed.

Lemma declaration_entry_witness :
  exists item,
    renderAnyDecl sampleJSON 1 sampleAst (mkNodeID 0 6) = Ok (some item) /\
    value item = idText "0" "6" /\
    actions item = Some [highlightAction].
Proof.
  destruct (renderAnyDecl sampleJSON 1 sampleAst (mkNodeID 0 6))
    as [[| | item] | e] eqn:Hentry; try discriminate.
  exists item. split; [reflexivity |].
  destruct (@declaration_entry sampleJSON 1 sampleAst (mkNodeID 0 6) _ _
              eq_refl Hentry) as (_ & _ & Hitem).
  destruct (Hitem item eq_refl) as (Hvalue & Haction & _).
  split; [exact Hvalue |].
  apply Haction. eexists. reflexivity.
Defined.


Lemma accessors_function_only (n : ASTNode) :
  (exists d, n = N_FunctionDecl d) \/
  asFunctionDecl (some n) = Throw (Error "Expected FunctionDecl").
Proof.
  destruct n as [| d | d | d | d | d | kind Hfresh];
    try (right; reflexivity); [left; now exists d |].
  right. fresh_keys Hfresh. unfold asFunctionDecl, asX, hasKey.
  cbn -[String.eqb]. rewrite String.eqb_sym. now rewrite Hfunction.
Qed.

Lemma mapM_Forall2 {A B : Type} (f : A -> Result B) (arr : list A)
    (items : list B) :
  mapM f arr = Ok items -> Forall2 (fun a b => f a = Ok b) arr items.
Proof.
  revert items. induction arr as [| a arr IH]; intros items H; cbn in H.
  - injection H as <-. constructor.
  - destruct (f a) as [b | e] eqn:Ha; [| discriminate]. cbn in H.
    destruct (mapM f arr) as [rest | e]; [| discriminate].
    injection H as <-. constructor; [assumption | now apply IH].
Qed.

(** X5: the projected tree mirrors the snapshot.  The item of a module
    has its base name as label and, in order, one item for each of its
    sources; the item of a translation unit has the file name as label,
    the URL as tooltip and, in order, one entry for each of its
    declarations, an item or [undefined]; the item of a function has its
    name as label and one child "parameters" with, in order, one item for
    each parameter.  Every item carries the serialized identifier of its
    node. *)
Theorem tree_mirrors_snapshot (JSON : JSONApi) (stack : nat) (ast : AST)
    (id : NodeID) (item : TreeItem) :
  (renderModuleDecl JSON stack ast id = Ok item ->
   exists d,
     node ast id = Ok (some (N_ModuleDecl d)) /\
     label item = ModuleDecl.baseName d /\
     value item = stringify JSON id /\
     Forall2 (fun source entry =>
                exists unit,
                  entry = some unit /\ value unit = stringify JSON source)
       (ModuleDecl.sources d) (subItems item)) /\
  (renderTranslationUnitDecl JSON stack ast id = Ok item ->
   exists d,
     node ast id = Ok (some (N_TranslationUnit d)) /\
     label item = fileName (fileUrl (TranslationUnit.site d)) /\
     tooltip item = Some (fileUrl (TranslationUnit.site d)) /\
     value item = stringify JSON id /\
     Forall2 (fun decl entry =>
                entry = undefined \/
                exists declItem,
                  entry = some declItem /\
                  value declItem = stringify JSON decl)
       (TranslationUnit.decls d) (subItems item)) /\
  (renderFunctionDecl JSON ast id = Ok item ->
   exists d group,
     node ast id = Ok (some (N_FunctionDecl d)) /\
     label item = FunctionDecl.name d /\
     value item = stringify JSON id /\
     subItems item = [some group] /\
     label group = "parameters" /\
     Forall2 (fun parameter entry =>
                exists parameterItem,
                  entry = some parameterItem /\
                  value parameterItem = stringify JSON parameter)
       (FunctionDecl.parameters d) (subItems group)).
Proof.
  split; [| split].
  - intros H.
    apply renderModuleDecl_ok in H
      as (stack' & d & units & -> & Hnode & Hunits & ->).
    exists d. repeat split; try assumption. cbn [subItems].
    apply mapM_Forall2 in Hunits.
    induction Hunits as [| source unit sources units Hunit _ IH];
      cbn; constructor; [| exact IH].
    exists unit. split; [reflexivity |].
    apply renderTranslationUnitDecl_ok in Hunit
      as (? & ? & ? & _ & _ & _ & ->).
    reflexivity.
  - intros H.
    apply renderTranslationUnitDecl_ok in H
      as (stack' & d & items & -> & Hnode & Hitems & ->).
    exists d. repeat split; try assumption. cbn [subItems].
    apply mapM_Forall2 in Hitems.
    induction Hitems as [| decl entry decls entries Hentry _ IH];
      constructor; [| exact IH].
    destruct (renderAnyDecl_ok _ _ _ _ Hentry) as (? & n & _ & Hn).
    destruct (renderAnyDecl_entry _ _ _ _ Hn Hentry) as (_ & Hnull & Hitem).
    destruct entry as [| | declItem]; [now left | contradiction |].
    right. exists declItem. split; [reflexivity |].
    exact (proj1 (Hitem declItem eq_refl)).
  - intros H.
    destruct (node ast id) as [[| | n] | e] eqn:Hnode;
      try (unfold renderFunctionDecl in H; rewrite Hnode in H; discriminate).
    destruct (accessors_function_only n) as [(d & ->) | Hthrow].
    + rewrite (renderFunctionDecl_resolved JSON ast id Hnode) in H.
      destruct (mapM (renderParameterDecl JSON ast)
                  (FunctionDecl.parameters d)) as [params |] eqn:Hparams;
        [| discriminate].
      injection H as <-. eexists d, _.
      repeat split; try reflexivity. cbn [subItems].
      apply mapM_Forall2 in Hparams.
      induction Hparams as [| p pItem ps pItems Hp _ IH];
        cbn; constructor; [| exact IH].
      exists pItem. split; [reflexivity |].
      unfold renderParameterDecl in Hp.
      destruct (node ast p) as [resolved |]; [| discriminate].
      cbn in Hp. destruct (asParameterDecl resolved); [| discriminate].
      now injection Hp as <-.
    + unfold renderFunctionDecl in H. rewrite Hnode in H. cbn [bind] in H.
      rewrite Hthrow in H. discriminate.
Qed.

Lemma tree_mirrors_snapshot_witness :
  exists item d,
    renderModuleDecl sampleJSON 3 sampleAst (mkNodeID 0 3) = Ok item /\
    node sampleAst (mkNodeID 0 3) = Ok (some (N_ModuleDecl d)) /\
    label item = ModuleDecl.baseName d /\
    length (subItems item) = length (ModuleDecl.sources d).
Proof.
  destruct (renderModuleDecl sampleJSON 3 sampleAst (mkNodeID 0 3))
    as [item | e] eqn:Hitem; [| discriminate].
  destruct (proj1 (tree_mirrors_snapshot sampleJSON 3 sampleAst
                     (mkNodeID 0 3) item) Hitem)
    as (d & Hnode & Hlabel & _ & Hsources).
  exists item, d. repeat split; try assumption.
  symmetry. exact (Forall2_length Hsources).
Defined.

(* ================================================================== *)
(** * More about the listeners *)
(* ================================================================== *)

Section MoreListeners.

Variable JSON : JSONApi.

Lemma openSourceFile_run (value : string) (w : World) (ast : AST)
    (id : NodeID) (n : Maybe ASTNode) :
  this_ast w = some ast ->
  parseNodeID JSON value = Ok (some id) ->
  node ast id = Ok n ->
  onRunAction JSON "openSourceFile" value w
  = match asTranslationUnit n with
    | Ok d =>
        postMessage (OpenFileMessage (fileUrl (TranslationUnit.site d))) w
    | Throw e => (Throw e, w)
    end.
Proof.
  intros Hast Hparse Hnode. destruct w; cbn in Hast; subst.
  unfold onRunAction. cbn [String.eqb Ascii.eqb Bool.eqb]. run_listener.
  rewrite Hparse. cbn [bind deref this_ast]. rewrite Hnode. cbn [bind].
  destruct (asTranslationUnit n); reflexivity.
Qed.

Lemma onRunAction_rejected (value : string) (w : World) (e : JsError) :
  parseNodeID JSON value = Throw e ->
  onRunAction JSON "openSourceFile" value w = (Throw e, w) /\
  onRunAction JSON "highlightFullDeclaration" value w
  = (Throw e,
     {| this_ast := this_ast w; astTreeView_data := astTreeView_data w;
        posted := posted w;
        console := console w ++ [["highlightFullDeclaration"]] |}).
Proof.
  intros Hparse. unfold onRunAction. cbn [String.eqb Ascii.eqb Bool.eqb].
  run_listener. rewrite Hparse. split; reflexivity.
Qed.

Lemma onRunAction_other (actionId value : string) (w : World) :
  actionId <> "openSourceFile" ->
  actionId <> "highlightFullDeclaration" ->
  onRunAction JSON actionId value w = (Ok tt, w).
Proof.
  intros Hopen Hhighlight. unfold onRunAction.
  apply String.eqb_neq in Hopen, Hhighlight.
  now rewrite Hopen, Hhighlight.
Qed.

End MoreListeners.

(** X6: selecting the entry that projection made for a translation unit
    opens the file named in the entry's tooltip.  The entry's [value] is
    the serialized identifier, which the listener parses back. *)
Theorem select_rendered_unit (JSON : JSONApi) (stack : nat) (ast : AST)
    (id : NodeID) (item : TreeItem) (w : World) :
  this_ast w = some ast ->
  parseNodeID JSON (stringify JSON id) = Ok (some id) ->
  renderTranslationUnitDecl JSON stack ast id = Ok item ->
  exists url,
    tooltip item = Some url /\
    onSelect JSON (value item) w = postMessage (OpenFileMessage url) w.
Proof.
  intros Hast Hparse Hitem.
  apply renderTranslationUnitDecl_ok in Hitem
    as (stack' & d & items & -> & Hnode & _ & ->).
  exists (fileUrl (TranslationUnit.site d)). split; [reflexivity |].
  cbn [value].
  now rewrite (onSelect_resolved JSON (stringify JSON id) w Hast Hparse Hnode).
Qed.

Lemma select_rendered_unit_witness :
  exists item,
    renderTranslationUnitDecl sampleJSON 2 sampleAst (mkNodeID 0 2) = Ok item /\
    onSelect sampleJSON (value item) sampleWorld
    = postMessage (OpenFileMessage "file:///a.src") sampleWorld.
Proof.
  destruct (renderTranslationUnitDecl sampleJSON 2 sampleAst (mkNodeID 0 2))
    as [item | e] eqn:Hitem; [| discriminate].
  exists item. split; [reflexivity |].
  destruct (@select_rendered_unit sampleJSON 2 sampleAst (mkNodeID 0 2) item
              sampleWorld eq_refl eq_refl Hitem) as (url & Hurl & Hselect).
  rewrite Hselect. f_equal. f_equal.
  assert (Htooltip : tooltip item = Some "file:///a.src").
  { revert Hitem. clear. intros Hitem. cbv in Hitem.
    injection Hitem as <-. reflexivity. }
  congruence.
Defined.

(** X7: an entry that projection made with the "highlight declaration"
    action never leaves the action inert: running it with the entry's
    [value] returns normally and emits exactly one
    [HighlightFullDeclaration] message, carrying the site of the node that
    the entry stands for. *)
Theorem highlight_rendered_entry (JSON : JSONApi) (stack : nat) (ast : AST)
    (id : NodeID) (item : TreeItem) (w : World) :
  this_ast w = some ast ->
  parseNodeID JSON (stringify JSON id) = Ok (some id) ->
  renderAnyDecl JSON stack ast id = Ok (some item) \/
  renderTranslationUnitDecl JSON stack ast id = Ok item ->
  actions item = Some [highlightAction] ->
  exists n range,
    node ast id = Ok (some n) /\
    siteOf (some n) = Ok (some range) /\
    fst (onRunAction JSON "highlightFullDeclaration" (value item) w) = Ok tt /\
    posted (snd (onRunAction JSON "highlightFullDeclaration" (value item) w))
    = posted w ++ [HighlightFullDeclarationMessage range].
Proof.
  intros Hast Hparse Hitem Haction.
  assert (Hfacts : exists n range,
             node ast id = Ok (some n) /\
             siteOf (some n) = Ok (some range) /\
             value item = stringify JSON id).
  { destruct Hitem as [Hitem | Hitem].
    - destruct (renderAnyDecl_ok _ _ _ _ Hitem) as (? & n & _ & Hnode).
      destruct (renderAnyDecl_entry _ _ _ _ Hnode Hitem) as (_ & _ & Hentry).
      destruct (Hentry item eq_refl) as (Hvalue & Hsite & _).
      destruct (proj1 Hsite Haction) as [range Hrange].
      now exists n, range.
    - apply renderTranslationUnitDecl_ok in Hitem
        as (stack' & d & items & -> & Hnode & _ & ->).
      exists (N_TranslationUnit d), (TranslationUnit.site d).
      repeat split; assumption. }
  destruct Hfacts as (n & range & Hnode & Hrange & ->).
  exists n, range. split; [assumption |]. split; [assumption |].
  rewrite (highlight_run JSON (stringify JSON id) w Hast Hparse Hnode).
  rewrite Hrange. cbv zeta. split; reflexivity.
Qed.

Lemma highlight_rendered_entry_witness :
  exists item range,
    renderAnyDecl sampleJSON 1 sampleAst (mkNodeID 0 1) = Ok (some item) /\
    posted (snd (onRunAction sampleJSON "highlightFullDeclaration"
                   (value item) sampleWorld))
    = posted sampleWorld ++ [HighlightFullDeclarationMessage range].
Proof.
  destruct (renderAnyDecl sampleJSON 1 sampleAst (mkNodeID 0 1))
    as [[| | item] | e] eqn:Hitem; try discriminate.
  assert (Haction : actions item = Some [highlightAction]).
  { revert Hitem. clear. intros Hitem. cbv in Hitem.
    injection Hitem as <-. reflexivity. }
  destruct (@highlight_rendered_entry sampleJSON 1 sampleAst (mkNodeID 0 1)
              item sampleWorld eq_refl eq_refl (or_introl Hitem) Haction)
    as (n & range & _ & _ & _ & Hposted).
  exists item, range. split; [reflexivity | exact Hposted].
Defined.

(** X8: the [vsc-select] listener ignores a value that is no serialized
    identifier: whether [JSON.parse] throws on it or returns [null], the
    listener returns normally, writes one console line and changes nothing
    else.  The synthetic "parameters" entry, whose value is the text [n],
    is such an entry. *)
Theorem select_ignores_bad_value (JSON : JSONApi) (value : string)
    (w : World) :
  (exists e, parseNodeID JSON value = Throw e) \/
  parseNodeID JSON value = Ok null ->
  onSelect JSON value w
  = (Ok tt,
     {| this_ast := this_ast w; astTreeView_data := astTreeView_data w;
        posted := posted w;
        console := console w ++ [["error parsing nodeId "; value]] |}).
Proof.
  intros [[e Hparse] | Hparse]; unfold onSelect; run_listener;
    rewrite Hparse; reflexivity.
Qed.

Lemma select_ignores_bad_value_witness :
  onSelect sampleJSON "n" sampleWorld
  = (Ok tt,
     {| this_ast := this_ast sampleWorld;
        astTreeView_data := astTreeView_data sampleWorld;
        posted := posted sampleWorld;
        console := console sampleWorld ++ [["error parsing nodeId "; "n"]] |}).
Proof.
  exact (@select_ignores_bad_value sampleJSON "n" sampleWorld
           (or_introl (ex_intro _ SyntaxError eq_refl))).
Defined.

(** X9: the "open source file" action works for translation units only:
    on an entry that resolves to a translation unit it emits
    [OpenSourceFile] with the unit's file URL, and on an entry that
    resolves to a node of any other kind it throws [Expected
    TranslationUnit] and emits nothing. *)
Theorem open_action_only_for_units (JSON : JSONApi) (w : World)
    (value : string) (ast : AST) (id : NodeID) (n : ASTNode) :
  this_ast w = some ast ->
  parseNodeID JSON value = Ok (some id) ->
  node ast id = Ok (some n) ->
  (forall d, n = N_TranslationUnit d ->
     onRunAction JSON "openSourceFile" value w
     = postMessage (OpenFileMessage (fileUrl (TranslationUnit.site d))) w) /\
  ((forall d, n <> N_TranslationUnit d) ->
   onRunAction JSON "openSourceFile" value w
   = (Throw (Error "Expected TranslationUnit"), w)).
Proof.
  intros Hast Hparse Hnode.
  rewrite (openSourceFile_run JSON value w Hast Hparse Hnode). split.
  - now intros d ->.
  - intros Hkind. now rewrite (asTranslationUnit_mismatch Hkind).
Qed.

Lemma open_action_only_for_units_witness :
  onRunAction sampleJSON "openSourceFile" (idText "0" "2") sampleWorld
  = postMessage (OpenFileMessage "file:///a.src") sampleWorld /\
  onRunAction sampleJSON "openSourceFile" (idText "0" "0") sampleWorld
  = (Throw (Error "Expected TranslationUnit"), sampleWorld).
Proof.
  split.
  - exact (proj1 (@open_action_only_for_units sampleJSON sampleWorld
                    (idText "0" "2") sampleAst (mkNodeID 0 2) _
                    eq_refl eq_refl eq_refl) _ eq_refl).
  - refine (proj2 (@open_action_only_for_units sampleJSON sampleWorld
                     (idText "0" "0") sampleAst (mkNodeID 0 0) _
                     eq_refl eq_refl eq_refl) _).
    intros d. discriminate.
Defined.

(** X10: the [vsc-run-action] listener has no [try]: when [JSON.parse]
    throws on the entry's value, both actions let that exception out of
    the listener and emit no message. *)
Theorem action_propagates_parse_error (JSON : JSONApi) (value : string)
    (w : World) (e : JsError) :
  parseNodeID JSON value = Throw e ->
  onRunAction JSON "openSourceFile" value w = (Throw e, w) /\
  fst (onRunAction JSON "highlightFullDeclaration" value w) = Throw e /\
  posted (snd (onRunAction JSON "highlightFullDeclaration" value w))
  = posted w.
Proof.
  intros Hparse.
  destruct (onRunAction_rejected JSON value w Hparse) as [Hopen ->].
  repeat split. exact Hopen.
Qed.

Lemma action_propagates_parse_error_witness :
  onRunAction sampleJSON "openSourceFile" "n" sampleWorld
  = (Throw SyntaxError, sampleWorld).
Proof.
  exact (proj1 (@action_propagates_parse_error sampleJSON "n" sampleWorld
                  SyntaxError eq_refl)).
Defined.

(** Decide [OnlyAppends] between two concrete worlds. *)
Ltac frame :=
  unfold OnlyAppends; cbn; repeat split;
  first [ exists []; split; [now rewrite app_nil_r | cbn; lia]
        | eexists [_]; split; [reflexivity | cbn; lia] ].

(** X11: the selection and action listeners never touch the snapshot or
    the tree: whatever the event carries and however the run ends, the
    view's [ast] and the tree's [data] are unchanged, and each of the two
    logs (messages to the host, console) has grown by at most one entry at
    its end. *)
Theorem listeners_only_append (JSON : JSONApi) (actionId value : string)
    (w : World) :
  OnlyAppends w (snd (onSelect JSON value w)) /\
  OnlyAppends w (snd (onRunAction JSON actionId value w)).
Proof.
  destruct w as [current data messages lines]. split.
  - unfold onSelect. run_listener.
    destruct (parseNodeID JSON value) as [[| | id] | e]; cbn [bind deref];
      try solve [frame].
    + destruct current as [| | ast]; frame.
    + destruct current as [| | ast]; cbn [bind deref this_ast];
        try solve [frame].
      destruct (node ast id) as [n | e]; cbn [bind]; [| frame].
      destruct (isTranslationUnit n) as [[|] | e]; cbn [bind];
        try solve [frame].
      destruct (payloadOf TranslationUnit.t n); frame.
  - unfold onRunAction.
    destruct (actionId =? "openSourceFile").
    + run_listener.
      destruct (parseNodeID JSON value) as [nodeId | e]; cbn [bind snd];
        [| frame].
      destruct current as [| | ast]; cbn [bind deref snd this_ast];
        try solve [frame].
      destruct nodeId as [| | id]; cbn [bind deref snd]; try solve [frame].
      destruct (node ast id) as [n | e]; cbn [bind snd]; [| frame].
      destruct (asTranslationUnit n); frame.
    + destruct (actionId =? "highlightFullDeclaration"); [| frame].
      run_listener. cbn [this_ast].
      destruct (parseNodeID JSON value) as [nodeId | e]; cbn [bind snd];
        [| frame].
      destruct current as [| | ast]; cbn [bind deref snd];
        try solve [frame].
      destruct nodeId as [| | id]; cbn [bind deref snd]; try solve [frame].
      destruct (node ast id) as [n | e]; cbn [bind snd]; [| frame].
      destruct (siteOf n) as [[| | range] | e]; frame.
Qed.

(** X12: the outcomes of the [input] listener.  It never emits a message
    and never writes to the console.  When it throws, the text was parsed,
    the view's [ast] already holds the parsed value and the tree still
    shows what it showed before.  When it returns normally, either the
    text was rejected by [JSON.parse], the tree is empty and the view's
    [ast] is the one from before, or the text was parsed to a snapshot,
    which is now the view's [ast], and the tree has one entry for each
    entry of [modulesIds]. *)
Theorem input_outcomes (JSON : JSONApi) (stackDepth : nat) (text : string)
    (w : World) :
  let run := onInput JSON stackDepth text w in
  posted (snd run) = posted w /\
  console (snd run) = console w /\
  (forall e,
     fst run = Throw e ->
     exists parsed,
       parseAST JSON text = Ok parsed /\
       this_ast (snd run) = parsed /\
       astTreeView_data (snd run) = astTreeView_data w) /\
  (fst run = Ok tt ->
   (exists e,
      parseAST JSON text = Throw e /\
      this_ast (snd run) = this_ast w /\
      astTreeView_data (snd run) = []) \/
   (exists ast,
      parseAST JSON text = Ok (some ast) /\
      this_ast (snd run) = some ast /\
      length (astTreeView_data (snd run)) = length (modulesIds ast))).
Proof.
  destruct w as [current data messages lines].
  unfold onInput, updateAst. run_listener.
  destruct (parseAST JSON text) as [[| | ast] | e]; cbn.
  - repeat split; try discriminate. intros e [= <-]. now exists undefined.
  - repeat split; try discriminate. intros e [= <-]. now exists null.
  - destruct (mapM (renderModuleDecl JSON stackDepth ast) (modulesIds ast))
      as [items | e] eqn:Hitems; cbn.
    + repeat split; try discriminate. intros _. right. exists ast.
      repeat split. rewrite length_map. exact (mapM_length _ _ Hitems).
    + repeat split; try discriminate. intros e' [= <-]. now exists (some ast).
  - repeat split; try discriminate. intros _. left. now exists e.
Qed.

(* ================================================================== *)
(** * Projection and the depth of the call stack *)
(* ================================================================== *)

Lemma mapM_stable {A B : Type} (f g : A -> Result B) (arr : list A) :
  (forall a, In a arr -> f a <> Throw RangeError -> g a = f a) ->
  mapM f arr <> Throw RangeError ->
  mapM g arr = mapM f arr.
Proof.
  induction arr as [| a arr IH]; intros Hstable Hresult; [reflexivity |].
  cbn [mapM] in *.
  destruct (f a) as [b | e] eqn:Ha; cbn [bind] in Hresult.
  - rewrite (Hstable a (or_introl eq_refl)) by (rewrite Ha; discriminate).
    rewrite Ha. cbn [bind].
    rewrite IH; [reflexivity | intros; apply Hstable; auto using in_cons |].
    intros Hrest. rewrite Hrest in Hresult. now apply Hresult.
  - rewrite (Hstable a (or_introl eq_refl)); [now rewrite Ha |].
    rewrite Ha. intros [= ->]. now apply Hresult.
Qed.

Lemma bind_not_RangeError {A B : Type} (m : Result A) (k : A -> Result B) :
  bind m k <> Throw RangeError -> m <> Throw RangeError.
Proof.
  intros H Hm. apply H. now rewrite Hm.
Qed.

Section StackDepth.

Variable JSON : JSONApi.
Variable ast : AST.

Lemma render_stable (stack : nat) :
  forall stack' id,
    stack <= stack' ->
    (renderModuleDecl JSON stack ast id <> Throw RangeError ->
     renderModuleDecl JSON stack' ast id = renderModuleDecl JSON stack ast id) /\
    (renderTranslationUnitDecl JSON stack ast id <> Throw RangeError ->
     renderTranslationUnitDecl JSON stack' ast id
     = renderTranslationUnitDecl JSON stack ast id) /\
    (renderAnyDecl JSON stack ast id <> Throw RangeError ->
     renderAnyDecl JSON stack' ast id = renderAnyDecl JSON stack ast id).
Proof.
  induction stack as [| stack IH]; intros stack' id Hle.
  - repeat split; intros H; now contradiction H.
  - destruct stack' as [| stack']; [lia |].
    assert (Hle' : stack <= stack') by lia.
    repeat split; intros H.
    + cbn [renderModuleDecl] in *.
      destruct (node ast id) as [resolved | e]; [| reflexivity].
      cbn [bind] in *.
      destruct (asModuleDecl resolved) as [d | e]; [| reflexivity].
      cbn [bind] in *.
      rewrite (mapM_stable (renderTranslationUnitDecl JSON stack ast)
                 (renderTranslationUnitDecl JSON stack' ast));
        [reflexivity | | exact (@bind_not_RangeError _ _ _ _ H)].
      intros source _. apply (IH stack' source Hle').
    + cbn [renderTranslationUnitDecl] in *.
      destruct (node ast id) as [resolved | e]; [| reflexivity].
      cbn [bind] in *.
      destruct (asTranslationUnit resolved) as [d | e]; [| reflexivity].
      cbn [bind] in *.
      rewrite (mapM_stable (renderAnyDecl JSON stack ast)
                 (renderAnyDecl JSON stack' ast));
        [reflexivity | | exact (@bind_not_RangeError _ _ _ _ H)].
      intros decl _. apply (IH stack' decl Hle').
    + cbn [renderAnyDecl] in *.
      destruct (node ast id) as [resolved | e]; [| reflexivity].
      cbn [bind] in *.
      destruct (nodeKind resolved) as [kind | e]; [| reflexivity].
      cbn [bind] in *.
      destruct (kind =? "ModuleDecl").
      { destruct (IH stack' id Hle') as (Hmodule & _ & _).
        rewrite Hmodule; [reflexivity | exact (@bind_not_RangeError _ _ _ _ H)]. }
      destruct (kind =? "FunctionDecl"); [reflexivity |].
      destruct (kind =? "TranslationUnit").
      { destruct (IH stack' id Hle') as (_ & Hunit & _).
        rewrite Hunit; [reflexivity | exact (@bind_not_RangeError _ _ _ _ H)]. }
      reflexivity.
Qed.

End StackDepth.

(** X13: the outcome of projection does not depend on how deep the call
    stack is, as long as it is deep enough: when projection on a stack of
    some depth ends in anything but the engine's [RangeError] (a tree, or
    another exception), it ends in the same way, with the same tree, on
    every deeper stack. *)
Theorem projection_independent_of_stack (JSON : JSONApi) (ast : AST)
    (stack stack' : nat) (w : World) :
  stack <= stack' ->
  fst (updateAst JSON stack (some ast) w) <> Throw RangeError ->
  updateAst JSON stack' (some ast) w = updateAst JSON stack (some ast) w.
Proof.
  intros Hle Hresult. rewrite !updateAst_run in *.
  rewrite (mapM_stable (renderModuleDecl JSON stack ast)
             (renderModuleDecl JSON stack' ast)); [reflexivity | |].
  - intros id _. apply (@render_stable JSON ast stack stack' id Hle).
  - intros Hrange. rewrite Hrange in Hresult. now apply Hresult.
Qed.

Lemma projection_independent_of_stack_witness :
  updateAst sampleJSON 40 (some sampleAst) initialWorld
  = updateAst sampleJSON 3 (some sampleAst) initialWorld.
Proof.
  apply (@projection_independent_of_stack sampleJSON sampleAst 3 40
           initialWorld).
  - repeat constructor.
  - discriminate.
Defined.

Section Cycles.

Variable JSON : JSONApi.
Variable ast : AST.

(** A render call that returns has made, one level or more further down
    the stack, the render call of each node it refers to, and that call
    has returned. *)
Lemma refers_descends (stack : nat) (role role' : Role) (id id' : NodeID) :
  Renders JSON stack ast role id ->
  Refers ast role id role' id' ->
  exists stack', stack' < stack /\ Renders JSON stack' ast role' id'.
Proof.
  intros Hrenders Hrefers.
  destruct Hrefers as [role m d s Hrole Hnode Hin
                      | role u d c Hrole Hnode Hin
                      | f d p Hnode Hin].
  - assert (Hmodule : exists stack1 item,
               stack1 <= stack /\
               renderModuleDecl JSON stack1 ast m = Ok item).
    { destruct Hrole as [-> | ->]; destruct Hrenders as [result Hresult].
      - now exists stack, result.
      - destruct stack as [| stack1]; [discriminate |].
        rewrite (renderAnyDecl_module JSON ast stack1 m Hnode) in Hresult.
        destruct (renderModuleDecl JSON stack1 ast m) as [item |] eqn:Hitem;
          [| discriminate].
        exists stack1, item. split; [lia | exact Hitem]. }
    destruct Hmodule as (stack1 & item & Hle & Hitem).
    apply renderModuleDecl_ok in Hitem
      as (stack2 & d' & units & -> & Hnode' & Hunits & _).
    assert (d' = d) by congruence. subst d'.
    destruct (mapM_ok_each _ _ Hunits s Hin) as (unit & Hunit & _).
    exists stack2. split; [lia | now exists unit].
  - assert (Hunit : exists stack1 item,
               stack1 <= stack /\
               renderTranslationUnitDecl JSON stack1 ast u = Ok item).
    { destruct Hrole as [-> | ->]; destruct Hrenders as [result Hresult].
      - now exists stack, result.
      - destruct stack as [| stack1]; [discriminate |].
        rewrite (renderAnyDecl_unit JSON ast stack1 u Hnode) in Hresult.
        destruct (renderTranslationUnitDecl JSON stack1 ast u)
          as [item |] eqn:Hitem; [| discriminate].
        exists stack1, item. split; [lia | exact Hitem]. }
    destruct Hunit as (stack1 & item & Hle & Hitem).
    apply renderTranslationUnitDecl_ok in Hitem
      as (stack2 & d' & items & -> & Hnode' & Hitems & _).
    assert (d' = d) by congruence. subst d'.
    destruct (mapM_ok_each _ _ Hitems c Hin) as (entry & Hentry & _).
    exists stack2. split; [lia | now exists entry].
  - destruct Hrenders as [result Hresult].
    destruct stack as [| stack1]; [discriminate |].
    rewrite (renderAnyDecl_function JSON ast stack1 f Hnode) in Hresult.
    rewrite (renderFunctionDecl_resolved JSON ast f Hnode) in Hresult.
    destruct (mapM (renderParameterDecl JSON ast) (FunctionDecl.parameters d))
      as [params |] eqn:Hparams; [| discriminate].
    destruct (mapM_ok_each _ _ Hparams p Hin) as (item & Hitem & _).
    exists stack1. split; [lia | now exists item].
Qed.

Lemma path_descends (role role' : Role) (id id' : NodeID) :
  RefersPath ast role id role' id' ->
  forall stack,
    Renders JSON stack ast role id ->
    exists stack', stack' < stack /\ Renders JSON stack' ast role' id'.
Proof.
  induction 1 as [role id role' id' Hrefers
                 | role id role1 id1 role' id' Hrefers _ IH];
    intros stack Hrenders.
  - eapply refers_descends; eassumption.
  - destruct (@refers_descends _ _ _ _ _ Hrenders Hrefers)
      as (stack1 & Hlt & Hnext).
    destruct (IH stack1 Hnext) as (stack' & Hlt' & Hlast).
    exists stack'. split; [lia | assumption].
Qed.

(** A node on a cycle of references is rendered on no call stack. *)
Lemma cycle_never_renders (role : Role) (id : NodeID) :
  RefersPath ast role id role id ->
  forall stack, ~ Renders JSON stack ast role id.
Proof.
  intros Hcycle stack.
  induction stack as [stack IH] using lt_wf_ind. intros Hrenders.
  destruct (@path_descends _ _ _ _ Hcycle _ Hrenders)
    as (stack' & Hlt & Hagain).
  exact (IH stack' Hlt Hagain).
Qed.

(** When projection of the roots returns, the render call of every node
    that traversal reaches has returned. *)
Lemma visited_renders (stackDepth : nat) (items : list TreeItem) :
  mapM (renderModuleDecl JSON stackDepth ast) (modulesIds ast) = Ok items ->
  forall role id,
    Visited ast role id -> exists stack, Renders JSON stack ast role id.
Proof.
  intros Hitems role id Hvisited.
  induction Hvisited as [id Hroot | role id role' id' _ IH Hrefers].
  - destruct (mapM_ok_each _ _ Hitems id Hroot) as (item & Hitem & _).
    exists stackDepth. now exists item.
  - destruct IH as [stack Hrenders].
    destruct (@refers_descends _ _ _ _ _ Hrenders Hrefers)
      as (stack' & _ & Hnext).
    now exists stack'.
Qed.

End Cycles.

(** X14: a snapshot in which traversal reaches a cycle of references (a
    translation unit that declares itself, a module among the declarations
    of one of its own units, ...) is never projected: on every call stack,
    however deep, [updateAst] throws. *)
Theorem cyclic_snapshot_never_projects (JSON : JSONApi) (ast : AST)
    (role : Role) (id : NodeID) (stackDepth : nat) (w : World) :
  Visited ast role id ->
  RefersPath ast role id role id ->
  exists e, fst (updateAst JSON stackDepth (some ast) w) = Throw e.
Proof.
  intros Hvisited Hcycle. rewrite updateAst_run.
  destruct (mapM (renderModuleDecl JSON stackDepth ast) (modulesIds ast))
    as [items | e] eqn:Hitems; [| now exists e].
  exfalso.
  destruct (@visited_renders JSON ast stackDepth items Hitems role id
              Hvisited) as [stack Hrenders].
  exact (@cycle_never_renders JSON ast role id Hcycle stack Hrenders).
Qed.

Lemma cyclic_snapshot_never_projects_witness :
  Visited cyclicAst AsDecl (mkNodeID 0 0) /\
  RefersPath cyclicAst AsDecl (mkNodeID 0 0) AsDecl (mkNodeID 0 0) /\
  exists e,
    fst (updateAst sampleJSON 1000 (some cyclicAst) initialWorld) = Throw e.
Proof.
  assert (Hroot : Visited cyclicAst AsModule (mkNodeID 0 1))
    by (apply visited_root; left; reflexivity).
  assert (Hunit : Visited cyclicAst AsUnit (mkNodeID 0 0)).
  { apply (visited_step Hroot).
    eapply refers_source;
      [left; reflexivity | reflexivity | left; reflexivity]. }
  assert (Hdecl : Visited cyclicAst AsDecl (mkNodeID 0 0)).
  { apply (visited_step Hunit).
    eapply refers_decl;
      [left; reflexivity | reflexivity | left; reflexivity]. }
  assert (Hcycle : RefersPath cyclicAst AsDecl (mkNodeID 0 0)
                     AsDecl (mkNodeID 0 0)).
  { apply path_one. eapply refers_decl;
      [right; reflexivity | reflexivity | left; reflexivity]. }
  split; [exact Hdecl |]. split; [exact Hcycle |].
  exact (@cyclic_snapshot_never_projects sampleJSON cyclicAst AsDecl
           (mkNodeID 0 0) 1000 initialWorld Hdecl Hcycle).
Defined.

(* ================================================================== *)
(** * The exceptions of projection *)
(* ================================================================== *)

Lemma asModuleDecl_cases (n : ASTNode) :
  (exists d, n = N_ModuleDecl d /\ asModuleDecl (some n) = Ok d) \/
  asModuleDecl (some n) = Throw (Error "Expected ModuleDecl").
Proof.
  destruct n as [| d | d | d | d | d | kind Hfresh];
    try (right; apply asModuleDecl_mismatch; discriminate).
  left. now exists d.
Qed.

Lemma asTranslationUnit_cases (n : ASTNode) :
  (exists d, n = N_TranslationUnit d /\ asTranslationUnit (some n) = Ok d) \/
  asTranslationUnit (some n) = Throw (Error "Expected TranslationUnit").
Proof.
  destruct n as [| d | d | d | d | d | kind Hfresh];
    try (right; apply asTranslationUnit_mismatch; discriminate).
  left. now exists d.
Qed.

Lemma asParameterDecl_cases (n : ASTNode) :
  (exists d, n = N_ParameterDecl d /\ asParameterDecl (some n) = Ok d) \/
  asParameterDecl (some n) = Throw (Error "Expected ParameterDecl").
Proof.
  destruct n as [| d | d | d | d | d | kind Hfresh];
    try (right; reflexivity); [left; now exists d |].
  right. fresh_keys Hfresh. unfold asParameterDecl, asX, hasKey.
  cbn -[String.eqb]. rewrite String.eqb_sym. now rewrite Hparameter.
Qed.

Section Exceptions.

Variable JSON : JSONApi.
Variable ast : AST.

Hypothesis Hbounds : TraversalInBounds ast.

Lemma visited_in_bounds (role : Role) (id : NodeID) :
  Visited ast role id -> exists n, node ast id = Ok (some n).
Proof.
  intros Hvisited. apply node_in_bounds. exact (Hbounds Hvisited).
Qed.

Lemma renderParameterDecl_throws (id : NodeID) (e : JsError) :
  Visited ast AsParameter id ->
  renderParameterDecl JSON ast id = Throw e ->
  ProjectionError e.
Proof.
  intros Hvisited H. destruct (visited_in_bounds Hvisited) as [n Hnode].
  unfold renderParameterDecl in H. rewrite Hnode in H. cbn [bind] in H.
  destruct (asParameterDecl_cases n) as [(d & -> & Hd) | Hthrow].
  - rewrite Hd in H. discriminate.
  - rewrite Hthrow in H. injection H as <-. unfold ProjectionError. tauto.
Qed.

Lemma renderFunctionDecl_throws (id : NodeID) (d : FunctionDecl.t)
    (e : JsError) :
  Visited ast AsDecl id ->
  node ast id = Ok (some (N_FunctionDecl d)) ->
  renderFunctionDecl JSON ast id = Throw e ->
  ProjectionError e.
Proof.
  intros Hvisited Hnode H.
  rewrite (renderFunctionDecl_resolved JSON ast id Hnode) in H.
  destruct (mapM (renderParameterDecl JSON ast) (FunctionDecl.parameters d))
    as [params | e'] eqn:Hparams; [discriminate |].
  injection H as <-.
  destruct (mapM_throw_from _ _ Hparams) as (p & Hp & Hthrow).
  apply (@renderParameterDecl_throws p e'); [| exact Hthrow].
  eapply visited_step; [exact Hvisited |].
  eapply refers_parameter; eassumption.
Qed.

Lemma render_throws (stack : nat) :
  (forall id role e,
     Visited ast role id -> role = AsModule \/ role = AsDecl ->
     renderModuleDecl JSON stack ast id = Throw e -> ProjectionError e) /\
  (forall id role e,
     Visited ast role id -> role = AsUnit \/ role = AsDecl ->
     renderTranslationUnitDecl JSON stack ast id = Throw e ->
     ProjectionError e) /\
  (forall id e,
     Visited ast AsDecl id ->
     renderAnyDecl JSON stack ast id = Throw e -> ProjectionError e).
Proof.
  induction stack as [| stack (IHmodule & IHunit & IHany)].
  - repeat split; intros; cbn in *;
      match goal with H : Throw _ = Throw _ |- _ => injection H as <- end;
      unfold ProjectionError; tauto.
  - assert (Hmodule : forall id role e,
               Visited ast role id -> role = AsModule \/ role = AsDecl ->
               renderModuleDecl JSON (S stack) ast id = Throw e ->
               ProjectionError e).
    { intros id role e Hvisited Hrole H.
      destruct (visited_in_bounds Hvisited) as [n Hnode].
      destruct (asModuleDecl_cases n) as [(d & -> & _) | Hthrow].
      - rewrite (renderModuleDecl_resolved JSON ast stack id Hnode) in H.
        destruct (mapM (renderTranslationUnitDecl JSON stack ast)
                    (ModuleDecl.sources d)) as [units | e'] eqn:Hunits;
          [discriminate |].
        injection H as <-.
        destruct (mapM_throw_from _ _ Hunits) as (s & Hs & Hthrow).
        apply (IHunit s AsUnit e'); [| now left | exact Hthrow].
        eapply visited_step; [exact Hvisited |].
        eapply refers_source; eassumption.
      - cbn [renderModuleDecl] in H. rewrite Hnode in H. cbn [bind] in H.
        rewrite Hthrow in H. injection H as <-.
        unfold ProjectionError. tauto. }
    assert (Hunit : forall id role e,
               Visited ast role id -> role = AsUnit \/ role = AsDecl ->
               renderTranslationUnitDecl JSON (S stack) ast id = Throw e ->
               ProjectionError e).
    { intros id role e Hvisited Hrole H.
      destruct (visited_in_bounds Hvisited) as [n Hnode].
      destruct (asTranslationUnit_cases n) as [(d & -> & _) | Hthrow].
      - rewrite (renderTranslationUnitDecl_resolved JSON ast stack id Hnode)
          in H.
        destruct (mapM (renderAnyDecl JSON stack ast)
                    (TranslationUnit.decls d)) as [items | e'] eqn:Hitems;
          [discriminate |].
        injection H as <-.
        destruct (mapM_throw_from _ _ Hitems) as (c & Hc & Hthrow).
        apply (IHany c e'); [| exact Hthrow].
        eapply visited_step; [exact Hvisited |].
        eapply refers_decl; eassumption.
      - cbn [renderTranslationUnitDecl] in H. rewrite Hnode in H.
        cbn [bind] in H. rewrite Hthrow in H. injection H as <-.
        unfold ProjectionError. tauto. }
    repeat split; try assumption.
    intros id e Hvisited H.
    destruct (visited_in_bounds Hvisited) as [n Hnode].
    destruct n as [| d | d | d | d | d | kind Hfresh].
    + rewrite (renderAnyDecl_missing JSON ast stack id Hnode) in H.
      discriminate.
    + rewrite (renderAnyDecl_function JSON ast stack id Hnode) in H.
      destruct (renderFunctionDecl JSON ast id) as [item | e'] eqn:Hitem;
        [discriminate |].
      injection H as <-.
      exact (renderFunctionDecl_throws Hvisited Hnode Hitem).
    + rewrite (renderAnyDecl_unit JSON ast stack id Hnode) in H.
      destruct (renderTranslationUnitDecl JSON stack ast id)
        as [item | e'] eqn:Hitem; [discriminate |].
      injection H as <-.
      exact (IHunit id AsDecl e' Hvisited (or_intror eq_refl) Hitem).
    + rewrite (renderAnyDecl_module JSON ast stack id Hnode) in H.
      destruct (renderModuleDecl JSON stack ast id)
        as [item | e'] eqn:Hitem; [discriminate |].
      injection H as <-.
      exact (IHmodule id AsDecl e' Hvisited (or_intror eq_refl) Hitem).
    + destruct (renderAnyDecl_product JSON ast stack id Hnode) as [item Hok].
      rewrite Hok in H. discriminate.
    + destruct (renderAnyDecl_parameter JSON ast stack id Hnode)
        as [item Hok].
      rewrite Hok in H. discriminate.
    + rewrite (renderAnyDecl_other JSON ast stack id Hnode) in H.
      discriminate.
Qed.

End Exceptions.

(** X15: on a snapshot in which every identifier referenced during
    traversal is in bounds, projection throws no [TypeError]: when
    [updateAst] throws, the exception is the engine's [RangeError] or the
    kind-mismatch error of [asModuleDecl], [asTranslationUnit] or
    [asParameterDecl]. *)
Theorem in_bounds_projection_errors (JSON : JSONApi) (ast : AST)
    (stackDepth : nat) (w : World) (e : JsError) :
  TraversalInBounds ast ->
  fst (updateAst JSON stackDepth (some ast) w) = Throw e ->
  ProjectionError e.
Proof.
  intros Hbounds H. rewrite updateAst_run in H.
  destruct (mapM (renderModuleDecl JSON stackDepth ast) (modulesIds ast))
    as [items | e'] eqn:Hitems; [discriminate |].
  injection H as <-.
  destruct (mapM_throw_from _ _ Hitems) as (id & Hroot & Hthrow).
  destruct (@render_throws JSON ast Hbounds stackDepth) as (Hmodule & _ & _).
  apply (Hmodule id AsModule e'); [| now left | exact Hthrow].
  now apply visited_root.
Qed.

Lemma in_bounds_projection_errors_witness :
  TraversalInBounds badParameterAst /\
  fst (updateAst sampleJSON 5 (some badParameterAst) initialWorld)
  = Throw (Error "Expected ParameterDecl") /\
  ProjectionError (Error "Expected ParameterDecl").
Proof.
  split; [exact badParameterAst_in_bounds |]. split; [reflexivity |].
  exact (@in_bounds_projection_errors sampleJSON badParameterAst 5
           initialWorld _ badParameterAst_in_bounds eq_refl).
Defined.

(* ================================================================== *)
(** * More about the host side *)
(* ================================================================== *)

(** X16: on sites whose coordinates are safe integers the conversion to
    editor coordinates loses nothing but the file URL: two such sites with
    the same selection have the same start and end positions.  Beyond the
    safe integers it loses more: the sites in lines 9007199254740996 and
    9007199254740998 are different and have the same selection. *)
Theorem toVscodeRange_faithful :
  (forall r r' l1 c1 l2 c2 l1' c1' l2' c2',
     IntegerSite r l1 c1 l2 c2 ->
     IntegerSite r' l1' c1' l2' c2' ->
     toVscodeRange r = toVscodeRange r' ->
     start r = start r' /\ end_ r = end_ r') /\
  start farSite <> start farSite' /\
  end_ farSite <> end_ farSite' /\
  toVscodeRange farSite = toVscodeRange farSite'.
Proof.
  split.
  - intros [[rl1 rc1] [rl2 rc2] url] [[rl1' rc1'] [rl2' rc2'] url']
      l1 c1 l2 c2 l1' c1' l2' c2'
      [(Hl1 & Hc1 & Hl2 & Hc2) (Sl1 & Sc1 & Sl2 & Sc2)]
      [(Hl1' & Hc1' & Hl2' & Hc2') (Sl1' & Sc1' & Sl2' & Sc2')] Hsame.
    cbn in Hl1, Hc1, Hl2, Hc2, Hl1', Hc1', Hl2', Hc2'. subst.
    unfold toVscodeRange in Hsame. cbn in Hsame.
    rewrite !minus_one_exact in Hsame by assumption.
    injection Hsame as H1 H2 H3 H4.
    unfold Safe in *.
    apply ofZ_injective in H1, H2, H3, H4; try lia.
    cbn. split; do 2 f_equal; lia.
  - split; [| split; [| reflexivity]].
    + intros H. apply (f_equal line) in H. vm_compute in H. discriminate.
    + intros H. apply (f_equal line) in H. vm_compute in H. discriminate.
Qed.

Lemma toVscodeRange_faithful_witness :
  IntegerSite siteA 1 1 4 2 /\
  IntegerSite siteP 8 8 8 18 /\
  (toVscodeRange siteA = toVscodeRange siteP ->
   start siteA = start siteP /\ end_ siteA = end_ siteP).
Proof.
  assert (HA : IntegerSite siteA 1 1 4 2)
    by (split; [repeat split |]; unfold Safe, exactBound; lia).
  assert (HP : IntegerSite siteP 8 8 8 18)
    by (split; [repeat split |]; unfold Safe, exactBound; lia).
  split; [exact HA |]. split; [exact HP |].
  exact (proj1 toVscodeRange_faithful siteA siteP 1 1 4 2 8 8 8 18 HA HP)%Z.
Defined.

(** X17: from a gesture in the tree to the editor.  For an entry whose
    identifier resolves to a node, selecting it makes the host open the
    file of a translation unit, keeping the focus, and makes it do nothing
    for any other node; the "highlight declaration" action makes the host
    open the file of the node's site with the selection that
    [toVscodeRange] makes of the site, which for a site with safe integer
    coordinates is the site with every coordinate one less; the action
    makes the host do nothing for a node without a site. *)
Theorem gesture_to_editor (JSON : JSONApi) (w : World) (value : string)
    (ast : AST) (id : NodeID) (n : ASTNode) :
  this_ast w = some ast ->
  parseNodeID JSON value = Ok (some id) ->
  node ast id = Ok (some n) ->
  hostCalls (snd (onSelect JSON value w))
  = hostCalls w
    ++ match n with
       | N_TranslationUnit d =>
           [vscode.showTextDocument
              (vscode.Uri_parse (fileUrl (TranslationUnit.site d)))
              {| vscode.preserveFocus := Some true;
                 vscode.selection := None |}]
       | _ => []
       end /\
  exists site,
    siteOf (some n) = Ok site /\
    hostCalls (snd (onRunAction JSON "highlightFullDeclaration" value w))
    = hostCalls w
      ++ match site with
         | some range =>
             [vscode.showTextDocument (vscode.Uri_parse (fileUrl range))
                {| vscode.preserveFocus := None;
                   vscode.selection := Some (toVscodeRange range) |}]
         | undefined | null => []
         end /\
    forall range l1 c1 l2 c2,
      site = some range ->
      IntegerSite range l1 c1 l2 c2 ->
      toVscodeRange range
      = vscode.mkRange (ofZ (l1 - 1)) (ofZ (c1 - 1))
          (ofZ (l2 - 1)) (ofZ (c2 - 1)).
Proof.
  intros Hast Hparse Hnode. unfold hostCalls. split.
  - rewrite (onSelect_resolved JSON value w Hast Hparse Hnode).
    destruct n as [| d | d | d | d | d | kind Hfresh];
      try solve [cbn; now rewrite ?app_nil_r, ?map_app].
    rewrite isTranslationUnit_other by discriminate.
    cbn. now rewrite app_nil_r.
  - destruct (siteOf_total n) as [site Hsite]. exists site.
    split; [exact Hsite |]. split.
    + rewrite (highlight_run JSON value w Hast Hparse Hnode), Hsite.
      destruct site as [| | range]; cbn; now rewrite ?app_nil_r, ?map_app.
    + intros range l1 c1 l2 c2 _
        [(Hl1 & Hc1 & Hl2 & Hc2) (Sl1 & Sc1 & Sl2 & Sc2)].
      unfold toVscodeRange. rewrite Hl1, Hc1, Hl2, Hc2.
      now rewrite !minus_one_exact by assumption.
Qed.

Lemma gesture_to_editor_witness :
  hostCalls (snd (onSelect sampleJSON (idText "0" "2") sampleWorld))
  = [vscode.showTextDocument (vscode.Uri_parse "file:///a.src")
       {| vscode.preserveFocus := Some true; vscode.selection := None |}] /\
  hostCalls (snd (onRunAction sampleJSON "highlightFullDeclaration"
                    (idText "0" "1") sampleWorld))
  = [vscode.showTextDocument (vscode.Uri_parse "file:///b.src")
       {| vscode.preserveFocus := None;
          vscode.selection :=
            Some (vscode.mkRange (ofZ 7) (ofZ 7) (ofZ 7) (ofZ 17)) |}].
Proof.
  split.
  - exact (proj1 (@gesture_to_editor sampleJSON sampleWorld (idText "0" "2")
                    sampleAst (mkNodeID 0 2) _ eq_refl eq_refl eq_refl)).
  - destruct (proj2 (@gesture_to_editor sampleJSON sampleWorld
                       (idText "0" "1") sampleAst (mkNodeID 0 1) _
                       eq_refl eq_refl eq_refl))
      as (site & Hsite & Hcalls & Hexact).
    injection Hsite as <-. rewrite Hcalls.
    rewrite (Hexact siteP 8 8 8 18 eq_refl)%Z; [reflexivity |].
    split; [repeat split |]. unfold Safe, exactBound. lia.
Defined.

(* ================================================================== *)
(** * The nonce of the view provider *)
(* ================================================================== *)

Lemma chars_append (a b : string) : chars (a ++ b) = chars a ++ chars b.
Proof.
  induction a as [| c a IH]; cbn; [reflexivity | now rewrite IH].
Qed.

Lemma length_chars (s : string) : length (chars s) = String.length s.
Proof.
  induction s as [| c s IH]; cbn; [reflexivity | now rewrite IH].
Qed.

Lemma get_chars (s : string) (k : nat) :
  String.get k s = nth_error (chars s) k.
Proof.
  revert k. induction s as [| c s IH]; intros [| k]; cbn; auto.
Qed.

Lemma chars_charAt (s : string) (i : Z) :
  chars (charAt s i)
  = match nth_error (chars s) (Z.to_nat i) with
    | Some c => if (i <? 0)%Z then [] else [c]
    | None => []
    end.
Proof.
  unfold charAt. rewrite get_chars.
  destruct (i <? 0)%Z; destruct (nth_error (chars s) (Z.to_nat i));
    reflexivity.
Qed.

Lemma chars_nonceLoop (draws : nat -> Z) (count i : nat) (text : string) :
  chars (nonceLoop draws count i text)
  = chars text
    ++ flat_map (fun k => chars (charAt possible (draws k))) (seq i count).
Proof.
  revert i text. induction count as [| count IH]; intros i text; cbn.
  - now rewrite app_nil_r.
  - rewrite IH, chars_append. now rewrite <- app_assoc.
Qed.

Lemma possible_alphanumeric :
  Forall (fun c => alphanumeric c = true) (chars possible) /\
  length (chars possible) = 62.
Proof.
  split; [| reflexivity]. repeat constructor.
Qed.

(** The characters drawn in the iterations [i], ..., [i + count - 1], when
    every draw is an index of the alphabet. *)
Lemma drawn_chars (draws : nat -> Z) (count i : nat) :
  (forall k, i <= k < i + count -> (0 <= draws k < 62)%Z) ->
  exists drawn,
    flat_map (fun k => chars (charAt possible (draws k))) (seq i count)
    = drawn /\
    length drawn = count /\
    Forall (fun c => alphanumeric c = true) drawn /\
    forall k, k < count ->
      nth_error drawn k
      = nth_error (chars possible) (Z.to_nat (draws (i + k))).
Proof.
  revert i. induction count as [| count IH]; intros i Hdraws.
  - exists []. repeat split; [constructor | intros k Hk; lia].
  - destruct (IH (S i)) as (rest & Hrest & Hlen & Halnum & Hnth);
      [intros k Hk; apply Hdraws; lia |].
    destruct (Hdraws i) as [Hlo Hhi]; [lia |].
    destruct (nth_error (chars possible) (Z.to_nat (draws i)))
      as [c |] eqn:Hc.
    + exists (c :: rest). cbn [seq flat_map]. rewrite chars_charAt, Hc, Hrest.
      destruct (Z.ltb_spec (draws i) 0); [lia |].
      repeat split.
      * cbn. now rewrite Hlen.
      * constructor; [| exact Halnum].
        destruct possible_alphanumeric as [Hall _].
        rewrite Forall_forall in Hall. apply Hall.
        exact (nth_error_In _ _ Hc).
      * intros [| k] Hk; cbn [nth_error].
        -- now rewrite Nat.add_0_r, Hc.
        -- rewrite Hnth by lia. do 3 f_equal. lia.
    + apply nth_error_None in Hc.
      destruct possible_alphanumeric as [_ Hlength]. lia.
Qed.

(** X18: when every draw of [Math.floor(Math.random() * possible.length)]
    is an index of the alphabet, as it is for a random number in [0, 1),
    the nonce has exactly 32 characters, each of them an ASCII letter or
    digit, and its [k]-th character is the character of the alphabet at
    the [k]-th draw. *)
Theorem getNonce_shape (draws : nat -> Z) :
  (forall k, k < 32 -> (0 <= draws k < 62)%Z) ->
  String.length (getNonce draws) = 32 /\
  Forall (fun c => alphanumeric c = true) (chars (getNonce draws)) /\
  forall k, k < 32 ->
    String.get k (getNonce draws)
    = String.get (Z.to_nat (draws k)) possible.
Proof.
  intros Hdraws.
  destruct (@drawn_chars draws 32 0) as (drawn & Hdrawn & Hlen & Halnum & Hnth);
    [intros k Hk; apply Hdraws; lia |].
  assert (Hchars : chars (getNonce draws) = drawn).
  { unfold getNonce. rewrite chars_nonceLoop. exact Hdrawn. }
  repeat split.
  - now rewrite <- length_chars, Hchars.
  - now rewrite Hchars.
  - intros k Hk. rewrite !get_chars, Hchars. exact (Hnth k Hk).
Qed.

Lemma getNonce_shape_witness :
  String.length (getNonce (fun k => Z.of_nat (k + 7))) = 32 /\
  String.get 0 (getNonce (fun k => Z.of_nat (k + 7))) = Some "H"%char.
Proof.
  destruct (@getNonce_shape (fun k => Z.of_nat (k + 7))) as (Hlen & _ & Hget).
  - intros k Hk. lia.
  - split; [exact Hlen |]. exact (Hget 0 (Nat.lt_0_succ 31)).
Defined.

(* ================================================================== *)
(** * Path normalization *)
(* ================================================================== *)





(* ================================================================== *)
(** * The label of a translation unit *)
(* ================================================================== *)

Lemma split_join (sep : ascii) (s : string) : join sep (split sep s) = s.
Proof.
  induction s as [| c s IH]; [reflexivity |].
  cbn [split]. destruct (Ascii.eqb_spec c sep) as [-> | Hc].
  - pose proof (split_not_empty sep s) as Hne.
    destruct (split sep s) as [| piece pieces] eqn:Hsplit;
      [contradiction |].
    change (join sep (EmptyString :: piece :: pieces))
      with (String sep (join sep (piece :: pieces))).
    now rewrite IH.
  - pose proof (split_not_empty sep s) as Hne.
    destruct (split sep s) as [| piece pieces] eqn:Hsplit;
      [contradiction |].
    destruct pieces as [| next pieces].
    + cbn [join] in *. now rewrite IH.
    + change (join sep (String c piece :: next :: pieces))
        with (String c (join sep (piece :: next :: pieces))).
      now rewrite IH.
Qed.

Lemma split_pieces_clean (sep : ascii) (s : string) :
  Forall (fun piece => ~ In sep (chars piece)) (split sep s).
Proof.
  induction s as [| c s IH]; [repeat constructor; cbn; tauto |].
  cbn [split]. destruct (Ascii.eqb_spec c sep) as [-> | Hc].
  - constructor; [cbn; tauto | exact IH].
  - destruct (split sep s) as [| piece pieces].
    + repeat constructor. cbn. intros [? | []]. congruence.
    + inversion IH as [| ? ? Hpiece Hpieces]; subst.
      constructor; [| exact Hpieces].
      cbn. intros [? | ?]; [congruence | contradiction].
Qed.

(** The joined pieces end with the last piece, and what precedes it is
    empty or ends with the separator. *)
Lemma join_ends_with_last (sep : ascii) (pieces : list string) (last : string) :
  pop pieces = some last ->
  exists prefix,
    join sep pieces = (prefix ++ last)%string /\
    (prefix = EmptyString \/
     exists before, prefix = (before ++ String sep EmptyString)%string).
Proof.
  induction pieces as [| piece pieces IH]; [discriminate |].
  destruct pieces as [| next pieces].
  - intros [= ->]. exists EmptyString. split; [reflexivity | now left].
  - intros Hpop. cbn [pop] in Hpop.
    destruct (IH Hpop) as (prefix & Hjoin & Hprefix).
    exists (piece ++ String sep prefix)%string. split.
    + cbn [join]. cbn [join] in Hjoin. rewrite Hjoin.
      clear. induction piece as [| c piece IHp]; cbn; [reflexivity |].
      now rewrite IHp.
    + right. destruct Hprefix as [-> | (before & ->)].
      * now exists piece.
      * exists (piece ++ String sep before)%string.
        clear. induction piece as [| c piece IHp]; cbn; [reflexivity |].
        now rewrite IHp.
Qed.

(** X20: the label that projection gives a translation unit is the file
    name portion of its URL: the URL ends with the label, what precedes
    the label is empty or ends with a slash, and the label contains no
    slash.  For a URL without a slash the label is the whole URL. *)
Theorem fileName_is_last_segment (url : string) :
  (exists prefix,
     url = (prefix ++ fileName url)%string /\
     (prefix = EmptyString \/
      exists before,
        prefix = (before ++ String "/"%char EmptyString)%string)) /\
  ~ In "/"%char (chars (fileName url)) /\
  (~ In "/"%char (chars url) -> fileName url = url).
Proof.
  unfold fileName.
  destruct (pop_some (split_not_empty "/"%char url)) as [last Hlast].
  rewrite Hlast.
  assert (Hclean : ~ In "/"%char (chars last)).
  { pose proof (split_pieces_clean "/"%char url) as Hall.
    revert Hlast Hall. generalize (split "/"%char url).
    induction l as [| piece pieces IH]; [discriminate |].
    intros Hpop Hall. inversion Hall as [| ? ? Hpiece Hpieces]; subst.
    destruct pieces as [| next pieces].
    - now injection Hpop as <-.
    - apply IH; assumption. }
  destruct (join_ends_with_last "/"%char _ Hlast) as (prefix & Hjoin & Hprefix).
  rewrite split_join in Hjoin.
  repeat split.
  - now exists prefix.
  - exact Hclean.
  - intros Hurl. destruct Hprefix as [-> | (before & ->)];
      [now rewrite Hjoin |].
    exfalso. apply Hurl. rewrite Hjoin, !chars_append.
    apply in_or_app. left. apply in_or_app. right. now left.
Qed.

(* ================================================================== *)
(** * The search for Hylo files *)
(* ================================================================== *)

Lemma FsFolder_nested_ind (P : FsFolder -> Prop) :
  (forall message, P (Unreadable message)) ->
  (forall entries,
     (forall name contents, In (name, Folder contents) entries -> P contents) ->
     P (Listing entries)) ->
  forall folder, P folder.
Proof.
  intros Hunreadable Hlisting.
  fix IH 1. intros [message | entries]; [apply Hunreadable |].
  apply Hlisting.
  induction entries as [| [file entry] entries IHentries];
    intros name contents Hin; [contradiction |].
  destruct Hin as [Heq | Hin]; [| exact (IHentries name contents Hin)].
  destruct entry as [| message | sub]; try discriminate.
  injection Heq as _ <-. apply IH.
Qed.

Section Search.

Variable path_join : string -> string -> string.
Variable path_extname : string -> string.

#[local] Abbreviation search := (findHyloFiles path_join path_extname).
#[local] Abbreviation searchDebug :=
  (findHyloFilesDebug path_join path_extname).
#[local] Abbreviation scan := (scanFiles path_join path_extname).
#[local] Abbreviation scanDebug := (scanFilesDebug path_join path_extname).

Lemma findHyloFiles_listing (directoryPath : string)
    (entries : list (string * FsEntry)) :
  search directoryPath (Listing entries)
  = match scan search directoryPath entries [] with
    | (Returned hyloFiles, lines) => (Returned hyloFiles, lines)
    | (Failed message, lines) =>
        (Failed message, lines ++ [errorLine message])
    end.
Proof. reflexivity. Qed.

(** The files collected before the loop stay in front of those it adds. *)
Lemma scanFiles_from (recur : string -> FsFolder -> Found * list string)
    (directoryPath : string) (files : list (string * FsEntry))
    (hyloFiles : list string) :
  scan recur directoryPath files hyloFiles
  = match scan recur directoryPath files [] with
    | (Returned added, lines) => (Returned (hyloFiles ++ added), lines)
    | (Failed message, lines) => (Failed message, lines)
    end.
Proof.
  revert hyloFiles.
  induction files as [| [file entry] rest IH]; intros hyloFiles.
  - cbn. now rewrite app_nil_r.
  - cbn [scanFiles]. destruct entry as [| message | contents].
    + destruct (isHyloFile path_extname file).
      * rewrite (IH (hyloFiles ++ [_])), (IH ([] ++ [_])).
        destruct (scan recur directoryPath rest []) as [[added | m] lines];
          [| reflexivity].
        cbn [app]. now rewrite <- app_assoc.
      * apply IH.
    + reflexivity.
    + destruct (recur (path_join directoryPath file) contents)
        as [[subDirFiles | m] lines]; [| reflexivity].
      rewrite (IH (hyloFiles ++ subDirFiles)), (IH ([] ++ subDirFiles)).
      destruct (scan recur directoryPath rest []) as [[added | m] lines'];
        [| reflexivity].
      cbn [app]. now rewrite <- app_assoc.
Qed.

(** The outcome of the loop of the extension's search: it comes to its
    end exactly when no entry fails, and writes no line then; an exception
    comes with the lines of the directories that it has left. *)
Lemma scanFiles_outcome (directoryPath : string)
    (entries : list (string * FsEntry)) :
  (forall name contents directory,
     In (name, Folder contents) entries ->
     match search directory contents with
     | (Returned _, lines) => Healthy contents /\ lines = []
     | (Failed message, lines) =>
         ~ Healthy contents /\
         exists n, lines = repeat (errorLine message) (S n)
     end) ->
  match scan search directoryPath entries [] with
  | (Returned _, lines) =>
      (forall name entry, In (name, entry) entries -> HealthyEntry entry) /\
      lines = []
  | (Failed message, lines) =>
      (exists name entry, In (name, entry) entries /\ ~ HealthyEntry entry) /\
      exists n, lines = repeat (errorLine message) n
  end.
Proof.
  induction entries as [| [file entry] rest IH]; intros Hsub.
  - cbn. split; [intros ? ? [] | reflexivity].
  - assert (Hrest :
      match scan search directoryPath rest [] with
      | (Returned _, lines) =>
          (forall name entry, In (name, entry) rest -> HealthyEntry entry) /\
          lines = []
      | (Failed message, lines) =>
          (exists name entry, In (name, entry) rest /\ ~ HealthyEntry entry) /\
          exists n, lines = repeat (errorLine message) n
      end).
    { apply IH. intros name contents directory Hin.
      apply (Hsub name). now right. }
    cbn [scanFiles]. destruct entry as [| message | contents].
    + assert (Hsame :
        match
          (if isHyloFile path_extname file
           then scan search directoryPath rest
                  ([] ++ [path_join directoryPath file])
           else scan search directoryPath rest [])
        with
        | (Returned _, lines) =>
            (forall name entry,
               In (name, entry) rest -> HealthyEntry entry) /\ lines = []
        | (Failed message, lines) =>
            (exists name entry,
               In (name, entry) rest /\ ~ HealthyEntry entry) /\
            exists n, lines = repeat (errorLine message) n
        end).
      { destruct (isHyloFile path_extname file); [| exact Hrest].
        rewrite scanFiles_from.
        destruct (scan search directoryPath rest [])
          as [[added | m] lines]; exact Hrest. }
      destruct (if isHyloFile path_extname file
                then scan search directoryPath rest
                       ([] ++ [path_join directoryPath file])
                else scan search directoryPath rest [])
        as [[added | m] lines]; destruct Hsame as [Hentries Hlines];
        (split; [| exact Hlines]).
      * intros name entry [[= <- <-] | Hin]; [constructor | eauto].
      * destruct Hentries as (name & entry & Hin & Hbad).
        exists name, entry. split; [now right | exact Hbad].
    + split; [| now exists 0].
      exists file, (StatFails message). split; [now left |].
      intros Hhealthy. inversion Hhealthy.
    + specialize (Hsub file contents (path_join directoryPath file)
                    (or_introl eq_refl)).
      destruct (search (path_join directoryPath file) contents)
        as [[subDirFiles | m] lines]; destruct Hsub as [Hcontents Hlines].
      * subst lines. rewrite scanFiles_from.
        destruct (scan search directoryPath rest [])
          as [[added | m] lines']; destruct Hrest as [Hentries Hlines'];
          (split; [| exact Hlines']).
        -- intros name entry [[= <- <-] | Hin];
             [now constructor | eauto].
        -- destruct Hentries as (name & entry & Hin & Hbad).
           exists name, entry. split; [now right | exact Hbad].
      * split.
        -- exists file, (Folder contents). split; [now left |].
           intros Hhealthy. inversion Hhealthy; subst. contradiction.
        -- destruct Hlines as [n ->]. now exists (S n).
Qed.

Lemma repeat_snoc {A : Type} (a : A) (n : nat) :
  repeat a n ++ [a] = repeat a (S n).
Proof.
  induction n as [| n IH]; cbn; [reflexivity |]. f_equal. exact IH.
Qed.

Lemma findHyloFiles_outcome (folder : FsFolder) :
  forall directoryPath,
    match search directoryPath folder with
    | (Returned _, lines) => Healthy folder /\ lines = []
    | (Failed message, lines) =>
        ~ Healthy folder /\
        exists n, lines = repeat (errorLine message) (S n)
    end.
Proof.
  induction folder as [message | entries IH] using FsFolder_nested_ind;
    intros directoryPath.
  - cbn. split; [intros H; inversion H | now exists 0].
  - rewrite findHyloFiles_listing.
    pose proof (scanFiles_outcome directoryPath entries) as Hscan.
    destruct (scan search directoryPath entries [])
      as [[hyloFiles | message] lines].
    + destruct Hscan as [Hentries ->];
        [intros name contents directory Hin; exact (IH _ _ Hin directory) |].
      split; [now constructor | reflexivity].
    + destruct Hscan as [(name & entry & Hin & Hbad) [n ->]];
        [intros name contents directory Hin; exact (IH _ _ Hin directory) |].
      split.
      * intros Hhealthy. inversion Hhealthy as [? Hall]; subst.
        exact (Hbad (Hall name entry Hin)).
      * exists n. apply repeat_snoc.
Qed.

Lemma findHyloFiles_healthy (folder : FsFolder) (directoryPath : string) :
  Healthy folder ->
  exists hyloFiles, search directoryPath folder = (Returned hyloFiles, []).
Proof.
  intros Hhealthy.
  pose proof (findHyloFiles_outcome folder directoryPath) as Houtcome.
  destruct (search directoryPath folder) as [[hyloFiles | message] lines].
  - destruct Houtcome as [_ ->]. now exists hyloFiles.
  - destruct Houtcome as [Hbad _]. contradiction.
Qed.

(** Entries in which nothing fails leave the loop running. *)
Lemma scanFiles_healthy_prefix (directoryPath : string)
    (before rest : list (string * FsEntry)) :
  (forall n e, In (n, e) before -> HealthyEntry e) ->
  forall hyloFiles,
  exists hyloFiles',
    scan search directoryPath (before ++ rest) hyloFiles
    = scan search directoryPath rest hyloFiles'.
Proof.
  induction before as [| [file entry] before IH]; intros Hbefore hyloFiles.
  - now exists hyloFiles.
  - assert (Hentry : HealthyEntry entry) by (apply (Hbefore file); now left).
    assert (Hrest : forall n e, In (n, e) before -> HealthyEntry e)
      by (intros n e Hin; apply (Hbefore n); now right).
    cbn [app scanFiles]. inversion Hentry as [| contents Hcontents]; subst.
    + destruct (isHyloFile path_extname file); apply (IH Hrest).
    + destruct (@findHyloFiles_healthy contents
                  (path_join directoryPath file) Hcontents)
        as [subDirFiles ->].
      destruct (IH Hrest (hyloFiles ++ subDirFiles)) as [hyloFiles' ->].
      exists hyloFiles'.
      now destruct (scan search directoryPath rest hyloFiles').
Qed.

Lemma findHyloFiles_first_failure (folder : FsFolder) (message : string)
    (depth : nat) :
  FirstFailure folder message depth ->
  forall directoryPath,
    search directoryPath folder
    = (Failed message, repeat (errorLine message) depth).
Proof.
  induction 1 as [message | before name message after Hbefore
                  | before name contents after message depth Hbefore _ IH];
    intros directoryPath.
  - reflexivity.
  - rewrite findHyloFiles_listing.
    destruct (@scanFiles_healthy_prefix directoryPath before
                ((name, StatFails message) :: after) Hbefore [])
      as [hyloFiles' ->].
    reflexivity.
  - rewrite findHyloFiles_listing.
    destruct (@scanFiles_healthy_prefix directoryPath before
                ((name, Folder contents) :: after) Hbefore [])
      as [hyloFiles' ->].
    cbn [scanFiles]. rewrite IH. now rewrite repeat_snoc.
Qed.

Lemma first_failure_cons (name : string) (entry : FsEntry)
    (rest : list (string * FsEntry)) (message : string) (depth : nat) :
  HealthyEntry entry ->
  FirstFailure (Listing rest) message depth ->
  FirstFailure (Listing ((name, entry) :: rest)) message depth.
Proof.
  intros Hentry Hrest.
  assert (Hcons : forall before,
             (forall n e, In (n, e) before -> HealthyEntry e) ->
             forall n e, In (n, e) ((name, entry) :: before) ->
                         HealthyEntry e).
  { intros before Hbefore n e [[= <- <-] | Hin]; eauto. }
  inversion Hrest as [| before n m after Hbefore
                      | before n contents after m d Hbefore Hbelow]; subst.
  - exact (@fails_stat ((name, entry) :: before) n message after
             (Hcons before Hbefore)).
  - exact (@fails_below ((name, entry) :: before) n contents after message d
             (Hcons before Hbefore) Hbelow).
Qed.

(** Either every call below the directory succeeds, or one of them is the
    first to throw. *)
Lemma healthy_or_first_failure (folder : FsFolder) :
  Healthy folder \/ exists message depth, FirstFailure folder message depth.
Proof.
  induction folder as [message | entries IH] using FsFolder_nested_ind.
  - right. exists message, 1. constructor.
  - assert (Hentries :
      (forall n e, In (n, e) entries -> HealthyEntry e) \/
      exists message depth, FirstFailure (Listing entries) message depth).
    { induction entries as [| [file entry] rest IHrest].
      - left. intros n e [].
      - assert (Hrest :
          (forall n e, In (n, e) rest -> HealthyEntry e) \/
          exists message depth, FirstFailure (Listing rest) message depth).
        { apply IHrest. intros name contents Hin.
          apply (IH name). now right. }
        assert (Hgood : HealthyEntry entry ->
          (forall n e, In (n, e) ((file, entry) :: rest) -> HealthyEntry e) \/
          exists message depth,
            FirstFailure (Listing ((file, entry) :: rest)) message depth).
        { intros Hentry. destruct Hrest as [Hall | (m & d & Hfail)].
          - left. intros n e [[= <- <-] | Hin]; eauto.
          - right. exists m, d. now apply first_failure_cons. }
        destruct entry as [| message | contents].
        + apply Hgood. constructor.
        + right. exists message, 1.
          exact (@fails_stat [] file message rest (fun n e (H : False) =>
                   match H with end)).
        + destruct (IH file contents (or_introl eq_refl))
            as [Hcontents | (m & d & Hfail)].
          * apply Hgood. now constructor.
          * right. exists m, (S d).
            exact (@fails_below [] file contents rest m d
                     (fun n e (H : False) => match H with end) Hfail). }
    destruct Hentries as [Hall | Hfail]; [left; now constructor | now right].
Qed.

End Search.

Section SearchResults.

Variable path_join : string -> string -> string.
Variable path_extname : string -> string.

#[local] Abbreviation search' := (findHyloFiles path_join path_extname).
#[local] Abbreviation searchDebug' :=
  (findHyloFilesDebug path_join path_extname).
#[local] Abbreviation scan' := (scanFiles path_join path_extname).
#[local] Abbreviation scanDebug' := (scanFilesDebug path_join path_extname).
#[local] Abbreviation FileAt := (HyloFileAt path_join path_extname).
#[local] Abbreviation InListing' := (InListing path_join path_extname).

Lemma HyloFileAt_listing (directoryPath : string)
    (entries : list (string * FsEntry)) (path : string) :
  FileAt directoryPath (Listing entries) path
  <-> InListing' directoryPath entries path.
Proof.
  split.
  - intros H. inversion H; subst.
    + left. eauto.
    + right. eauto.
  - intros [(file & Hin & Hhylo & ->) | (name & contents & Hin & Hat)].
    + now constructor.
    + econstructor 2; eassumption.
Qed.

Lemma InListing_cons (directoryPath : string) (file : string)
    (entry : FsEntry) (rest : list (string * FsEntry)) (path : string) :
  InListing' directoryPath ((file, entry) :: rest) path
  <-> (entry = RegularFile /\ isHyloFile path_extname file = true /\
       path = path_join directoryPath file) \/
      (exists contents,
         entry = Folder contents /\
         FileAt (path_join directoryPath file) contents path) \/
      InListing' directoryPath rest path.
Proof.
  unfold InListing. split.
  - intros [(f & Hin & Hhylo & Hpath) | (name & contents & Hin & Hat)].
    + destruct Hin as [Heq | Hin].
      * injection Heq as Hfile Hentry. subst. left. auto.
      * right. right. left. eauto.
    + destruct Hin as [Heq | Hin].
      * injection Heq as Hfile Hentry. subst. right. left. eauto.
      * right. right. right. eauto.
  - intros [(Hentry & Hhylo & Hpath) | [(contents & Hentry & Hat) | [H | H]]].
    + subst. left. exists file. split; [now left | auto].
    + subst. right. exists file, contents. split; [now left | assumption].
    + destruct H as (f & Hin & Hhylo & Hpath). left. exists f.
      split; [now right | auto].
    + destruct H as (name & contents & Hin & Hat). right.
      exists name, contents. split; [now right | assumption].
Qed.

Lemma scanFiles_content (directoryPath : string)
    (entries : list (string * FsEntry)) :
  (forall name contents directory hyloFiles lines,
     In (name, Folder contents) entries ->
     search' directory contents = (Returned hyloFiles, lines) ->
     forall path, In path hyloFiles <-> FileAt directory contents path) ->
  forall hyloFiles lines,
    scan' search' directoryPath entries [] = (Returned hyloFiles, lines) ->
    forall path,
      In path hyloFiles <-> InListing' directoryPath entries path.
Proof.
  induction entries as [| [file entry] rest IH]; intros Hsub hyloFiles lines H
    path.
  - cbn in H. injection H as <- _. unfold InListing. split; [intros [] |].
    intros [(f & Hin & _) | (name & contents & Hin & _)]; contradiction.
  - assert (Hrest : forall added lines',
               scan' search' directoryPath rest [] = (Returned added, lines') ->
               forall p, In p added <-> InListing' directoryPath rest p).
    { apply IH. intros name contents directory files ls Hin.
      apply (Hsub name). now right. }
    rewrite InListing_cons. cbn [scanFiles] in H.
    destruct entry as [| message | contents].
    + destruct (isHyloFile path_extname file) eqn:Hhylo.
      * rewrite scanFiles_from in H.
        destruct (scan' search' directoryPath rest [])
          as [[added | m] lines'] eqn:Hscan; [| discriminate].
        injection H as <- _. cbn [app In].
        rewrite (Hrest added lines' eq_refl). split.
        -- intros [<- | Hin]; [left; auto | right; right; assumption].
        -- intros [(_ & _ & ->) | [(contents & Hc & _) | Hin]];
             [now left | discriminate | now right].
      * rewrite (Hrest hyloFiles lines H). split.
        -- intros Hin. right. right. assumption.
        -- intros [(_ & Htrue & _) | [(contents & Hc & _) | Hin]];
             [congruence | discriminate | assumption].
    + discriminate.
    + destruct (search' (path_join directoryPath file) contents)
        as [[subDirFiles | m] lines0] eqn:Hsearch; [| discriminate].
      rewrite scanFiles_from in H.
      destruct (scan' search' directoryPath rest [])
        as [[added | m] lines'] eqn:Hscan; [| discriminate].
      injection H as <- _. cbn [app]. rewrite in_app_iff.
      rewrite (Hrest added lines' eq_refl).
      rewrite (Hsub file contents _ subDirFiles lines0 (or_introl eq_refl)
                 Hsearch).
      split.
      * intros [Hat | Hin]; [right; left; eauto | right; right; assumption].
      * intros [(Hc & _) | [(contents' & [= <-] & Hat) | Hin]];
          [discriminate | now left | now right].
Qed.

Lemma findHyloFiles_content (folder : FsFolder) :
  forall directoryPath hyloFiles lines,
    search' directoryPath folder = (Returned hyloFiles, lines) ->
    forall path, In path hyloFiles <-> FileAt directoryPath folder path.
Proof.
  induction folder as [message | entries IH] using FsFolder_nested_ind;
    intros directoryPath hyloFiles lines H path.
  - discriminate.
  - rewrite findHyloFiles_listing in H.
    destruct (scan' search' directoryPath entries [])
      as [[files | m] lines'] eqn:Hscan; [| discriminate].
    injection H as <- _. rewrite HyloFileAt_listing.
    apply (scanFiles_content directoryPath entries) with (lines := lines');
      [| exact Hscan].
    intros name contents directory files' ls Hin.
    exact (IH name contents Hin directory files' ls).
Qed.

End SearchResults.

Section DebugSearch.

Variable path_join : string -> string -> string.
Variable path_extname : string -> string.

#[local] Abbreviation dsearch := (findHyloFiles path_join path_extname).
#[local] Abbreviation dsearchDebug :=
  (findHyloFilesDebug path_join path_extname).
#[local] Abbreviation dscan := (scanFiles path_join path_extname).
#[local] Abbreviation dscanDebug := (scanFilesDebug path_join path_extname).

Lemma findHyloFilesDebug_listing (directoryPath : string)
    (entries : list (string * FsEntry)) :
  dsearchDebug directoryPath (Listing entries)
  = match dscanDebug dsearchDebug directoryPath entries [] with
    | (hyloFiles, None, events) => (Returned hyloFiles, events)
    | (hyloFiles, Some message, events) =>
        (Returned hyloFiles, events ++ [errorEvent message])
    end.
Proof. reflexivity. Qed.

(** No exception leaves the debug adapter's search. *)
Lemma findHyloFilesDebug_returns (folder : FsFolder)
    (directoryPath : string) :
  exists hyloFiles events,
    dsearchDebug directoryPath folder = (Returned hyloFiles, events).
Proof.
  destruct folder as [message | entries].
  - cbn. eauto.
  - rewrite findHyloFilesDebug_listing.
    destruct (dscanDebug dsearchDebug directoryPath entries [])
      as [[hyloFiles [message |]] events]; eauto.
Qed.

Lemma scanFilesDebug_from
    (recur : string -> FsFolder -> Found * list OutputEvent)
    (directoryPath : string) (files : list (string * FsEntry))
    (hyloFiles : list string) :
  dscanDebug recur directoryPath files hyloFiles
  = match dscanDebug recur directoryPath files [] with
    | (added, thrown, events) => (hyloFiles ++ added, thrown, events)
    end.
Proof.
  revert hyloFiles.
  induction files as [| [file entry] rest IH]; intros hyloFiles.
  - cbn. now rewrite app_nil_r.
  - cbn [scanFilesDebug]. destruct entry as [| message | contents].
    + destruct (isHyloFile path_extname file).
      * rewrite (IH (hyloFiles ++ [_])), (IH ([] ++ [_])).
        destruct (dscanDebug recur directoryPath rest [])
          as [[added thrown] events].
        cbn [app]. now rewrite <- app_assoc.
      * apply IH.
    + now rewrite app_nil_r.
    + destruct (recur (path_join directoryPath file) contents)
        as [[subDirFiles | m] events]; [| now rewrite app_nil_r].
      rewrite (IH (hyloFiles ++ subDirFiles)), (IH ([] ++ subDirFiles)).
      destruct (dscanDebug recur directoryPath rest [])
        as [[added thrown] events'].
      cbn [app]. now rewrite <- app_assoc.
Qed.

(** The loop on a list of entries of which the first ones have no
    failing [statSync]: it runs through them and goes on with the rest. *)
Lemma scanFilesDebug_app (directoryPath : string)
    (before rest : list (string * FsEntry)) :
  (forall n m, ~ In (n, StatFails m) before) ->
  exists hyloFiles events,
    dscanDebug dsearchDebug directoryPath before []
    = (hyloFiles, None, events) /\
    dscanDebug dsearchDebug directoryPath (before ++ rest) []
    = match dscanDebug dsearchDebug directoryPath rest [] with
      | (added, thrown, events') =>
          (hyloFiles ++ added, thrown, events ++ events')
      end.
Proof.
  induction before as [| [file entry] before IH]; intros Hbefore.
  - exists [], []. split; [reflexivity |]. cbn [app].
    now destruct (dscanDebug dsearchDebug directoryPath rest [])
      as [[added thrown] events'].
  - destruct IH as (hyloFiles & events & Hscan & Happ).
    { intros n m Hin. apply (Hbefore n m). now right. }
    cbn [app scanFilesDebug]. destruct entry as [| message | contents].
    + destruct (isHyloFile path_extname file).
      * rewrite (scanFilesDebug_from _ _ before),
          (scanFilesDebug_from _ _ (before ++ rest)), Hscan, Happ.
        eexists _, _. split; [reflexivity |].
        now destruct (dscanDebug dsearchDebug directoryPath rest [])
          as [[added thrown] events'].
      * exists hyloFiles, events. split; assumption.
    + exfalso. apply (Hbefore file message). now left.
    + destruct (findHyloFilesDebug_returns contents
                  (path_join directoryPath file))
        as (subDirFiles & subEvents & ->).
      rewrite (scanFilesDebug_from _ _ before),
        (scanFilesDebug_from _ _ (before ++ rest)), Hscan, Happ.
      eexists _, _. split; [reflexivity |].
      destruct (dscanDebug dsearchDebug directoryPath rest [])
        as [[added thrown] events'].
      cbn [app]. now rewrite <- !app_assoc.
Qed.

Lemma scanFilesDebug_agrees (directoryPath : string)
    (entries : list (string * FsEntry)) :
  (forall name contents directory hyloFiles lines,
     In (name, Folder contents) entries ->
     dsearch directory contents = (Returned hyloFiles, lines) ->
     dsearchDebug directory contents = (Returned hyloFiles, [])) ->
  forall hyloFiles lines,
    dscan dsearch directoryPath entries [] = (Returned hyloFiles, lines) ->
    dscanDebug dsearchDebug directoryPath entries [] = (hyloFiles, None, []).
Proof.
  induction entries as [| [file entry] rest IH]; intros Hsub hyloFiles lines H.
  - cbn in *. now injection H as <- _.
  - assert (Hrest : forall added lines',
               dscan dsearch directoryPath rest [] = (Returned added, lines') ->
               dscanDebug dsearchDebug directoryPath rest []
               = (added, None, [])).
    { apply IH. intros name contents directory files ls Hin.
      apply (Hsub name). now right. }
    cbn [scanFiles scanFilesDebug] in *.
    destruct entry as [| message | contents].
    + destruct (isHyloFile path_extname file).
      * rewrite scanFiles_from in H. rewrite scanFilesDebug_from.
        destruct (dscan dsearch directoryPath rest [])
          as [[added | m] lines'] eqn:Hscan; [| discriminate].
        injection H as <- _. now rewrite (Hrest added lines' eq_refl).
      * exact (Hrest hyloFiles lines H).
    + discriminate.
    + destruct (dsearch (path_join directoryPath file) contents)
        as [[subDirFiles | m] lines0] eqn:Hsearch; [| discriminate].
      rewrite (Hsub file contents _ subDirFiles lines0 (or_introl eq_refl)
                 Hsearch).
      rewrite scanFiles_from in H. rewrite scanFilesDebug_from.
      destruct (dscan dsearch directoryPath rest [])
        as [[added | m] lines'] eqn:Hscan; [| discriminate].
      injection H as <- _. now rewrite (Hrest added lines' eq_refl).
Qed.

Lemma findHyloFilesDebug_agrees (folder : FsFolder) :
  forall directoryPath hyloFiles lines,
    dsearch directoryPath folder = (Returned hyloFiles, lines) ->
    dsearchDebug directoryPath folder = (Returned hyloFiles, []).
Proof.
  induction folder as [message | entries IH] using FsFolder_nested_ind;
    intros directoryPath hyloFiles lines H.
  - discriminate.
  - rewrite findHyloFiles_listing in H. rewrite findHyloFilesDebug_listing.
    destruct (dscan dsearch directoryPath entries [])
      as [[files | m] lines'] eqn:Hscan; [| discriminate].
    injection H as <- _.
    rewrite (@scanFilesDebug_agrees directoryPath entries) with
      (hyloFiles := files) (lines := lines'); [reflexivity | | exact Hscan].
    intros name contents directory files' ls Hin.
    exact (IH name contents Hin directory files' ls).
Qed.

Lemma scanFilesDebug_sound (directoryPath : string)
    (entries : list (string * FsEntry)) :
  (forall name contents directory path,
     In (name, Folder contents) entries ->
     In path (foundFiles (fst (dsearchDebug directory contents))) ->
     HyloFileAt path_join path_extname directory contents path) ->
  forall path,
    In path (fst (fst (dscanDebug dsearchDebug directoryPath entries []))) ->
    InListing path_join path_extname directoryPath entries path.
Proof.
  induction entries as [| [file entry] rest IH]; intros Hsub path Hin.
  - contradiction.
  - assert (Hrest : forall p,
               In p (fst (fst (dscanDebug dsearchDebug directoryPath rest
                                 []))) ->
               InListing path_join path_extname directoryPath rest p).
    { apply IH. intros name contents directory p Hname.
      apply (Hsub name). now right. }
    apply InListing_cons. cbn [scanFilesDebug] in Hin.
    destruct entry as [| message | contents].
    + destruct (isHyloFile path_extname file) eqn:Hhylo.
      * rewrite scanFilesDebug_from in Hin.
        destruct (dscanDebug dsearchDebug directoryPath rest [])
          as [[added thrown] events]. cbn [fst app In] in Hin, Hrest.
        destruct Hin as [<- | Hin]; [left; auto | right; right; auto].
      * right. right. auto.
    + contradiction.
    + destruct (dsearchDebug (path_join directoryPath file) contents)
        as [[subDirFiles | m] events] eqn:Hsearch; [| contradiction].
      rewrite scanFilesDebug_from in Hin.
      destruct (dscanDebug dsearchDebug directoryPath rest [])
        as [[added thrown] events']. cbn [fst app] in Hin, Hrest.
      apply in_app_iff in Hin as [Hin | Hin].
      * right. left. exists contents. split; [reflexivity |].
        apply (Hsub file); [now left |]. now rewrite Hsearch.
      * right. right. auto.
Qed.

Lemma findHyloFilesDebug_sound (folder : FsFolder) :
  forall directoryPath path,
    In path (foundFiles (fst (dsearchDebug directoryPath folder))) ->
    HyloFileAt path_join path_extname directoryPath folder path.
Proof.
  induction folder as [message | entries IH] using FsFolder_nested_ind;
    intros directoryPath path Hin.
  - contradiction.
  - rewrite findHyloFilesDebug_listing in Hin. apply HyloFileAt_listing.
    apply scanFilesDebug_sound.
    + intros name contents directory p Hname.
      exact (IH name contents Hname _ _).
    + now destruct (dscanDebug dsearchDebug directoryPath entries [])
        as [[hyloFiles [message |]] events].
Qed.

Lemma scanFilesDebug_silent (directoryPath : string)
    (entries : list (string * FsEntry)) :
  (forall name contents directory,
     In (name, Folder contents) entries ->
     snd (dsearchDebug directory contents) = [] -> Healthy contents) ->
  forall hyloFiles,
    dscanDebug dsearchDebug directoryPath entries [] = (hyloFiles, None, []) ->
    forall name entry, In (name, entry) entries -> HealthyEntry entry.
Proof.
  induction entries as [| [file entry] rest IH];
    intros Hsub hyloFiles Hsilent name e Hin; [contradiction |].
  cbn [scanFilesDebug] in Hsilent.
  assert (Hrest : forall files,
             dscanDebug dsearchDebug directoryPath rest [] = (files, None, []) ->
             forall n x, In (n, x) rest -> HealthyEntry x).
  { apply IH. intros n contents directory Hn. apply (Hsub n). now right. }
  destruct entry as [| message | contents].
  - assert (Hsilent' : exists files,
               dscanDebug dsearchDebug directoryPath rest []
               = (files, None, [])).
    { destruct (isHyloFile path_extname file); [| eauto].
      rewrite scanFilesDebug_from in Hsilent.
      destruct (dscanDebug dsearchDebug directoryPath rest [])
        as [[added thrown] events].
      injection Hsilent as _ -> ->. eauto. }
    destruct Hsilent' as [files Hfiles].
    destruct Hin as [[= <- <-] | Hin]; [constructor | eauto].
  - discriminate.
  - destruct (dsearchDebug (path_join directoryPath file) contents)
      as [[subDirFiles | m] events] eqn:Hsearch; [| discriminate].
    rewrite scanFilesDebug_from in Hsilent.
    destruct (dscanDebug dsearchDebug directoryPath rest [])
      as [[added thrown] events'].
    injection Hsilent as _ -> Hevents.
    apply app_eq_nil in Hevents as [-> ->].
    destruct Hin as [[= <- <-] | Hin]; [| eauto].
    constructor. apply (Hsub file contents (path_join directoryPath file));
      [now left | now rewrite Hsearch].
Qed.

Lemma findHyloFilesDebug_silent (folder : FsFolder) :
  forall directoryPath,
    snd (dsearchDebug directoryPath folder) = [] -> Healthy folder.
Proof.
  induction folder as [message | entries IH] using FsFolder_nested_ind;
    intros directoryPath Hsilent.
  - discriminate.
  - rewrite findHyloFilesDebug_listing in Hsilent. constructor.
    destruct (dscanDebug dsearchDebug directoryPath entries [])
      as [[hyloFiles [message |]] events] eqn:Hscan; cbn [snd] in Hsilent.
    + now apply app_eq_nil in Hsilent as [_ [=]].
    + subst events.
      apply (@scanFilesDebug_silent directoryPath entries) with
        (hyloFiles := hyloFiles); [| exact Hscan].
      intros name contents directory Hname. exact (IH name contents Hname _).
Qed.

Lemma scanFilesDebug_events (directoryPath : string)
    (entries : list (string * FsEntry)) :
  (forall name contents directory event,
     In (name, Folder contents) entries ->
     In event (snd (dsearchDebug directory contents)) ->
     exists message, event = errorEvent message) ->
  forall event,
    In event (snd (dscanDebug dsearchDebug directoryPath entries [])) ->
    exists message, event = errorEvent message.
Proof.
  induction entries as [| [file entry] rest IH]; intros Hsub event Hin;
    [contradiction |].
  assert (Hrest : forall e,
             In e (snd (dscanDebug dsearchDebug directoryPath rest [])) ->
             exists message, e = errorEvent message).
  { apply IH. intros name contents directory e Hname.
    apply (Hsub name). now right. }
  cbn [scanFilesDebug] in Hin. destruct entry as [| message | contents].
  - destruct (isHyloFile path_extname file); [| auto].
    rewrite scanFilesDebug_from in Hin.
    destruct (dscanDebug dsearchDebug directoryPath rest [])
      as [[added thrown] events]. auto.
  - contradiction.
  - pose proof (Hsub file contents (path_join directoryPath file))
      as Hcontents.
    destruct (dsearchDebug (path_join directoryPath file) contents)
      as [[subDirFiles | m] events]; cbn [snd] in Hin, Hcontents.
    + rewrite scanFilesDebug_from in Hin.
      destruct (dscanDebug dsearchDebug directoryPath rest [])
        as [[added thrown] events']. cbn [snd] in Hin, Hrest.
      apply in_app_iff in Hin as [Hin | Hin]; [| auto].
      apply Hcontents; [now left | exact Hin].
    + apply Hcontents; [now left | exact Hin].
Qed.

(** Every event of the search is an error line on [stderr]. *)
Lemma findHyloFilesDebug_events (folder : FsFolder) :
  forall directoryPath event,
    In event (snd (dsearchDebug directoryPath folder)) ->
    exists message, event = errorEvent message.
Proof.
  induction folder as [message | entries IH] using FsFolder_nested_ind;
    intros directoryPath event Hin.
  - destruct Hin as [<- | []]. now exists message.
  - rewrite findHyloFilesDebug_listing in Hin.
    pose proof (@scanFilesDebug_events directoryPath entries) as Hscan.
    destruct (dscanDebug dsearchDebug directoryPath entries [])
      as [[hyloFiles [message |]] events]; cbn [snd] in Hin, Hscan.
    + apply in_app_iff in Hin as [Hin | [<- | []]]; [| now exists message].
      apply Hscan; [| exact Hin].
      intros name contents directory e Hname. exact (IH name contents Hname _ e).
    + apply Hscan; [| exact Hin].
      intros name contents directory e Hname. exact (IH name contents Hname _ e).
Qed.

(** The entries after one whose [statSync] throws are never looked at;
    the entries before it give what they give alone. *)
Lemma findHyloFilesDebug_stat (directoryPath : string)
    (before after : list (string * FsEntry)) (name message : string) :
  (forall n m, ~ In (n, StatFails m) before) ->
  exists hyloFiles events,
    dsearchDebug directoryPath (Listing before) = (Returned hyloFiles, events) /\
    dsearchDebug directoryPath
      (Listing (before ++ (name, StatFails message) :: after))
    = (Returned hyloFiles, events ++ [errorEvent message]).
Proof.
  intros Hbefore.
  destruct (@scanFilesDebug_app directoryPath before
              ((name, StatFails message) :: after) Hbefore)
    as (hyloFiles & events & Hscan & Happ).
  exists hyloFiles, events. rewrite !findHyloFilesDebug_listing, Hscan, Happ.
  cbn [scanFilesDebug]. now rewrite !app_nil_r.
Qed.

(** A subdirectory in which a call throws does not end the search of the
    directory that holds it. *)
Lemma findHyloFilesDebug_below (directoryPath : string)
    (before after : list (string * FsEntry)) (name : string)
    (contents : FsFolder) :
  (forall n m, ~ In (n, StatFails m) before) ->
  exists hyloFiles events subDirFiles subEvents added events',
    dsearchDebug directoryPath (Listing before) = (Returned hyloFiles, events) /\
    dsearchDebug (path_join directoryPath name) contents
    = (Returned subDirFiles, subEvents) /\
    dsearchDebug directoryPath (Listing after) = (Returned added, events') /\
    dsearchDebug directoryPath
      (Listing (before ++ (name, Folder contents) :: after))
    = (Returned (hyloFiles ++ subDirFiles ++ added),
       events ++ subEvents ++ events').
Proof.
  intros Hbefore.
  destruct (@scanFilesDebug_app directoryPath before
              ((name, Folder contents) :: after) Hbefore)
    as (hyloFiles & events & Hscan & Happ).
  destruct (findHyloFilesDebug_returns contents
              (path_join directoryPath name))
    as (subDirFiles & subEvents & Hsub).
  exists hyloFiles, events, subDirFiles, subEvents.
  rewrite !findHyloFilesDebug_listing, Hscan, Happ, Hsub.
  cbn [scanFilesDebug app]. rewrite Hsub.
  rewrite (scanFilesDebug_from _ _ after subDirFiles).
  destruct (dscanDebug dsearchDebug directoryPath after [])
    as [[added [m |]] events'].
  - exists added, (events' ++ [errorEvent m]).
    repeat split. now rewrite <- !app_assoc.
  - exists added, events'. repeat split.
Qed.

End DebugSearch.

(** X21: the extension's search for Hylo files.  When no [readdirSync]
    and no [statSync] below the directory throws, it returns, appends no
    line to the output channel, and the array holds exactly the paths of
    the regular files whose extension is [.hylo] in any case of letters.
    Otherwise one call is the first to throw: the search throws the
    message of that call, returns no array, and the line
    "Error reading directory: <message>" has been appended once for each
    directory from the one that holds the failure up to the one searched. *)
Theorem extension_search_outcome (path_join : string -> string -> string)
    (path_extname : string -> string) (directoryPath : string)
    (folder : FsFolder) :
  (Healthy folder ->
   exists hyloFiles,
     findHyloFiles path_join path_extname directoryPath folder
     = (Returned hyloFiles, []) /\
     forall path,
       In path hyloFiles
       <-> HyloFileAt path_join path_extname directoryPath folder path) /\
  (forall message depth,
     FirstFailure folder message depth ->
     findHyloFiles path_join path_extname directoryPath folder
     = (Failed message, repeat (errorLine message) depth)) /\
  (Healthy folder \/
   exists message depth, FirstFailure folder message depth /\ 1 <= depth).
Proof.
  split; [| split].
  - intros Hhealthy.
    destruct (findHyloFiles_healthy path_join path_extname directoryPath
                Hhealthy) as [hyloFiles Hsearch].
    exists hyloFiles. split; [exact Hsearch |].
    exact (findHyloFiles_content path_join path_extname folder
             directoryPath Hsearch).
  - intros message depth Hfirst.
    exact (findHyloFiles_first_failure path_join path_extname Hfirst
             directoryPath).
  - destruct (healthy_or_first_failure folder) as [| (m & d & Hfirst)];
      [now left | right].
    exists m, d. split; [exact Hfirst |].
    inversion Hfirst; lia.
Qed.

Lemma extension_search_outcome_witness :
  Healthy quietFolder /\
  findHyloFiles sampleJoin sampleExtname "/w" quietFolder
  = (Returned ["/w/a.hylo"; "/w/sub/c.Hylo"], []) /\
  FirstFailure sampleFolder "EACCES" 3 /\
  findHyloFiles sampleJoin sampleExtname "/w" sampleFolder
  = (Failed "EACCES", repeat "Error reading directory: EACCES" 3).
Proof.
  assert (Hquiet : Healthy quietFolder).
  { constructor. intros n e Hin.
    repeat (destruct Hin as [[= <- <-] | Hin]; [repeat constructor |]);
      try contradiction.
    intros n' e' Hin'.
    repeat (destruct Hin' as [[= <- <-] | Hin']; [repeat constructor |]);
      contradiction. }
  assert (Hfirst : FirstFailure sampleFolder "EACCES" 3).
  { apply (@fails_below
             [("a.hylo", RegularFile); ("B.HYLO", RegularFile);
              ("notes.txt", RegularFile)]
             "sub" _ [("z.hylo", RegularFile)] "EACCES" 2).
    - intros n e Hin.
      repeat (destruct Hin as [[= <- <-] | Hin]; [constructor |]);
        contradiction.
    - apply (@fails_below [("c.Hylo", RegularFile)] "locked" _ []
               "EACCES" 1).
      + intros n e Hin.
        repeat (destruct Hin as [[= <- <-] | Hin]; [constructor |]);
          contradiction.
      + constructor. }
  split; [exact Hquiet |]. split; [| split; [exact Hfirst |]].
  - destruct (proj1 (extension_search_outcome sampleJoin sampleExtname "/w"
                       quietFolder) Hquiet) as (hyloFiles & Hsearch & _).
    rewrite Hsearch. vm_compute in Hsearch. now injection Hsearch as <-.
  - exact (proj1 (proj2 (extension_search_outcome sampleJoin sampleExtname
                           "/w" sampleFolder)) "EACCES" 3 Hfirst).
Defined.

(** X22: the debug adapter's search for Hylo files.  No exception leaves
    it; every path that it returns is the path of a regular file with the
    extension [.hylo]; every event that it sends is an error line on
    [stderr]; it sends no event exactly when no [readdirSync] and no
    [statSync] below the directory throws, and then it returns what the
    extension's search returns.  When [readdirSync] of the directory
    throws, it returns the empty array and sends one event.  When
    [statSync] of an entry throws, it returns what the entries before that
    one give and sends one event after theirs, whatever the entries after
    it are.  When a call throws in a subdirectory, the search of the
    directory goes on behind the subdirectory. *)
Theorem debug_search_outcome (path_join : string -> string -> string)
    (path_extname : string -> string) (directoryPath : string) :
  (forall folder,
     exists hyloFiles events,
       findHyloFilesDebug path_join path_extname directoryPath folder
       = (Returned hyloFiles, events) /\
       (forall path,
          In path hyloFiles ->
          HyloFileAt path_join path_extname directoryPath folder path) /\
       (forall event,
          In event events -> exists message, event = errorEvent message) /\
       (events = [] <-> Healthy folder) /\
       (Healthy folder ->
        findHyloFiles path_join path_extname directoryPath folder
        = (Returned hyloFiles, []))) /\
  (forall message,
     findHyloFilesDebug path_join path_extname directoryPath
       (Unreadable message)
     = (Returned [], [errorEvent message])) /\
  (forall before name message after,
     (forall n m, ~ In (n, StatFails m) before) ->
     exists hyloFiles events,
       findHyloFilesDebug path_join path_extname directoryPath
         (Listing before)
       = (Returned hyloFiles, events) /\
       findHyloFilesDebug path_join path_extname directoryPath
         (Listing (before ++ (name, StatFails message) :: after))
       = (Returned hyloFiles, events ++ [errorEvent message])) /\
  (forall before name contents after,
     (forall n m, ~ In (n, StatFails m) before) ->
     exists hyloFiles events subDirFiles subEvents added events',
       findHyloFilesDebug path_join path_extname directoryPath
         (Listing before)
       = (Returned hyloFiles, events) /\
       findHyloFilesDebug path_join path_extname
         (path_join directoryPath name) contents
       = (Returned subDirFiles, subEvents) /\
       findHyloFilesDebug path_join path_extname directoryPath
         (Listing after)
       = (Returned added, events') /\
       findHyloFilesDebug path_join path_extname directoryPath
         (Listing (before ++ (name, Folder contents) :: after))
       = (Returned (hyloFiles ++ subDirFiles ++ added),
          events ++ subEvents ++ events')).
Proof.
  split; [| split; [reflexivity | split]].
  - intros folder.
    destruct (findHyloFilesDebug_returns path_join path_extname folder
                directoryPath) as (hyloFiles & events & Hdebug).
    exists hyloFiles, events. split; [exact Hdebug |].
    pose proof (findHyloFilesDebug_sound path_join path_extname folder
                  directoryPath) as Hsound.
    pose proof (findHyloFilesDebug_events path_join path_extname folder
                  directoryPath) as Hevents.
    pose proof (@findHyloFilesDebug_silent path_join path_extname folder
                  directoryPath) as Hsilent.
    rewrite Hdebug in Hsound, Hevents, Hsilent.
    cbn [fst snd foundFiles] in Hsound, Hevents, Hsilent.
    split; [exact Hsound | split; [exact Hevents |]].
    assert (Hagree : Healthy folder ->
              findHyloFiles path_join path_extname directoryPath folder
              = (Returned hyloFiles, []) /\ events = []).
    { intros Hhealthy.
      destruct (findHyloFiles_healthy path_join path_extname directoryPath
                  Hhealthy) as [files Hsearch].
      pose proof (findHyloFilesDebug_agrees path_join path_extname folder
                    directoryPath Hsearch) as Hsame.
      rewrite Hdebug in Hsame. injection Hsame as -> ->.
      split; [exact Hsearch | reflexivity]. }
    split; [split; [exact Hsilent | apply Hagree] | apply Hagree].
  - intros before name message after.
    apply findHyloFilesDebug_stat.
  - intros before name contents after.
    apply findHyloFilesDebug_below.
Qed.

Lemma debug_search_outcome_witness :
  findHyloFilesDebug sampleJoin sampleExtname "/w" sampleFolder
  = (Returned ["/w/a.hylo"; "/w/B.HYLO"; "/w/sub/c.Hylo"; "/w/z.hylo"],
     [errorEvent "EACCES"]) /\
  findHyloFilesDebug sampleJoin sampleExtname "/w"
    (Listing [("a.hylo", RegularFile); ("gone", StatFails "ENOENT");
              ("z.hylo", RegularFile)])
  = (Returned ["/w/a.hylo"], [errorEvent "ENOENT"]).
Proof.
  split.
  - destruct (proj1 (debug_search_outcome sampleJoin sampleExtname "/w")
                sampleFolder) as (hyloFiles & events & Hdebug & _).
    rewrite Hdebug. vm_compute in Hdebug. now injection Hdebug as <- <-.
  - destruct (proj1 (proj2 (proj2 (debug_search_outcome sampleJoin
                                     sampleExtname "/w")))
                [("a.hylo", RegularFile)] "gone" "ENOENT"
                [("z.hylo", RegularFile)])
      as (hyloFiles & events & Hbefore & Hall).
    + intros n m [[=] | []].
    + cbn [app] in Hall. rewrite Hall.
      vm_compute in Hbefore. now injection Hbefore as <- <-.
Defined.

(* ================================================================== *)
(** * Gestures on the displayed tree *)
(* ================================================================== *)

Lemma Occurs_map_some (t : TreeItem) (items : list TreeItem) :
  Occurs t (map some items) ->
  exists item, In item items /\ (t = item \/ Occurs t (subItems item)).
Proof.
  intros H. inversion H as [? Hin | parent ? Hin Hbelow]; subst.
  - apply in_map_iff in Hin as (item & [= ->] & Hitem). eauto.
  - apply in_map_iff in Hin as (item & [= ->] & Hitem). eauto.
Qed.

Lemma Occurs_entries (t : TreeItem) (entries : list (Maybe TreeItem)) :
  Occurs t entries ->
  exists item,
    In (some item) entries /\ (t = item \/ Occurs t (subItems item)).
Proof.
  intros H. inversion H as [? Hin | parent ? Hin Hbelow]; subst; eauto.
Qed.

Lemma Forall2_in_right {A B : Type} (R : A -> B -> Prop) (l : list A)
    (l' : list B) (b : B) :
  Forall2 R l l' -> In b l' -> exists a, In a l /\ R a b.
Proof.
  induction 1 as [| a b' l l' HR _ IH]; intros Hin; [contradiction |].
  destruct Hin as [-> | Hin].
  - exists a. split; [now left | assumption].
  - destruct (IH Hin) as (a' & Ha' & HR'). exists a'.
    split; [now right | assumption].
Qed.

(** The item is the one of the node [n] at [id]; what is left to show is
    which actions it offers. *)
Ltac genuine_node id n :=
  right; exists id, n; split; [reflexivity | split; [assumption |]].

Section Displayed.

Variable JSON : JSONApi.
Variable ast : AST.

(** The item and everything shown below it is as projection makes it. *)
Definition GenuineTree (item : TreeItem) : Prop :=
  Genuine JSON ast item /\
  forall t, Occurs t (subItems item) -> Genuine JSON ast t.

Lemma genuine_leaf (item : TreeItem) :
  Genuine JSON ast item -> subItems item = [] -> GenuineTree item.
Proof.
  intros Hitem Hleaf. split; [exact Hitem |]. rewrite Hleaf.
  intros t H. inversion H; contradiction.
Qed.

Lemma genuine_children (item : TreeItem) (children : list TreeItem) :
  Genuine JSON ast item ->
  subItems item = map some children ->
  (forall child, In child children -> GenuineTree child) ->
  GenuineTree item.
Proof.
  intros Hitem Hsub Hchildren. split; [exact Hitem |]. rewrite Hsub.
  intros t H. apply Occurs_map_some in H as (child & Hin & [-> | Hbelow]).
  - exact (proj1 (Hchildren child Hin)).
  - exact (proj2 (Hchildren child Hin) t Hbelow).
Qed.

Lemma renderParameterDecl_genuine (id : NodeID) (item : TreeItem) :
  renderParameterDecl JSON ast id = Ok item -> GenuineTree item.
Proof.
  intros H. unfold renderParameterDecl in H.
  destruct (node ast id) as [[| | n] | e] eqn:Hnode; try discriminate.
  cbn [bind] in H.
  destruct (asParameterDecl_cases n) as [(d & -> & Hd) | Hthrow];
    [rewrite Hd in H | rewrite Hthrow in H; discriminate].
  injection H as <-. apply genuine_leaf; [| reflexivity].
  genuine_node id (N_ParameterDecl d).
  right. split; [reflexivity |]. eexists. reflexivity.
Qed.

Lemma renderFunctionDecl_genuine (id : NodeID) (item : TreeItem) :
  renderFunctionDecl JSON ast id = Ok item -> GenuineTree item.
Proof.
  intros H.
  destruct (node ast id) as [[| | n] | e] eqn:Hnode;
    try (unfold renderFunctionDecl in H; rewrite Hnode in H; discriminate).
  destruct (accessors_function_only n) as [(d & ->) | Hthrow].
  - rewrite (@renderFunctionDecl_resolved JSON ast id d Hnode) in H.
    destruct (mapM (renderParameterDecl JSON ast) (FunctionDecl.parameters d))
      as [params |] eqn:Hparams; [| discriminate].
    injection H as <-.
    apply genuine_children with
      (children := [{| icons := uniformIcon "symbol-property";
                       label := "parameters";
                       value := "n";
                       tooltip := None;
                       subItems := map some params;
                       decorations := None;
                       actions := None |}]).
    + genuine_node id (N_FunctionDecl d).
      right. split; [reflexivity |]. eexists. reflexivity.
    + reflexivity.
    + intros group [<- | []].
      apply genuine_children with (children := params);
        [left; split; reflexivity | reflexivity |].
      intros param Hin.
      apply mapM_Forall2 in Hparams.
      destruct (@Forall2_in_right _ _ _ _ _ _ Hparams Hin) as (p & _ & Hp).
      exact (renderParameterDecl_genuine p Hp).
  - unfold renderFunctionDecl in H. rewrite Hnode in H. cbn [bind] in H.
    rewrite Hthrow in H. discriminate.
Qed.

Lemma renderAnyDecl_genuine_entry (stack : nat) (id : NodeID)
    (item : TreeItem) :
  renderAnyDecl JSON stack ast id = Ok (some item) -> Genuine JSON ast item.
Proof.
  intros H.
  destruct (renderAnyDecl_ok _ _ _ _ H) as (stack' & n & -> & Hnode).
  destruct (renderAnyDecl_entry _ _ _ _ Hnode H)
    as (Hundefined & _ & Hitem).
  destruct (Hitem item eq_refl) as (Hvalue & Hsome & Hnone).
  right. exists id, n. split; [exact Hvalue | split; [exact Hnode |]].
  destruct n as [| d | d | d | d | d | kind Hfresh].
  - left. now apply Hnone.
  - right. split; [apply Hsome |]; eexists; reflexivity.
  - right. split; [apply Hsome |]; eexists; reflexivity.
  - left. now apply Hnone.
  - right. split; [apply Hsome |]; eexists; reflexivity.
  - right. split; [apply Hsome |]; eexists; reflexivity.
  - assert (Hnot : some item = undefined) by now apply Hundefined.
    discriminate.
Qed.

Lemma renderAnyDecl_leaf (stack : nat) (id : NodeID) (n : ASTNode)
    (item : TreeItem) :
  node ast id = Ok (some n) ->
  (n = N_missing \/ (exists d, n = N_ProductTypeDecl d) \/
   (exists d, n = N_ParameterDecl d)) ->
  renderAnyDecl JSON (S stack) ast id = Ok (some item) ->
  subItems item = [].
Proof.
  intros Hnode [-> | [(d & ->) | (d & ->)]] H.
  - rewrite (@renderAnyDecl_missing JSON ast stack id Hnode) in H.
    now injection H as <-.
  - cbn [renderAnyDecl] in H. unfold renderProductTypeDecl in H.
    rewrite Hnode in H. cbn in H. now injection H as <-.
  - cbn [renderAnyDecl] in H. unfold renderParameterDecl in H.
    rewrite Hnode in H. cbn in H. now injection H as <-.
Qed.

Lemma render_genuine (stack : nat) :
  (forall id item,
     renderModuleDecl JSON stack ast id = Ok item -> GenuineTree item) /\
  (forall id item,
     renderTranslationUnitDecl JSON stack ast id = Ok item ->
     GenuineTree item) /\
  (forall id item,
     renderAnyDecl JSON stack ast id = Ok (some item) -> GenuineTree item).
Proof.
  induction stack as [| stack (IHmodule & IHunit & IHany)];
    [repeat split; discriminate |].
  assert (Hmodule : forall id item,
             renderModuleDecl JSON (S stack) ast id = Ok item ->
             GenuineTree item).
  { intros id item H.
    apply renderModuleDecl_ok in H
      as (stack' & d & units & [= <-] & Hnode & Hunits & ->).
    apply genuine_children with (children := units); [| reflexivity |].
    - genuine_node id (N_ModuleDecl d). now left.
    - intros unit Hin. apply mapM_Forall2 in Hunits.
      destruct (@Forall2_in_right _ _ _ _ _ _ Hunits Hin) as (source & _ & Hunit).
      exact (IHunit source unit Hunit). }
  assert (Hunit : forall id item,
             renderTranslationUnitDecl JSON (S stack) ast id = Ok item ->
             GenuineTree item).
  { intros id item H.
    apply renderTranslationUnitDecl_ok in H
      as (stack' & d & items & [= <-] & Hnode & Hitems & ->).
    split.
    - genuine_node id (N_TranslationUnit d).
      right. split; [reflexivity |]. eexists. reflexivity.
    - cbn [subItems]. intros t H.
      apply Occurs_entries in H as (entry & Hin & Ht).
      apply mapM_Forall2 in Hitems.
      destruct (@Forall2_in_right _ _ _ _ _ _ Hitems Hin) as (decl & _ & Hentry).
      destruct (IHany decl entry Hentry) as [Hgenuine Hbelow].
      destruct Ht as [-> | Ht]; auto. }
  split; [exact Hmodule | split; [exact Hunit |]].
  intros id item H. split; [exact (renderAnyDecl_genuine_entry _ _ H) |].
  destruct (renderAnyDecl_ok _ _ _ _ H) as (? & n & _ & Hnode).
  destruct n as [| d | d | d | d | d | kind Hfresh].
  - rewrite (@renderAnyDecl_leaf stack id _ item Hnode (or_introl eq_refl) H).
    intros t Ht. inversion Ht; contradiction.
  - rewrite (@renderAnyDecl_function JSON ast stack id d Hnode) in H.
    destruct (renderFunctionDecl JSON ast id) as [it |] eqn:Hit;
      [| discriminate].
    injection H as <-. exact (proj2 (renderFunctionDecl_genuine id Hit)).
  - rewrite (@renderAnyDecl_unit JSON ast stack id d Hnode) in H.
    destruct (renderTranslationUnitDecl JSON stack ast id) as [it |] eqn:Hit;
      [| discriminate].
    injection H as <-. exact (proj2 (IHunit id it Hit)).
  - rewrite (@renderAnyDecl_module JSON ast stack id d Hnode) in H.
    destruct (renderModuleDecl JSON stack ast id) as [it |] eqn:Hit;
      [| discriminate].
    injection H as <-. exact (proj2 (IHmodule id it Hit)).
  - rewrite (@renderAnyDecl_leaf stack id _ item Hnode
               (or_intror (or_introl (ex_intro _ d eq_refl))) H).
    intros t Ht. inversion Ht; contradiction.
  - rewrite (@renderAnyDecl_leaf stack id _ item Hnode
               (or_intror (or_intror (ex_intro _ d eq_refl))) H).
    intros t Ht. inversion Ht; contradiction.
  - rewrite (@renderAnyDecl_other JSON ast stack id kind Hfresh Hnode) in H.
    discriminate.
Qed.

Lemma displayed_genuine (stackDepth : nat) (items : list TreeItem)
    (t : TreeItem) :
  mapM (renderModuleDecl JSON stackDepth ast) (modulesIds ast) = Ok items ->
  Occurs t (map some items) ->
  Genuine JSON ast t.
Proof.
  intros Hitems H.
  apply Occurs_map_some in H as (item & Hin & Ht).
  apply mapM_Forall2 in Hitems.
  destruct (@Forall2_in_right _ _ _ _ _ _ Hitems Hin) as (id & _ & Hitem).
  destruct (render_genuine stackDepth) as (Hmodule & _ & _).
  destruct (Hmodule id item Hitem) as [Hgenuine Hbelow].
  destruct Ht as [-> | Ht]; auto.
Qed.

End Displayed.

Lemma onSelect_node_returns (JSON : JSONApi) (value : string) (w : World)
    (ast : AST) (id : NodeID) (n : ASTNode) :
  this_ast w = some ast ->
  parseNodeID JSON value = Ok (some id) ->
  node ast id = Ok (some n) ->
  fst (onSelect JSON value w) = Ok tt.
Proof.
  intros Hast Hparse Hnode.
  rewrite (@onSelect_resolved JSON value w ast id (some n) Hast Hparse Hnode).
  assert (Hcases : (exists d, n = N_TranslationUnit d) \/
                   forall d, n <> N_TranslationUnit d)
    by (destruct n; try (right; discriminate); left; eauto).
  destruct Hcases as [(d & ->) | Hother].
  - reflexivity.
  - now rewrite (isTranslationUnit_other Hother).
Qed.

(** X23: after a projection that succeeded, no gesture on what the tree
    shows makes a listener throw.  Provided the serialized identifier of
    every node of the snapshot parses back to the identifier, and the text
    [n] (the value of the group "parameters") is rejected by the parser:
    selecting any item shown in the tree, at any depth, returns normally;
    and every action an item offers, run on that item, returns normally
    and posts exactly one message, a request to highlight a range. *)
Theorem displayed_entries_respond (JSON : JSONApi) (stackDepth : nat)
    (ast : AST) (w w' : World) (t : TreeItem) :
  updateAst JSON stackDepth (some ast) w = (Ok tt, w') ->
  (forall id n,
     node ast id = Ok (some n) ->
     parseNodeID JSON (stringify JSON id) = Ok (some id)) ->
  (exists e, parseNodeID JSON "n" = Throw e) ->
  Occurs t (astTreeView_data w') ->
  fst (onSelect JSON (value t) w') = Ok tt /\
  forall offered action,
    actions t = Some offered ->
    In action offered ->
    fst (onRunAction JSON (TreeItemAction.actionId action) (value t) w')
    = Ok tt /\
    exists range,
      posted (snd (onRunAction JSON (TreeItemAction.actionId action)
                     (value t) w'))
      = posted w' ++ [HighlightFullDeclarationMessage range].
Proof.
  intros Hupdate Hround Hgroup Hshown.
  rewrite updateAst_run in Hupdate.
  destruct (mapM (renderModuleDecl JSON stackDepth ast) (modulesIds ast))
    as [items | e] eqn:Hitems; [| discriminate].
  injection Hupdate as <-. cbn [astTreeView_data] in Hshown.
  destruct (@displayed_genuine JSON ast stackDepth items t Hitems Hshown)
    as [(Hvalue & Hnone) | (id & n & Hvalue & Hnode & Hactions)].
  - split.
    + rewrite Hvalue, onSelect_rejected; [reflexivity | now left].
    + intros offered action Hoffered. rewrite Hnone in Hoffered.
      discriminate.
  - pose proof (Hround id n Hnode) as Hparse. rewrite <- Hvalue in Hparse.
    split.
    + now apply onSelect_node_returns with (ast := ast) (id := id) (n := n).
    + intros offered action Hoffered Hin.
      destruct Hactions as [Hnone | (Hsome & range & Hsite)];
        [rewrite Hnone in Hoffered; discriminate |].
      rewrite Hsome in Hoffered. injection Hoffered as <-.
      destruct Hin as [<- | []].
      cbn [TreeItemAction.actionId highlightAction].
      erewrite highlight_run; [| reflexivity | exact Hparse | exact Hnode].
      cbn zeta. rewrite Hsite. split; [reflexivity |].
      exists range. reflexivity.
Qed.

Lemma displayed_entries_respond_witness :
  let w' := snd (updateAst sampleJSON 3 (some scenarioAst) initialWorld) in
  Occurs scenarioFunctionItem (astTreeView_data w') /\
  fst (onSelect sampleJSON (value scenarioFunctionItem) w') = Ok tt /\
  forall offered action,
    actions scenarioFunctionItem = Some offered ->
    In action offered ->
    fst (onRunAction sampleJSON (TreeItemAction.actionId action)
           (value scenarioFunctionItem) w') = Ok tt /\
    exists range,
      posted (snd (onRunAction sampleJSON (TreeItemAction.actionId action)
                     (value scenarioFunctionItem) w'))
      = posted w' ++ [HighlightFullDeclarationMessage range].
Proof.
  intros w'.
  assert (Hshown : Occurs scenarioFunctionItem (astTreeView_data w')).
  { vm_compute (astTreeView_data w').
    eapply occurs_below; [left; reflexivity |].
    eapply occurs_below; [left; reflexivity |].
    apply occurs_here. left. reflexivity. }
  split; [exact Hshown |].
  apply (@displayed_entries_respond sampleJSON 3 scenarioAst initialWorld w'
           scenarioFunctionItem).
  - reflexivity.
  - intros [b o] n Hnode. apply node_resolves in Hnode as [Hbase Hoffset].
    unfold GroupInBounds in Hbase. cbn in Hbase.
    assert (b = 0%Z) by lia. subst b. cbn in Hoffset.
    assert (Ho : o = 0%Z \/ o = 1%Z \/ o = 2%Z) by lia.
    destruct Ho as [-> | [-> | ->]]; reflexivity.
  - exists SyntaxError. reflexivity.
  - exact Hshown.
Defined.
